(** * collect-symbols: the symbol scanner of murphy's build utilities

    A shallow embedding of [src/utils/collect-symbols.c].  The scanner reads
    preprocessed C text one character at a time, groups it into short token
    sequences ("logical units"), recognises the symbol a unit declares and
    interns it into a symbol table that is finally dumped as a plain list or
    as a GNU ld version script.

    Conventions of the embedding

    - C [int]s are [Z]; every counter of the program is bounded by a buffer
      size ([READBUF_SIZE], [RINGBUF_SIZE], [MAX_TOKEN], [MAX_TOKENS]), so no
      wrap-around is reachable and none is written out.  The nesting level of
      [input_discard_block] is bounded by the number of bytes read.
    - C [char]s are [ascii]; the value 0 is the end-of-input sentinel.
    - A [char *] is a [ptr]: [NULL] or an offset into the token ring buffer,
      the only memory token values ever point into.  Reading a C string
      through a pointer goes through the current contents of that buffer, so
      the aliasing created by the ring buffer wrapping around is kept.
    - A [while] loop whose trip count is not bounded by a constant takes a
      [fuel] argument and answers [None] when the fuel runs out.
    - [errno] and the diagnostics that [verbose_message] writes to stderr are
      not observable by the scanner itself and are left out; the characters
      that [collect_tokens] prints to stdout are kept. *)

From Stdlib Require Import ZArith List String Ascii Bool Lia.
Import ListNotations.

#[local] Open Scope string_scope.
#[local] Open Scope Z_scope.

(** ** Constants *)

Definition READBUF_SIZE : Z := 8 * 1024.
Definition RINGBUF_SIZE : Z := 16 * 1024.
Definition MAX_TOKEN : Z := 512.
Definition MAX_TOKENS : Z := 64.

(** ** Characters *)

Definition NUL : ascii := "000"%char.
Definition TAB : ascii := "009"%char.
Definition NEWLINE : ascii := "010"%char.
Definition DQUOTE : ascii := "034"%char.
Definition SQUOTE : ascii := "039"%char.
Definition BACKSLASH : ascii := "092"%char.

Definition ch_eqb (a b : ascii) : bool := Ascii.eqb a b.

Definition in_range (lo hi c : ascii) : bool :=
  (Ascii.leb lo c && Ascii.leb c hi)%bool.

(** The macro [WORD_CHAR]. *)
Definition WORD_CHAR (c : ascii) : bool :=
  (in_range "a" "z" c || in_range "A" "Z" c || in_range "0" "9" c
   || (ch_eqb c "_" || ch_eqb c "$"))%bool.

(** ** Tokens *)

Inductive token_type_t : Set :=
| TOKEN_ERROR
| TOKEN_BLOCK
| TOKEN_WORD
| TOKEN_DQUOTED
| TOKEN_SQUOTED
| TOKEN_ASSIGN
| TOKEN_SEMICOLON
| TOKEN_COLON
| TOKEN_OTHER.

(** The enumerators' values. *)
Definition token_code (t : token_type_t) : Z :=
  match t with
  | TOKEN_ERROR => -1
  | TOKEN_BLOCK => 0
  | TOKEN_WORD => 1
  | TOKEN_DQUOTED => 2
  | TOKEN_SQUOTED => 3
  | TOKEN_ASSIGN => 4
  | TOKEN_SEMICOLON => 5
  | TOKEN_COLON => 6
  | TOKEN_OTHER => 7
  end.

Definition token_type_eqb (a b : token_type_t) : bool :=
  token_code a =? token_code b.

Inductive ptr : Set :=
| NULL
| Arena (off : Z).

Record token_t : Set := mk_token {
  tk_type : token_type_t;
  tk_value : ptr
}.

(** ** The input stream: [input_t]

    The descriptor is modelled by the bytes it has yet to deliver;
    [sys_read] stands for [read(2)] and hands over as many of them as fit
    into the buffer (0 at end of file). *)

Record input_t : Set := mk_input {
  in_fd : list ascii;
  in_buf : list ascii;
  in_len : Z;
  in_rd : Z;
  in_nxt : ascii
}.

Definition sys_read (fd : list ascii) (count : Z)
  : Z * list ascii * list ascii :=
  let data := firstn (Z.to_nat count) fd in
  (Z.of_nat (List.length data), data, skipn (Z.to_nat count) fd).

Definition input_init (fd : list ascii) : input_t :=
  mk_input fd [] 0 0 NUL.

Definition input_read (i : input_t) : ascii * input_t :=
  if negb (ch_eqb (in_nxt i) NUL) then
    (in_nxt i, mk_input (in_fd i) (in_buf i) (in_len i) (in_rd i) NUL)
  else if in_len i <=? in_rd i then
    let '(n, data, rest) := sys_read (in_fd i) READBUF_SIZE in
    if 0 <? n then
      (nth 0 data NUL, mk_input rest data n 1 (in_nxt i))
    else
      (NUL, mk_input rest (in_buf i) n (in_rd i) (in_nxt i))
  else
    (nth (Z.to_nat (in_rd i)) (in_buf i) NUL,
     mk_input (in_fd i) (in_buf i) (in_len i) (in_rd i + 1) (in_nxt i)).

(** Returns 0 on success and -1 (with [errno = EBUSY]) when a character is
    already pending. *)
Definition input_pushback (i : input_t) (ch : ascii) : Z * input_t :=
  if ch_eqb (in_nxt i) NUL then
    (0, mk_input (in_fd i) (in_buf i) (in_len i) (in_rd i) ch)
  else
    (-1, i).

Definition is_space (ch : ascii) : bool :=
  (ch_eqb ch " " || ch_eqb ch TAB || ch_eqb ch NEWLINE)%bool.

Fixpoint input_discard_whitespace (fuel : nat) (i : input_t)
  : option input_t :=
  match fuel with
  | O => None
  | S fuel' =>
      let '(ch, i1) := input_read i in
      if is_space ch then input_discard_whitespace fuel' i1
      else Some (snd (input_pushback i1 ch))
  end.

Fixpoint input_discard_line (fuel : nat) (i : input_t) : option input_t :=
  match fuel with
  | O => None
  | S fuel' =>
      let '(ch, i1) := input_read i in
      if (negb (ch_eqb ch NEWLINE) && negb (ch_eqb ch NUL))%bool
      then input_discard_line fuel' i1
      else Some i1
  end.

Fixpoint input_discard_quoted (fuel : nat) (i : input_t) (quote : ascii)
  : option (Z * input_t) :=
  match fuel with
  | O => None
  | S fuel' =>
      let '(ch, i1) := input_read i in
      if (negb (ch_eqb ch quote) && negb (ch_eqb ch NUL))%bool then
        if ch_eqb ch BACKSLASH
        then input_discard_quoted fuel' (snd (input_read i1)) quote
        else input_discard_quoted fuel' i1 quote
      else if negb (ch_eqb ch quote) then Some (-1, i1)
      else Some (0, i1)
  end.

(** The [while (level > 0)] loop of [input_discard_block]. *)
Fixpoint discard_block_loop (fuel : nat) (i : input_t) (beg end_ : ascii)
  (level : Z) : option (Z * input_t) :=
  match fuel with
  | O => None
  | S fuel' =>
      if 0 <? level then
        let '(ch, i1) := input_read i in
        if (ch_eqb ch DQUOTE || ch_eqb ch SQUOTE)%bool then
          match input_discard_quoted fuel' i1 ch with
          | None => None
          | Some (r, i2) =>
              if negb (r =? 0) then Some (-1, i2)
              else discard_block_loop fuel' i2 beg end_ level
          end
        else if ch_eqb ch end_ then
          discard_block_loop fuel' i1 beg end_ (level - 1)
        else if ch_eqb ch beg then
          discard_block_loop fuel' i1 beg end_ (level + 1)
        else
          discard_block_loop fuel' i1 beg end_ level
      else if level =? 0 then Some (0, i)
      else Some (-1, i)
  end.

Definition block_end (beg : ascii) : option ascii :=
  if ch_eqb beg "{" then Some "}"%char
  else if ch_eqb beg "[" then Some "]"%char
  else if ch_eqb beg "(" then Some ")"%char
  else None.

Definition input_discard_block (fuel : nat) (i : input_t) (beg : ascii)
  : option (Z * input_t) :=
  match block_end beg with
  | None => Some (0, i)
  | Some end_ => discard_block_loop fuel i beg end_ 1
  end.

(** ** The token ring buffer: [ringbuf_t] *)

Record ringbuf_t : Set := mk_ringbuf {
  rb_buf : list ascii;
  rb_wr : Z
}.

Definition ringbuf_init : ringbuf_t :=
  mk_ringbuf (repeat NUL (Z.to_nat RINGBUF_SIZE)) 0.

(** [store mem off data]: the bytes [data] written to [mem] from offset
    [off] on. *)
Definition store (mem : list ascii) (off : Z) (data : list ascii)
  : list ascii :=
  firstn (Z.to_nat off) mem ++ data
  ++ skipn (Z.to_nat off + List.length data) mem.

Fixpoint read_cstr (mem : list ascii) : string :=
  match mem with
  | [] => EmptyString
  | c :: mem' => if ch_eqb c NUL then EmptyString else String c (read_cstr mem')
  end.

(** The C string a pointer points to, in the ring buffer contents [mem].
    No caller below ever dereferences [NULL]. *)
Definition cstr (mem : list ascii) (p : ptr) : string :=
  match p with
  | NULL => EmptyString
  | Arena off => read_cstr (skipn (Z.to_nat off) mem)
  end.

(** [ringbuf_save rb token len] copies [len] bytes of [token] and a
    terminating 0 into the buffer, starting over from offset 0 when the room
    left does not suffice; every caller passes [len = strlen(token)].  The
    answer is [NULL] (with [errno = ENOSPC]) when the token does not fit into
    the whole buffer. *)
Definition ringbuf_save (rb : ringbuf_t) (token : string) (len : Z)
  : ptr * ringbuf_t :=
  let len := if len <? 0 then Z.of_nat (String.length token) else len in
  let n := RINGBUF_SIZE - 1 - rb_wr rb in
  let '(t, n, o) :=
    if n <? len + 1 then (0, RINGBUF_SIZE - 1, 0)
    else (rb_wr rb, n, rb_wr rb) in
  if len + 1 <=? n then
    let bytes := firstn (Z.to_nat len) (list_ascii_of_string token) in
    (Arena t, mk_ringbuf (store (rb_buf rb) t (bytes ++ [NUL]))
                         (o + len + 1))
  else
    (NULL, rb).

(** ** Words *)

(** The [for] loop of [input_collect_word]: [k] iterations are left and
    [word] holds [buf[0..n-1]]. *)
Fixpoint collect_word_loop (k : nat) (i : input_t) (rb : ringbuf_t)
  (word : string) (n : Z) : ptr * input_t * ringbuf_t :=
  match k with
  | O => (NULL, i, rb)
  | S k' =>
      let '(ch, i1) := input_read i in
      if WORD_CHAR ch then
        collect_word_loop k' i1 rb (word ++ String ch EmptyString) (n + 1)
      else
        let i2 := snd (input_pushback i1 ch) in
        let '(v, rb1) := ringbuf_save rb word n in
        (v, i2, rb1)
  end.

Definition input_collect_word (i : input_t) (rb : ringbuf_t)
  : ptr * input_t * ringbuf_t :=
  collect_word_loop (Z.to_nat (MAX_TOKEN - 1)) i rb EmptyString 0.

(** ** The tokenizer: [collect_tokens] *)

(** [tokens[n] = t] on the caller's array.  Every [n] that [collect_tokens]
    writes to is below [ntoken], the size of the array; a store outside the
    list, which the C program would make past the end of the array, is
    dropped here. *)
Fixpoint array_set (tokens : list token_t) (n : nat) (t : token_t)
  : list token_t :=
  match tokens, n with
  | [], _ => []
  | _ :: rest, O => t :: rest
  | x :: rest, S n' => x :: array_set rest n' t
  end.

Definition no_token : token_t := mk_token TOKEN_ERROR NULL.

(** [tokens[n]]. *)
Definition array_get (tokens : list token_t) (n : Z) : token_t :=
  nth (Z.to_nat n) tokens no_token.

(** The variables of [collect_tokens], with the process's stdout. *)
Record ct_state : Set := mk_ct {
  ct_in : input_t;
  ct_rb : ringbuf_t;
  ct_tokens : list token_t;
  ct_n : Z;
  ct_has_paren : Z;
  ct_stdout : string
}.

(** What one turn of the [while] loop does: leave the function with a
    value, or go round again. *)
Inductive ct_flow : Set :=
| Return (r : Z) (s : ct_state)
| Continue (s : ct_state).

Definition is_open (ch : ascii) : bool :=
  (ch_eqb ch "{" || ch_eqb ch "(" || ch_eqb ch "[")%bool.

Definition push_token (s : ct_state) (i : input_t) (rb : ringbuf_t)
  (t : token_t) (has_paren : Z) : ct_state :=
  mk_ct i rb (array_set (ct_tokens s) (Z.to_nat (ct_n s)) t) (ct_n s + 1)
        has_paren (ct_stdout s).

Definition with_input (s : ct_state) (i : input_t) : ct_state :=
  mk_ct i (ct_rb s) (ct_tokens s) (ct_n s) (ct_has_paren s) (ct_stdout s).

(** The body of the [while (n < ntoken)] loop: the [switch] on the
    character read. *)
Definition collect_tokens_body (fuel : nat) (s : ct_state) : option ct_flow :=
  let '(ch, i1) := input_read (ct_in s) in
  if ch_eqb ch ";" then
    let '(v, rb1) := ringbuf_save (ct_rb s) ";" 1 in
    let s1 := push_token s i1 rb1 (mk_token TOKEN_SEMICOLON v)
                         (ct_has_paren s) in
    Some (Return (ct_n s + 1) s1)
  else if ch_eqb ch "#" then
    match input_discard_line fuel i1 with
    | None => None
    | Some i2 => Some (Continue (with_input s i2))
    end
  else if (ch_eqb ch " " || ch_eqb ch TAB)%bool then
    match input_discard_whitespace fuel i1 with
    | None => None
    | Some i2 => Some (Continue (with_input s i2))
    end
  else if ch_eqb ch NEWLINE then
    Some (Continue (with_input s i1))
  else if is_open ch then
    match input_discard_block fuel i1 ch with
    | None => None
    | Some (r, i2) =>
        if negb (r =? 0) then Some (Return (-1) (with_input s i2))
        else if (ch_eqb ch "(" && (0 <? ct_n s)
                 && token_type_eqb
                      (tk_type (array_get (ct_tokens s) (ct_n s - 1)))
                      TOKEN_WORD
                 && String.eqb
                      (cstr (rb_buf (ct_rb s))
                            (tk_value (array_get (ct_tokens s) (ct_n s - 1))))
                      "__attribute__")%bool
        then
          Some (Continue (mk_ct i2 (ct_rb s) (ct_tokens s) (ct_n s - 1)
                                (ct_has_paren s) (ct_stdout s)))
        else
          let v := if ch_eqb ch "{" then "{"
                   else if ch_eqb ch "[" then "[" else "(" in
          let '(p, rb1) := ringbuf_save (ct_rb s) v 1 in
          let t := mk_token TOKEN_BLOCK p in
          if String.eqb v "(" then
            Some (Continue (push_token s i2 rb1 t 1))
          else
            let s1 := push_token s i2 rb1 t (ct_has_paren s) in
            if (String.eqb v "{" && negb (ct_has_paren s =? 0))%bool
            then Some (Return (ct_n s1) s1)
            else Some (Continue s1)
    end
  else if ch_eqb ch NUL then
    Some (Return (ct_n s) (with_input s i1))
  else if WORD_CHAR ch then
    let i2 := snd (input_pushback i1 ch) in
    let '(v, i3, rb1) := input_collect_word i2 (ct_rb s) in
    match v with
    | NULL => Some (Return (-1) (mk_ct i3 rb1 (ct_tokens s) (ct_n s)
                                       (ct_has_paren s) (ct_stdout s)))
    | Arena _ =>
        Some (Continue (push_token s i3 rb1 (mk_token TOKEN_WORD v)
                                   (ct_has_paren s)))
    end
  else if ch_eqb ch "=" then
    let '(v, rb1) := ringbuf_save (ct_rb s) "=" 1 in
    Some (Continue (push_token s i1 rb1 (mk_token TOKEN_ASSIGN v)
                               (ct_has_paren s)))
  else if ch_eqb ch "*" then
    Some (Continue (with_input s i1))
  else
    Some (Continue (mk_ct i1 (ct_rb s) (ct_tokens s) (ct_n s)
                          (ct_has_paren s)
                          (ct_stdout s ++ String ch EmptyString))).

(** The loop itself; running off its end is the overflow of the caller's
    array ([errno = EOVERFLOW]). *)
Fixpoint collect_tokens_loop (fuel : nat) (ntoken : Z) (s : ct_state)
  : option (Z * ct_state) :=
  match fuel with
  | O => None
  | S fuel' =>
      if ct_n s <? ntoken then
        match collect_tokens_body fuel' s with
        | None => None
        | Some (Return r s') => Some (r, s')
        | Some (Continue s') => collect_tokens_loop fuel' ntoken s'
        end
      else Some (-1, s)
  end.

Definition collect_tokens (fuel : nat) (i : input_t) (rb : ringbuf_t)
  (tokens : list token_t) (ntoken : Z) (stdout : string)
  : option (Z * ct_state) :=
  collect_tokens_loop fuel ntoken (mk_ct i rb tokens 0 0 stdout).

(** ** The recognizer: [symbol_from_tokens] *)

(** The macro [MATCHING_TOKEN]; an empty [val] matches every value. *)
Definition MATCHING_TOKEN (mem : list ascii) (tokens : list token_t) (n : Z)
  (type : token_type_t) (val : string) : bool :=
  (token_type_eqb (tk_type (array_get tokens n)) type
   && (String.eqb val EmptyString
       || String.eqb val (cstr mem (tk_value (array_get tokens n)))))%bool.

Record flags_t : Set := mk_flags {
  has_paren : Z;
  has_curly : Z;
  has_bracket : Z;
  has_assign : Z
}.

(** One turn of the [for] loop that computes the flags. *)
Definition scan_token (mem : list ascii) (tokens : list token_t) (i : Z)
  (f : flags_t) : flags_t :=
  if MATCHING_TOKEN mem tokens i TOKEN_BLOCK "(" then
    mk_flags 1 (has_curly f) (has_bracket f) (has_assign f)
  else if MATCHING_TOKEN mem tokens i TOKEN_BLOCK "{" then
    mk_flags (has_paren f) 1 (has_bracket f) (has_assign f)
  else if MATCHING_TOKEN mem tokens i TOKEN_BLOCK "[" then
    mk_flags (has_paren f) (has_curly f) 1 (has_assign f)
  else if MATCHING_TOKEN mem tokens i TOKEN_ASSIGN "" then
    mk_flags (has_paren f) (has_curly f) (has_bracket f) (1 + i)
  else f.

(** [for (i = ...; i < ntoken; i++)], with [k] turns left. *)
Fixpoint scan_flags (mem : list ascii) (tokens : list token_t) (k : nat)
  (i : Z) (f : flags_t) : flags_t :=
  match k with
  | O => f
  | S k' => scan_flags mem tokens k' (i + 1) (scan_token mem tokens i f)
  end.

(** [mem] is the ring buffer the token values point into. *)
Definition symbol_from_tokens (mem : list ascii) (tokens : list token_t)
  (ntoken : Z) : ptr :=
  let f := scan_flags mem tokens (Z.to_nat ntoken) 0 (mk_flags 0 0 0 0) in
  let last := ntoken - 1 in
  let value n := tk_value (array_get tokens n) in
  let M := MATCHING_TOKEN mem tokens in
  if negb (token_type_eqb (tk_type (array_get tokens 0)) TOKEN_WORD) then NULL
  else if (M 0 TOKEN_WORD "typedef" || M 0 TOKEN_WORD "static")%bool then NULL
  else if ((2 <? last)
           && (M last TOKEN_SEMICOLON ""
               && M (last - 1) TOKEN_BLOCK "("
               && M (last - 2) TOKEN_WORD ""))%bool
  then value (last - 2)
  else
    let assigned := ((1 <? last) && negb (has_assign f =? 0))%bool in
    let i := has_assign f - 1 in
    if (assigned && ((0 <? i) && M (i - 1) TOKEN_WORD ""))%bool
    then value (i - 1)
    else if (assigned
             && ((1 <? i)
                 && M (i - 1) TOKEN_BLOCK "["
                 && M (i - 2) TOKEN_WORD ""))%bool
    then value (i - 2)
    else if ((1 <? last)
             && (has_paren f =? 0) && (has_curly f =? 0)
             && (M last TOKEN_SEMICOLON ""
                 && M (last - 1) TOKEN_WORD ""))%bool
    then value (last - 1)
    else NULL.

(** ** The symbol table: [symtab_t]

    [syms[0..nsym-1]] as the list of the owned strings.  The model covers the
    runs in which [realloc] and [strdup] succeed; otherwise [fatal_error]
    ends the process. *)

Definition symtab_t : Set := list string.

Definition symtab_init : symtab_t := [].

(** The search loop of [symtab_add]. *)
Fixpoint symtab_has (syms : list string) (sym : string) : bool :=
  match syms with
  | [] => false
  | s :: rest => if String.eqb s sym then true else symtab_has rest sym
  end.

Definition symtab_add (st : symtab_t) (sym : string) : symtab_t :=
  if symtab_has st sym then st else (st ++ [sym])%list.

Definition symtab_reset (st : symtab_t) : symtab_t := [].

(** ** The output: [symtab_dump] *)

Definition nl : string := String NEWLINE EmptyString.

(** [for (i = 0; i < nsym; i++) fprintf(out, pre "%s" post, syms[i])]. *)
Fixpoint dump_syms (pre post : string) (syms : list string) (out : string)
  : string :=
  match syms with
  | [] => out
  | s :: rest =>
      dump_syms pre post rest (out ++ (pre ++ s ++ post))%string
  end.

(** [out] is what the stream holds; the answer is what it holds after. *)
Definition symtab_dump (st : symtab_t) (gnuld : Z) (out : string) : string :=
  if gnuld =? 0 then
    dump_syms "" nl st out
  else
    let out := (out ++ ("{" ++ nl))%string in
    let out :=
      if 0 <? Z.of_nat (List.length st) then
        dump_syms "        " (";" ++ nl) st
                  (out ++ ("    global:" ++ nl))%string
      else out in
    let out := (out ++ ("    local:" ++ nl))%string in
    let out := (out ++ ("        *;" ++ nl))%string in
    (out ++ ("};" ++ nl))%string.

(** ** The scan of one file: [extract_symbols]

    [re] is the compiled pattern, if any: [regexec(re, sym, ...) == 0] is
    [matcher sym = true]. *)

Definition regex_t : Type := string -> bool.

(** The variables of [extract_symbols] that outlive a turn of its loop. *)
Record scan_t : Set := mk_scan {
  sc_in : input_t;
  sc_rb : ringbuf_t;
  sc_tokens : list token_t;
  sc_stdout : string
}.

Fixpoint extract_loop (fuel : nat) (re : option regex_t) (sc : scan_t)
  (st : symtab_t) : option (symtab_t * scan_t) :=
  match fuel with
  | O => None
  | S fuel' =>
      match collect_tokens fuel' (sc_in sc) (sc_rb sc) (sc_tokens sc)
                           MAX_TOKENS (sc_stdout sc) with
      | None => None
      | Some (ntoken, s) =>
          let sc' := mk_scan (ct_in s) (ct_rb s) (ct_tokens s) (ct_stdout s) in
          if 0 <? ntoken then
            let mem := rb_buf (ct_rb s) in
            let sym := symbol_from_tokens mem (ct_tokens s) ntoken in
            let st' :=
              match sym with
              | NULL => st
              | Arena _ =>
                  match re with
                  | None => symtab_add st (cstr mem sym)
                  | Some matcher =>
                      if matcher (cstr mem sym)
                      then symtab_add st (cstr mem sym)
                      else st
                  end
              end in
            extract_loop fuel' re sc' st'
          else Some (st, sc')
      end
  end.

(** [preprocessed] is what the preprocessor writes to the pipe for the file;
    the token array starts out as [MAX_TOKENS] unset entries. *)
Definition extract_symbols (fuel : nat) (preprocessed : string)
  (st : symtab_t) (re : option regex_t) (stdout : string)
  : option (symtab_t * string) :=
  let sc := mk_scan (input_init (list_ascii_of_string preprocessed))
                    ringbuf_init
                    (repeat no_token (Z.to_nat MAX_TOKENS))
                    stdout in
  match extract_loop fuel re sc st with
  | None => None
  | Some (st', sc') => Some (st', sc_stdout sc')
  end.

(** * Vocabulary of the statements *)

(** The text a token's value points to. *)
Definition token_text (mem : list ascii) (tokens : list token_t) (n : Z)
  : string :=
  cstr mem (tk_value (array_get tokens n)).

Definition is_type (tokens : list token_t) (n : Z) (type : token_type_t)
  : Prop :=
  tk_type (array_get tokens n) = type.

(** Token [n] is the Block-Open token of the bracket [open]. *)
Definition is_block (mem : list ascii) (tokens : list token_t) (n : Z)
  (open : string) : Prop :=
  is_type tokens n TOKEN_BLOCK /\ token_text mem tokens n = open.

(** The first token is a Word other than [typedef] and [static]. *)
Definition starts_declaration (mem : list ascii) (tokens : list token_t)
  : Prop :=
  is_type tokens 0 TOKEN_WORD
  /\ token_text mem tokens 0 <> "typedef"
  /\ token_text mem tokens 0 <> "static".

(** The last three tokens are a Word, a "(" block and a Semicolon. *)
Definition prototype_shape (mem : list ascii) (tokens : list token_t)
  (ntoken : Z) : Prop :=
  is_type tokens (ntoken - 3) TOKEN_WORD
  /\ is_block mem tokens (ntoken - 2) "("
  /\ is_type tokens (ntoken - 1) TOKEN_SEMICOLON.

(** The unit has more than 3 tokens and ends that way: what the prototype
    rule looks for. *)
Definition prototype_tail (mem : list ascii) (tokens : list token_t)
  (ntoken : Z) : Prop :=
  3 < ntoken /\ prototype_shape mem tokens ntoken.

(** Token [j] is the last Assign token of the unit. *)
Definition last_assign (tokens : list token_t) (ntoken j : Z) : Prop :=
  0 <= j < ntoken
  /\ is_type tokens j TOKEN_ASSIGN
  /\ forall j', j < j' < ntoken -> ~ is_type tokens j' TOKEN_ASSIGN.

(** The last Assign token follows a Word, or a "[" block that follows a
    Word: the shapes the assignment rule looks for. *)
Definition assign_rule_applies (mem : list ascii) (tokens : list token_t)
  (ntoken : Z) : Prop :=
  exists j, last_assign tokens ntoken j
    /\ ((0 < j /\ is_type tokens (j - 1) TOKEN_WORD)
        \/ (1 < j /\ is_block mem tokens (j - 1) "["
            /\ is_type tokens (j - 2) TOKEN_WORD)).

(** The flags that [symbol_from_tokens] computes for a unit. *)
Definition unit_flags (mem : list ascii) (tokens : list token_t) (ntoken : Z)
  : flags_t :=
  scan_flags mem tokens (Z.to_nat ntoken) 0 (mk_flags 0 0 0 0).

(** The unit as types and texts. *)
Definition unit_view (mem : list ascii) (tokens : list token_t) (ntoken : Z)
  : list (token_type_t * string) :=
  map (fun t => (tk_type t, cstr mem (tk_value t)))
      (firstn (Z.to_nat ntoken) tokens).

(** The first [collect_tokens] call of a scan of [text]. *)
Definition scan_text (fuel : nat) (text : string) : option (Z * ct_state) :=
  collect_tokens fuel (input_init (list_ascii_of_string text)) ringbuf_init
                 (repeat no_token (Z.to_nat MAX_TOKENS)) MAX_TOKENS
                 EmptyString.

(** The ring buffer, the token array and the token count that
    [symbol_from_tokens] is called with for the first unit of [text]. *)
Definition unit_of_text (text : string) : list ascii * list token_t * Z :=
  match scan_text 1000 text with
  | Some (n, s) => (rb_buf (ct_rb s), ct_tokens s, n)
  | None => ([], [], 0)
  end.

Definition unit_mem (text : string) : list ascii :=
  fst (fst (unit_of_text text)).

Definition unit_tokens (text : string) : list token_t :=
  snd (fst (unit_of_text text)).

Definition unit_count (text : string) : Z :=
  snd (unit_of_text text).

(** The first unit of [text] and the symbol recognised in it. *)
Definition recognize (text : string)
  : list (token_type_t * string) * option string :=
  let '(mem, tokens, n) := unit_of_text text in
  (unit_view mem tokens n,
   match symbol_from_tokens mem tokens n with
   | NULL => None
   | Arena off => Some (cstr mem (Arena off))
   end).

(** The names of a list without repetitions, each at the place of its first
    occurrence. *)
Fixpoint first_occurrences (names : list string) : list string :=
  match names with
  | [] => []
  | s :: rest =>
      s :: filter (fun x => negb (String.eqb s x)) (first_occurrences rest)
  end.

(** The text made of the given lines, each ended by a newline. *)
Fixpoint unlines (lines : list string) : string :=
  match lines with
  | [] => EmptyString
  | l :: rest => (l ++ nl ++ unlines rest)%string
  end.

(** The table after the calls [symtab_add(st, name)] for each of [names]. *)
Definition symtab_add_all (st : symtab_t) (names : list string) : symtab_t :=
  fold_left symtab_add names st.

(** Nothing is pending and [read] has nothing more to deliver. *)
Definition at_eof (i : input_t) : Prop :=
  in_nxt i = NUL /\ in_fd i = [] /\ in_len i <= in_rd i /\ 0 <= in_rd i.

(** The stream of a descriptor that has delivered all its bytes. *)
Definition drained : input_t := snd (input_read (input_init [])).

(** The variables of [collect_tokens] when it is entered for the first unit
    of [text]. *)
Definition ct_start (text : string) : ct_state :=
  mk_ct (input_init (list_ascii_of_string text)) ringbuf_init
        (repeat no_token (Z.to_nat MAX_TOKENS)) 0 0 EmptyString.

(** The variables of [collect_tokens] after [k] more turns of its loop, as
    long as it goes round. *)
Fixpoint ct_turns (k fuel : nat) (s : ct_state) : ct_state :=
  match k with
  | O => s
  | S k' =>
      match collect_tokens_body fuel s with
      | Some (Continue s') => ct_turns k' fuel s'
      | _ => s
      end
  end.

(** The declaration with a compiler attribute that serves as example. *)
Definition attribute_text : string :=
  "int f(void) __attribute__((unused));".

(** [collect_tokens] on [attribute_text] after six turns: [int], the blank,
    [f], the block [(void)], the blank and [__attribute__] are read. *)
Definition before_attribute_block : ct_state :=
  ct_turns 6 100 (ct_start attribute_text).

(** The stream once the [(] after [__attribute__] is read. *)
Definition inside_attribute_block : input_t :=
  snd (input_read (ct_in before_attribute_block)).

(** The stream once the block [((unused))] is discarded. *)
Definition after_attribute_block : input_t :=
  match input_discard_block 100 inside_attribute_block "(" with
  | Some (_, i) => i
  | None => inside_attribute_block
  end.

(** The variables of [extract_symbols] when its loop is entered. *)
Definition scan_init (text : string) : scan_t :=
  mk_scan (input_init (list_ascii_of_string text)) ringbuf_init
          (repeat no_token (Z.to_nat MAX_TOKENS)) EmptyString.


(** The result of the first [collect_tokens] call on [sc]; [sc] itself when
    the fuel does not suffice. *)
Definition first_call (fuel : nat) (sc : scan_t) : Z * ct_state :=
  match collect_tokens fuel (sc_in sc) (sc_rb sc) (sc_tokens sc)
                       MAX_TOKENS (sc_stdout sc) with
  | Some r => r
  | None => (0, mk_ct (sc_in sc) (sc_rb sc) (sc_tokens sc) 0 0 (sc_stdout sc))
  end.

(** ** Vocabulary of the further properties *)

(** The part of the read buffer that is not consumed yet. *)
Definition buffered (i : input_t) : list ascii :=
  skipn (Z.to_nat (in_rd i)) (firstn (Z.to_nat (in_len i)) (in_buf i)).

(** The bytes the stream has yet to deliver, in order: the pushed-back
    character if there is one, the rest of the buffer, and what the
    descriptor still holds. *)
Definition pending (i : input_t) : list ascii :=
  ((if ch_eqb (in_nxt i) NUL then [] else [in_nxt i])
   ++ buffered i ++ in_fd i)%list.

(** The read offset is not negative and the fill level does not exceed the
    data in the buffer. *)
Definition wf_input (i : input_t) : Prop :=
  0 <= in_rd i /\ in_len i <= Z.of_nat (List.length (in_buf i)).

(** [l] without its longest prefix of characters that satisfy [p]. *)
Fixpoint skip_while (p : ascii -> bool) (l : list ascii) : list ascii :=
  match l with
  | [] => []
  | c :: rest => if p c then skip_while p rest else l
  end.

(** [l] after its first newline; nothing when it has none. *)
Fixpoint after_newline (l : list ascii) : list ascii :=
  match l with
  | [] => []
  | c :: rest => if ch_eqb c NEWLINE then rest else after_newline rest
  end.

(** A character that [input_discard_block] passes over: no bracket of the
    block, no quote, not 0. *)
Definition plain_char (beg end_ c : ascii) : Prop :=
  c <> beg /\ c <> end_ /\ c <> DQUOTE /\ c <> SQUOTE /\ c <> NUL.

(** [block_body beg end_ level l]: the text [l] closes [level] open
    brackets with its last character and not before; it is made of plain
    characters, nested [beg] ... [end_] pairs and quoted pieces without
    backslash. *)
Inductive block_body (beg end_ : ascii) : Z -> list ascii -> Prop :=
| bb_last : block_body beg end_ 1 [end_]
| bb_close (level : Z) (l : list ascii) :
    1 < level ->
    block_body beg end_ (level - 1) l ->
    block_body beg end_ level (end_ :: l)
| bb_open (level : Z) (l : list ascii) :
    block_body beg end_ (level + 1) l ->
    block_body beg end_ level (beg :: l)
| bb_plain (c : ascii) (level : Z) (l : list ascii) :
    plain_char beg end_ c ->
    block_body beg end_ level l ->
    block_body beg end_ level (c :: l)
| bb_quoted (q : ascii) (quoted : list ascii) (level : Z) (l : list ascii) :
    q = DQUOTE \/ q = SQUOTE ->
    Forall (fun c => c <> q /\ c <> BACKSLASH /\ c <> NUL) quoted ->
    block_body beg end_ level l ->
    block_body beg end_ level (q :: quoted ++ q :: l).

(** The characters that [n] calls of [input_read] deliver, and the stream
    they leave. *)
Fixpoint read_n (n : nat) (i : input_t) : list ascii * input_t :=
  match n with
  | O => ([], i)
  | S n' =>
      let '(ch, i1) := input_read i in
      let '(l, i2) := read_n n' i1 in
      (ch :: l, i2)
  end.

(** The ring buffer has its size and the write offset lies inside it. *)
Definition wf_ringbuf (rb : ringbuf_t) : Prop :=
  Z.of_nat (List.length (rb_buf rb)) = RINGBUF_SIZE
  /\ 0 <= rb_wr rb <= RINGBUF_SIZE - 1.

(** The C string [token] holds no 0 before its end. *)
Definition nul_free (token : string) : Prop :=
  ~ In NUL (list_ascii_of_string token).

(** A token as [collect_tokens] appends it before the end of a unit: a
    block, a word or an assignment, with a value. *)
Definition inner_token (t : token_t) : Prop :=
  (tk_type t = TOKEN_BLOCK \/ tk_type t = TOKEN_WORD
   \/ tk_type t = TOKEN_ASSIGN)
  /\ tk_value t <> NULL.

(** A unit as [collect_tokens] returns it: inner tokens, and possibly a
    semicolon with a value at the very end. *)
Definition unit_shape (unit : list token_t) : Prop :=
  exists body tail,
    unit = (body ++ tail)%list
    /\ Forall inner_token body
    /\ (tail = []
        \/ exists off, tail = [mk_token TOKEN_SEMICOLON (Arena off)]).

(** The loop invariant of [collect_tokens] on an array of [size] entries. *)
Definition ct_inv (size : nat) (s : ct_state) : Prop :=
  0 <= ct_n s
  /\ List.length (ct_tokens s) = size
  /\ Forall inner_token (firstn (Z.to_nat (ct_n s)) (ct_tokens s)).

(** A call of [collect_tokens] with capacity 3 on an array of 8 entries,
    for the text [a = b = c;]. *)
Definition crowded_call : Z * ct_state :=
  match collect_tokens 100 (input_init (list_ascii_of_string "a = b = c;"))
                       ringbuf_init (repeat (mk_token TOKEN_OTHER NULL) 8) 3
                       EmptyString with
  | Some r => r
  | None => (0, ct_start EmptyString)
  end.

(** The loop of [main] over the files: [texts] are the outputs of the
    preprocessor for the files of the command line, in order. *)
Fixpoint extract_all (fuel : nat) (texts : list string) (st : symtab_t)
  (re : option regex_t) (stdout : string) : option (symtab_t * string) :=
  match texts with
  | [] => Some (st, stdout)
  | text :: rest =>
      match extract_symbols fuel text st re stdout with
      | None => None
      | Some (st', stdout') => extract_all fuel rest st' re stdout'
      end
  end.

(** [main] once the command line is parsed and the pattern compiled: the
    scan of all files into a fresh table and the dump of the table, into
    the output file when [-o] is given ([to_file]) and to stdout otherwise.
    The answer is what stdout holds and what the output file holds. *)
Definition main (fuel : nat) (texts : list string) (re : option regex_t)
  (gnuld : Z) (to_file : bool) : option (string * option string) :=
  match extract_all fuel texts symtab_init re EmptyString with
  | None => None
  | Some (st, stdout) =>
      if to_file then Some (stdout, Some (symtab_dump st gnuld EmptyString))
      else Some (symtab_dump st gnuld stdout, None)
  end.

(** Every name of [names] passes the pattern, if there is one. *)
Definition all_match (re : option regex_t) (names : list string) : Prop :=
  match re with
  | None => True
  | Some matcher => Forall (fun x => matcher x = true) names
  end.

(** The longest prefix of [l] whose characters satisfy [p]. *)
Fixpoint take_while (p : ascii -> bool) (l : list ascii) : list ascii :=
  match l with
  | [] => []
  | c :: rest => if p c then c :: take_while p rest else []
  end.

(** A text that [collect_tokens] can scan without meeting a 0 byte or an
    opening bracket. *)
Definition flat_text (l : list ascii) : Prop :=
  ~ In NUL l /\ Forall (fun c => is_open c = false) l.

(** ** Vocabulary of the end of a scan *)














(** ** Vocabulary of the crowded unit *)

(** The word made of [n] characters [c]. *)
Definition long_word (c : ascii) (n : Z) : string :=
  string_of_list_ascii (repeat c (Z.to_nat n)).

(** The word [w] written [k] times, with a blank after each. *)
Fixpoint words (k : nat) (w : string) : string :=
  match k with
  | O => EmptyString
  | S k' => (w ++ " " ++ words k' w)%string
  end.

(** The unit [x = a...a (32 words of 510 characters) b...b (one word of [n]
    characters) ;].  Its 36 tokens take [16357 + n] bytes of the ring
    buffer. *)
Definition crowded_unit (n : Z) : string :=
  ("x = " ++ words 32 (long_word "a" 510) ++ long_word "b" n ++ ";")%string.

(** ** Vocabulary of the intact unit *)

(** A name: a string of word characters that is not empty. *)
Definition is_name (w : string) : Prop :=
  w <> EmptyString
  /\ Forall (fun c => WORD_CHAR c = true) (list_ascii_of_string w).

(** The texts that [collect_tokens] saves for a token of type [type]. *)
Definition token_class (type : token_type_t) (text : string) : Prop :=
  match type with
  | TOKEN_WORD => is_name text
  | TOKEN_BLOCK => text = "(" \/ text = "{" \/ text = "["
  | TOKEN_ASSIGN => text = "="
  | TOKEN_SEMICOLON => text = ";"
  | _ => False
  end.

(** The string [w] occurs in the bytes [l]. *)
Definition occurs_in (w : string) (l : list ascii) : Prop :=
  exists a b, l = (a ++ list_ascii_of_string w ++ b)%list.

(** The token [t] reads, in the ring buffer contents [mem], as a text of
    its type; a Word is a word of the bytes [consumed]. *)
Definition token_reads (mem : list ascii) (consumed : list ascii)
  (t : token_t) : Prop :=
  token_class (tk_type t) (cstr mem (tk_value t))
  /\ (tk_type t = TOKEN_WORD -> occurs_in (cstr mem (tk_value t)) consumed).

(** The token [t] reads that way from bytes that end below the write
    offset [wr]. *)
Definition token_intact (mem : list ascii) (wr : Z) (consumed : list ascii)
  (t : token_t) : Prop :=
  exists off,
    tk_value t = Arena off
    /\ 0 <= off
    /\ off + Z.of_nat (String.length (cstr mem (Arena off))) < wr
    /\ token_reads mem consumed t.

(** What a turn of the loop of [collect_tokens] does to its variables: it
    consumes the bytes [c], and either it appends no token (the ring buffer
    and the array stay, [n] stays or goes back by one for an attribute), or
    it saves a text of at most [length c] bytes and appends it as a token of
    its type. *)
Definition turn_effect (s s' : ct_state) : Prop :=
  wf_input (ct_in s')
  /\ exists c,
       pending (ct_in s) = (c ++ pending (ct_in s'))%list
       /\ ((ct_rb s' = ct_rb s /\ ct_tokens s' = ct_tokens s
            /\ (ct_n s' = ct_n s \/ (ct_n s' = ct_n s - 1 /\ 0 < ct_n s)))
           \/ exists type text,
                token_class type text
                /\ (String.length text <= List.length c)%nat
                /\ (type = TOKEN_WORD -> occurs_in text c)
                /\ ct_rb s'
                   = snd (ringbuf_save (ct_rb s) text
                                       (Z.of_nat (String.length text)))
                /\ ct_tokens s'
                   = array_set (ct_tokens s) (Z.to_nat (ct_n s))
                       (mk_token type
                          (fst (ringbuf_save (ct_rb s) text
                                  (Z.of_nat (String.length text)))))
                /\ ct_n s' = ct_n s + 1).

(** The variables of [collect_tokens] in a call that was entered with the
    write offset [wr0] and has consumed the bytes [consumed] without the
    ring buffer starting over: the tokens of the unit so far are intact. *)
Definition unit_intact (size : nat) (wr0 : Z) (consumed : list ascii)
  (s : ct_state) : Prop :=
  wf_input (ct_in s) /\ wf_ringbuf (ct_rb s) /\ 0 <= ct_n s
  /\ List.length (ct_tokens s) = size
  /\ rb_wr (ct_rb s) <= wr0 + 2 * Z.of_nat (List.length consumed)
  /\ Forall (token_intact (rb_buf (ct_rb s)) (rb_wr (ct_rb s)) consumed)
            (firstn (Z.to_nat (ct_n s)) (ct_tokens s)).

(** Closed statements about sample inputs are settled by evaluation. *)
Ltac by_computation :=
  vm_compute; first [reflexivity | discriminate | intro; discriminate].

(** * The recognizer *)

Lemma token_type_eqb_true (a b : token_type_t) :
  token_type_eqb a b = true <-> a = b.
Proof.
  unfold token_type_eqb.
  rewrite Z.eqb_eq.
  split; [| intros ->; reflexivity].
  destruct a, b; cbn; intro H; try reflexivity; discriminate H.
Qed.

Lemma token_type_eqb_false (a b : token_type_t) :
  token_type_eqb a b = false <-> a <> b.
Proof.
  rewrite <- token_type_eqb_true.
  destruct (token_type_eqb a b); split; congruence.
Qed.

Lemma MATCHING_TOKEN_any mem tokens n type :
  MATCHING_TOKEN mem tokens n type "" = true <-> is_type tokens n type.
Proof.
  unfold MATCHING_TOKEN, is_type. cbn [String.eqb orb].
  rewrite andb_true_r.
  apply token_type_eqb_true.
Qed.

Lemma MATCHING_TOKEN_text mem tokens n type c :
  MATCHING_TOKEN mem tokens n type (String c EmptyString) = true
  <-> is_type tokens n type
      /\ token_text mem tokens n = String c EmptyString.
Proof.
  unfold MATCHING_TOKEN, is_type, token_text.
  change (String.eqb (String c EmptyString) EmptyString) with false.
  rewrite orb_false_l, andb_true_iff, token_type_eqb_true, String.eqb_eq.
  intuition congruence.
Qed.

Lemma MATCHING_TOKEN_type mem tokens n type val :
  MATCHING_TOKEN mem tokens n type val = true -> is_type tokens n type.
Proof.
  unfold MATCHING_TOKEN, is_type.
  rewrite andb_true_iff, token_type_eqb_true.
  tauto.
Qed.

Lemma MATCHING_TOKEN_other mem tokens n type type' val :
  is_type tokens n type' -> type' <> type ->
  MATCHING_TOKEN mem tokens n type val = false.
Proof.
  unfold MATCHING_TOKEN, is_type.
  intros -> Hne.
  apply token_type_eqb_false in Hne.
  rewrite Hne. reflexivity.
Qed.

Lemma MATCHING_TOKEN_keyword mem tokens n type val :
  token_text mem tokens n <> val -> val <> EmptyString ->
  MATCHING_TOKEN mem tokens n type val = false.
Proof.
  unfold MATCHING_TOKEN, token_text.
  intros Hne Hval.
  apply andb_false_iff. right.
  apply orb_false_iff. split; apply String.eqb_neq; congruence.
Qed.

Section Flags.

Variable mem : list ascii.
Variable tokens : list token_t.

Lemma scan_token_assign (i : Z) (f : flags_t) :
  (is_type tokens i TOKEN_ASSIGN
   /\ has_assign (scan_token mem tokens i f) = 1 + i)
  \/ (~ is_type tokens i TOKEN_ASSIGN
      /\ has_assign (scan_token mem tokens i f) = has_assign f).
Proof.
  unfold scan_token.
  destruct (MATCHING_TOKEN mem tokens i TOKEN_BLOCK "(") eqn:Hp;
    [right | destruct (MATCHING_TOKEN mem tokens i TOKEN_BLOCK "{") eqn:Hc;
      [right | destruct (MATCHING_TOKEN mem tokens i TOKEN_BLOCK "[") eqn:Hb;
        [right |]]].
  1-3: split; [| reflexivity];
    match goal with
    | H : MATCHING_TOKEN _ _ _ _ _ = true |- _ =>
        apply MATCHING_TOKEN_type in H; unfold is_type in *; congruence
    end.
  destruct (MATCHING_TOKEN mem tokens i TOKEN_ASSIGN "") eqn:Ha.
  - left. split; [exact (proj1 (MATCHING_TOKEN_any _ _ _ _) Ha) | reflexivity].
  - right. split; [| reflexivity].
    intro Hty. apply (MATCHING_TOKEN_any mem) in Hty. congruence.
Qed.

(** The flag [has_assign] ends up as 1 + the index of the last Assign
    token the loop has passed, and keeps its value when there is none. *)
Lemma scan_flags_assign (k : nat) : forall (i : Z) (f : flags_t),
  (has_assign (scan_flags mem tokens k i f) = has_assign f
   /\ forall j, i <= j < i + Z.of_nat k -> ~ is_type tokens j TOKEN_ASSIGN)
  \/ (exists j, i <= j < i + Z.of_nat k
        /\ is_type tokens j TOKEN_ASSIGN
        /\ has_assign (scan_flags mem tokens k i f) = 1 + j
        /\ forall j', j < j' < i + Z.of_nat k ->
                      ~ is_type tokens j' TOKEN_ASSIGN).
Proof.
  induction k as [| k IH]; intros i f.
  - left. split; [reflexivity | intros j Hj; lia].
  - cbn [scan_flags].
    destruct (IH (i + 1) (scan_token mem tokens i f))
      as [[Heq Hnone] | (j & Hj & Hty & Heq & Hlast)].
    + destruct (scan_token_assign i f) as [[Hty Hi] | [Hty Hi]].
      * right. exists i. repeat split; try lia; try assumption.
        intros j' Hj'. apply Hnone. lia.
      * left. split; [congruence |].
        intros j Hj.
        destruct (Z.eq_dec j i) as [-> | Hne]; [assumption |].
        apply Hnone. lia.
    + right. exists j. repeat split; try lia; try assumption.
      intros j' Hj'. apply Hlast. lia.
Qed.

Lemma scan_token_paren (i : Z) (f : flags_t) :
  has_paren (scan_token mem tokens i f) =
  if MATCHING_TOKEN mem tokens i TOKEN_BLOCK "(" then 1 else has_paren f.
Proof.
  unfold scan_token.
  repeat match goal with
         | |- context [if ?b then _ else _] => destruct b
         end; reflexivity.
Qed.

Lemma scan_token_curly (i : Z) (f : flags_t) :
  MATCHING_TOKEN mem tokens i TOKEN_BLOCK "{" = false ->
  has_curly (scan_token mem tokens i f) = has_curly f.
Proof.
  unfold scan_token. intros ->.
  repeat match goal with
         | |- context [if ?b then _ else _] => destruct b
         end; reflexivity.
Qed.

(** [has_paren] stays 0 exactly when the loop passes no "(" block. *)
Lemma scan_flags_paren (k : nat) : forall (i : Z) (f : flags_t),
  has_paren (scan_flags mem tokens k i f) = 0
  <-> has_paren f = 0
      /\ forall j, i <= j < i + Z.of_nat k ->
                   MATCHING_TOKEN mem tokens j TOKEN_BLOCK "(" = false.
Proof.
  induction k as [| k IH]; intros i f.
  - cbn [scan_flags]. split; [intros H; split; [exact H | intros; lia] | tauto].
  - cbn [scan_flags]. rewrite IH, scan_token_paren.
    destruct (MATCHING_TOKEN mem tokens i TOKEN_BLOCK "(") eqn:Hp.
    + split; [intros [H _]; discriminate H |].
      intros [_ H]. rewrite H in Hp by lia. discriminate Hp.
    + split; intros [H0 H]; (split; [exact H0 |]); intros j Hj.
      * destruct (Z.eq_dec j i) as [-> | Hne]; [exact Hp | apply H; lia].
      * apply H; lia.
Qed.

Lemma scan_flags_curly (k : nat) : forall (i : Z) (f : flags_t),
  has_curly f = 0 ->
  (forall j, i <= j < i + Z.of_nat k ->
             MATCHING_TOKEN mem tokens j TOKEN_BLOCK "{" = false) ->
  has_curly (scan_flags mem tokens k i f) = 0.
Proof.
  induction k as [| k IH]; intros i f H0 H.
  - exact H0.
  - cbn [scan_flags]. apply IH.
    + rewrite scan_token_curly; [exact H0 | apply H; lia].
    + intros j Hj. apply H. lia.
Qed.

End Flags.

Section Recognizer.

Variable mem : list ascii.
Variable tokens : list token_t.
Variable ntoken : Z.

Lemma starts_declaration_passes :
  starts_declaration mem tokens ->
  negb (token_type_eqb (tk_type (array_get tokens 0)) TOKEN_WORD) = false
  /\ (MATCHING_TOKEN mem tokens 0 TOKEN_WORD "typedef"
      || MATCHING_TOKEN mem tokens 0 TOKEN_WORD "static")%bool = false.
Proof.
  intros (Hw & Ht & Hs). split.
  - apply token_type_eqb_true in Hw. rewrite Hw. reflexivity.
  - rewrite !MATCHING_TOKEN_keyword by (assumption || discriminate).
    reflexivity.
Qed.

(** The test of the prototype rule, as a proposition. *)
Lemma prototype_test :
  ((2 <? ntoken - 1)
   && (MATCHING_TOKEN mem tokens (ntoken - 1) TOKEN_SEMICOLON ""
       && MATCHING_TOKEN mem tokens (ntoken - 1 - 1) TOKEN_BLOCK "("
       && MATCHING_TOKEN mem tokens (ntoken - 1 - 2) TOKEN_WORD ""))%bool
  = true
  <-> prototype_tail mem tokens ntoken.
Proof.
  unfold prototype_tail, prototype_shape, is_block.
  replace (ntoken - 1 - 1) with (ntoken - 2) by lia.
  replace (ntoken - 1 - 2) with (ntoken - 3) by lia.
  rewrite !andb_true_iff, Z.ltb_lt, !MATCHING_TOKEN_any,
    MATCHING_TOKEN_text.
  intuition lia.
Qed.

(** What the flag loop leaves in [has_assign]. *)
Lemma has_assign_spec :
  (has_assign (unit_flags mem tokens ntoken) = 0
   /\ forall j, 0 <= j < ntoken -> ~ is_type tokens j TOKEN_ASSIGN)
  \/ (exists j, last_assign tokens ntoken j
        /\ has_assign (unit_flags mem tokens ntoken) = 1 + j).
Proof.
  destruct (scan_flags_assign mem tokens (Z.to_nat ntoken) 0
                              (mk_flags 0 0 0 0))
    as [[Heq Hnone] | (j & Hj & Hty & Heq & Hlast)].
  - left. split; [exact Heq |].
    intros j Hj. apply Hnone. lia.
  - right. exists j. split; [| exact Heq].
    repeat split; try lia; try assumption.
    intros j' Hj'. apply Hlast. lia.
Qed.

Lemma last_assign_unique (j j' : Z) :
  last_assign tokens ntoken j -> last_assign tokens ntoken j' -> j = j'.
Proof.
  intros (Hj & Hty & Hlast) (Hj' & Hty' & Hlast').
  destruct (Z.lt_trichotomy j j') as [Hlt | [Heq | Hgt]];
    [exfalso | exact Heq | exfalso].
  - apply (Hlast j'); [lia | exact Hty'].
  - apply (Hlast' j); [lia | exact Hty].
Qed.

(** The tests of the assignment rule, as a proposition. *)
Lemma assignment_test :
  2 < ntoken ->
  let assigned :=
    ((1 <? ntoken - 1)
     && negb (has_assign (unit_flags mem tokens ntoken) =? 0))%bool in
  let i := has_assign (unit_flags mem tokens ntoken) - 1 in
  ((assigned
    && ((0 <? i) && MATCHING_TOKEN mem tokens (i - 1) TOKEN_WORD ""))
   || (assigned
       && ((1 <? i)
           && MATCHING_TOKEN mem tokens (i - 1) TOKEN_BLOCK "["
           && MATCHING_TOKEN mem tokens (i - 2) TOKEN_WORD "")))%bool = true
  <-> assign_rule_applies mem tokens ntoken.
Proof.
  intros Hn assigned i. subst assigned i.
  unfold assign_rule_applies, is_block.
  rewrite orb_true_iff, !andb_true_iff, negb_true_iff, !Z.ltb_lt,
    Z.eqb_neq, !MATCHING_TOKEN_any, MATCHING_TOKEN_text.
  destruct has_assign_spec as [[H0 Hnone] | (j & Hlast & Hj)].
  - split; [intros [H | H]; exfalso; tauto |].
    intros (j & (Hj & Hty & _) & _). exfalso. exact (Hnone j Hj Hty).
  - rewrite Hj. replace (1 + j - 1) with j by lia.
    split.
    + intros H. exists j. split; [exact Hlast |]. tauto.
    + intros (j' & Hlast' & H).
      rewrite (last_assign_unique j j' Hlast Hlast').
      destruct Hlast' as (Hr & _). intuition lia.
Qed.

(** The test of the plain-variable rule, as a proposition. *)
Lemma plain_test :
  ((1 <? ntoken - 1)
   && (has_paren (unit_flags mem tokens ntoken) =? 0)
   && (has_curly (unit_flags mem tokens ntoken) =? 0)
   && (MATCHING_TOKEN mem tokens (ntoken - 1) TOKEN_SEMICOLON ""
       && MATCHING_TOKEN mem tokens (ntoken - 1 - 1) TOKEN_WORD ""))%bool
  = true ->
  2 < ntoken
  /\ is_type tokens (ntoken - 2) TOKEN_WORD
  /\ is_type tokens (ntoken - 1) TOKEN_SEMICOLON.
Proof.
  replace (ntoken - 1 - 1) with (ntoken - 2) by lia.
  rewrite !andb_true_iff, Z.ltb_lt, !MATCHING_TOKEN_any.
  intuition lia.
Qed.

(** The function as a chain of its four tests. *)
Lemma symbol_from_tokens_unfold :
  symbol_from_tokens mem tokens ntoken =
  let f := unit_flags mem tokens ntoken in
  let last := ntoken - 1 in
  let value n := tk_value (array_get tokens n) in
  let M := MATCHING_TOKEN mem tokens in
  if negb (token_type_eqb (tk_type (array_get tokens 0)) TOKEN_WORD)
  then NULL
  else if (M 0 TOKEN_WORD "typedef" || M 0 TOKEN_WORD "static")%bool
  then NULL
  else if ((2 <? last)
           && (M last TOKEN_SEMICOLON ""
               && M (last - 1) TOKEN_BLOCK "("
               && M (last - 2) TOKEN_WORD ""))%bool
  then value (last - 2)
  else
    let assigned := ((1 <? last) && negb (has_assign f =? 0))%bool in
    let i := has_assign f - 1 in
    if (assigned && ((0 <? i) && M (i - 1) TOKEN_WORD ""))%bool
    then value (i - 1)
    else if (assigned
             && ((1 <? i)
                 && M (i - 1) TOKEN_BLOCK "["
                 && M (i - 2) TOKEN_WORD ""))%bool
    then value (i - 2)
    else if ((1 <? last)
             && (has_paren f =? 0) && (has_curly f =? 0)
             && (M last TOKEN_SEMICOLON ""
                 && M (last - 1) TOKEN_WORD ""))%bool
    then value (last - 1)
    else NULL.
Proof. reflexivity. Qed.

End Recognizer.

(** ** The prototype rule *)

(** C1 (as amended).  For every unit whose first token is a Word other than
    [typedef] and [static] and whose last three tokens are, in order, a
    Word, a Block-Open "(" and a Semicolon: if the unit has at least 4
    tokens, [symbol_from_tokens] returns the value of that Word; if it has
    exactly those 3 tokens, it returns no symbol. *)
Theorem prototype_rule (mem : list ascii) (tokens : list token_t)
  (ntoken : Z) :
  3 <= ntoken ->
  starts_declaration mem tokens ->
  prototype_shape mem tokens ntoken ->
  symbol_from_tokens mem tokens ntoken
  = if 3 <? ntoken then tk_value (array_get tokens (ntoken - 3)) else NULL.
Proof.
  intros Hn Hstart Hshape.
  rewrite symbol_from_tokens_unfold. cbv zeta.
  destruct (starts_declaration_passes mem tokens Hstart) as [-> ->].
  destruct (3 <? ntoken) eqn:Hlt.
  - apply Z.ltb_lt in Hlt.
    rewrite (proj2 (prototype_test mem tokens ntoken) (conj Hlt Hshape)).
    f_equal. f_equal. lia.
  - apply Z.ltb_ge in Hlt.
    assert (ntoken = 3) by lia. subst ntoken.
    destruct Hshape as (Hw & Hb & Hs). cbn in Hw, Hb, Hs.
    change (2 <? 3 - 1) with false. cbn [andb].
    assert (Ha : has_assign (unit_flags mem tokens 3) = 0).
    { destruct (has_assign_spec mem tokens 3)
        as [[H0 _] | (j & (Hj & Hty & _) & _)]; [exact H0 | exfalso].
      assert (Hc : j = 0 \/ j = 1 \/ j = 2) by lia.
      destruct Hb as [Hb _]. unfold is_type in *.
      destruct Hc as [-> | [-> | ->]]; congruence. }
    assert (Hp : has_paren (unit_flags mem tokens 3) <> 0).
    { intros H0. apply scan_flags_paren in H0. destruct H0 as [_ H0].
      apply (MATCHING_TOKEN_text mem) in Hb.
      rewrite (H0 1) in Hb by (cbn; lia). discriminate Hb. }
    rewrite Ha. apply Z.eqb_neq in Hp. rewrite Hp.
    cbn [Z.eqb negb andb]. rewrite !andb_false_r. reflexivity.
Qed.

(** The first unit of [int foo(int x);] is such a unit, of 4 tokens. *)
Lemma prototype_rule_witness :
  3 <= unit_count "int foo(int x);"
  /\ starts_declaration (unit_mem "int foo(int x);")
                        (unit_tokens "int foo(int x);")
  /\ prototype_shape (unit_mem "int foo(int x);")
                     (unit_tokens "int foo(int x);")
                     (unit_count "int foo(int x);")
  /\ symbol_from_tokens (unit_mem "int foo(int x);")
                        (unit_tokens "int foo(int x);")
                        (unit_count "int foo(int x);")
     = tk_value (array_get (unit_tokens "int foo(int x);") (4 - 3)).
Proof.
  assert (Hn : 3 <= unit_count "int foo(int x);") by by_computation.
  assert (Hs : starts_declaration (unit_mem "int foo(int x);")
                                  (unit_tokens "int foo(int x);")).
  { split; [| split]; by_computation. }
  assert (Ht : prototype_shape (unit_mem "int foo(int x);")
                               (unit_tokens "int foo(int x);")
                               (unit_count "int foo(int x);")).
  { split; [| split; [split |]]; by_computation. }
  exact (conj Hn (conj Hs (conj Ht (prototype_rule _ _ _ Hn Hs Ht)))).
Defined.

(** The call-like unit [foo ( ;] that [collect_tokens] makes of [foo();]
    has the tail of a prototype and a Word other than [typedef]/[static] in
    front, and yet no symbol is found in it: the scan of that text leaves the
    table empty. *)
Lemma three_token_prototype_has_no_symbol :
  recognize "foo();"
  = ([(TOKEN_WORD, "foo"); (TOKEN_BLOCK, "("); (TOKEN_SEMICOLON, ";")], None)
  /\ extract_symbols 100 "foo();" symtab_init None "" = Some ([], "")
  /\ 3 <= unit_count "foo();"
  /\ starts_declaration (unit_mem "foo();") (unit_tokens "foo();")
  /\ is_type (unit_tokens "foo();") (unit_count "foo();" - 3) TOKEN_WORD
  /\ is_block (unit_mem "foo();") (unit_tokens "foo();")
              (unit_count "foo();" - 2) "("
  /\ is_type (unit_tokens "foo();") (unit_count "foo();" - 1)
             TOKEN_SEMICOLON
  /\ symbol_from_tokens (unit_mem "foo();") (unit_tokens "foo();")
                        (unit_count "foo();")
     <> tk_value (array_get (unit_tokens "foo();")
                            (unit_count "foo();" - 3)).
Proof.
  unfold starts_declaration, is_block.
  repeat match goal with |- _ /\ _ => split end; by_computation.
Qed.

(** ** The assignment rule *)

(** C2 (as amended).  The assignment rule uses the index of the LAST Assign
    token of the unit: for every unit with more than 2 tokens whose first
    token is a Word other than [typedef] and [static] and which the
    prototype rule does not match, if the token immediately before the last
    Assign token is a Word, [symbol_from_tokens] returns the value of that
    Word. *)
Theorem assignment_rule_uses_last_assign (mem : list ascii)
  (tokens : list token_t) (ntoken j : Z) :
  2 < ntoken ->
  starts_declaration mem tokens ->
  ~ prototype_tail mem tokens ntoken ->
  last_assign tokens ntoken j ->
  is_type tokens (j - 1) TOKEN_WORD ->
  symbol_from_tokens mem tokens ntoken = tk_value (array_get tokens (j - 1)).
Proof.
  intros Hn Hstart Hproto Hlast Hword.
  assert (Hj : 0 < j).
  { destruct Hlast as (Hr & Hty & _), Hstart as (Hw & _).
    destruct (Z.eq_dec j 0) as [-> | Hne]; [| lia].
    unfold is_type in *. congruence. }
  rewrite symbol_from_tokens_unfold. cbv zeta.
  destruct (starts_declaration_passes mem tokens Hstart) as [-> ->].
  rewrite <- prototype_test in Hproto.
  apply not_true_is_false in Hproto. rewrite Hproto.
  destruct (has_assign_spec mem tokens ntoken)
    as [[_ Hnone] | (j' & Hlast' & Heq)].
  - exfalso. destruct Hlast as (Hr & Hty & _). exact (Hnone j Hr Hty).
  - rewrite (last_assign_unique tokens ntoken j' j Hlast' Hlast) in Heq.
    rewrite Heq. replace (1 + j - 1) with j by lia.
    apply (MATCHING_TOKEN_any mem) in Hword. rewrite Hword.
    replace (1 <? ntoken - 1) with true by (symmetry; apply Z.ltb_lt; lia).
    replace (1 + j =? 0) with false by (symmetry; apply Z.eqb_neq; lia).
    replace (0 <? j) with true by (symmetry; apply Z.ltb_lt; lia).
    reflexivity.
Qed.

(** In the first unit of [int a = b = c;] the last Assign token is token 4,
    and the rule returns token 3. *)
Lemma assignment_rule_uses_last_assign_witness :
  2 < unit_count "int a = b = c;"
  /\ last_assign (unit_tokens "int a = b = c;")
                 (unit_count "int a = b = c;") 4
  /\ symbol_from_tokens (unit_mem "int a = b = c;")
                        (unit_tokens "int a = b = c;")
                        (unit_count "int a = b = c;")
     = tk_value (array_get (unit_tokens "int a = b = c;") (4 - 1)).
Proof.
  assert (Hl : last_assign (unit_tokens "int a = b = c;")
                           (unit_count "int a = b = c;") 4).
  { split; [vm_compute; split; [discriminate | reflexivity] |].
    split; [vm_compute; reflexivity |].
    change (unit_count "int a = b = c;") with 7.
    intros j' Hj'.
    assert (Hc : j' = 5 \/ j' = 6) by lia.
    destruct Hc as [-> | ->]; vm_compute; discriminate. }
  split; [vm_compute; reflexivity |].
  split; [exact Hl |].
  apply assignment_rule_uses_last_assign.
  - vm_compute; reflexivity.
  - split; [| split]; vm_compute; [reflexivity | discriminate ..].
  - intros (_ & _ & (Hb & _) & _). vm_compute in Hb. discriminate Hb.
  - exact Hl.
  - vm_compute. reflexivity.
Defined.

(** The first Assign token is not the one used: of [int a = b = c;] the
    recognizer makes [b], the Word before the second Assign token.  Nor does
    "more than 1 token" suffice (the two tokens of [a =] give nothing), and
    the prototype rule comes first ([int a = f();] gives [f]). *)
Lemma first_assign_is_not_used :
  recognize "int a = b = c;"
  = ([(TOKEN_WORD, "int"); (TOKEN_WORD, "a"); (TOKEN_ASSIGN, "=");
      (TOKEN_WORD, "b"); (TOKEN_ASSIGN, "="); (TOKEN_WORD, "c");
      (TOKEN_SEMICOLON, ";")], Some "b")
  /\ extract_symbols 100 "int a = b = c;" symtab_init None ""
     = Some (["b"], "")
  /\ 1 < unit_count "int a = b = c;"
  /\ starts_declaration (unit_mem "int a = b = c;")
                        (unit_tokens "int a = b = c;")
  /\ ~ is_type (unit_tokens "int a = b = c;") 0 TOKEN_ASSIGN
  /\ ~ is_type (unit_tokens "int a = b = c;") 1 TOKEN_ASSIGN
  /\ is_type (unit_tokens "int a = b = c;") 2 TOKEN_ASSIGN
  /\ is_type (unit_tokens "int a = b = c;") (2 - 1) TOKEN_WORD
  /\ symbol_from_tokens (unit_mem "int a = b = c;")
                        (unit_tokens "int a = b = c;")
                        (unit_count "int a = b = c;")
     <> tk_value (array_get (unit_tokens "int a = b = c;") (2 - 1))
  /\ recognize "a =" = ([(TOKEN_WORD, "a"); (TOKEN_ASSIGN, "=")], None)
  /\ recognize "int a = f();"
     = ([(TOKEN_WORD, "int"); (TOKEN_WORD, "a"); (TOKEN_ASSIGN, "=");
         (TOKEN_WORD, "f"); (TOKEN_BLOCK, "("); (TOKEN_SEMICOLON, ";")],
        Some "f").
Proof.
  unfold starts_declaration.
  repeat match goal with |- _ /\ _ => split end; by_computation.
Qed.

(** ** The plain-variable rule *)

(** C4 (as amended).  For every unit with more than 1 token whose first
    token is a Word other than [typedef] and [static], that contains no "("
    and no "{" Block-Open token, to which the assignment rule does not apply
    and whose last two tokens are a Word followed by a Semicolon: if the
    unit has more than 2 tokens, [symbol_from_tokens] returns the value of
    that Word; if it has exactly those 2 tokens, it returns no symbol. *)
Theorem plain_variable_rule (mem : list ascii) (tokens : list token_t)
  (ntoken : Z) :
  1 < ntoken ->
  starts_declaration mem tokens ->
  (forall j, 0 <= j < ntoken -> ~ is_block mem tokens j "(") ->
  (forall j, 0 <= j < ntoken -> ~ is_block mem tokens j "{") ->
  ~ assign_rule_applies mem tokens ntoken ->
  is_type tokens (ntoken - 2) TOKEN_WORD ->
  is_type tokens (ntoken - 1) TOKEN_SEMICOLON ->
  symbol_from_tokens mem tokens ntoken
  = if 2 <? ntoken then tk_value (array_get tokens (ntoken - 2)) else NULL.
Proof.
  intros Hn Hstart Hparen Hcurly Hassign Hword Hsemi.
  assert (Hp : forall j, 0 <= j < ntoken ->
                 MATCHING_TOKEN mem tokens j TOKEN_BLOCK "(" = false).
  { intros j Hj. apply not_true_is_false. intro H.
    apply MATCHING_TOKEN_text in H. exact (Hparen j Hj H). }
  assert (Hc : forall j, 0 <= j < ntoken ->
                 MATCHING_TOKEN mem tokens j TOKEN_BLOCK "{" = false).
  { intros j Hj. apply not_true_is_false. intro H.
    apply MATCHING_TOKEN_text in H. exact (Hcurly j Hj H). }
  rewrite symbol_from_tokens_unfold. cbv zeta.
  destruct (starts_declaration_passes mem tokens Hstart) as [-> ->].
  destruct (2 <? ntoken) eqn:Hlt.
  - apply Z.ltb_lt in Hlt.
    replace (ntoken - 1 - 1) with (ntoken - 2) by lia.
    rewrite (Hp (ntoken - 2)) by lia.
    rewrite andb_false_r, andb_false_r.
    rewrite <- (assignment_test mem tokens ntoken Hlt) in Hassign.
    cbv zeta in Hassign.
    apply not_true_is_false, orb_false_iff in Hassign.
    destruct Hassign as [-> ->].
    assert (Hfp : has_paren (unit_flags mem tokens ntoken) = 0).
    { apply scan_flags_paren. split; [reflexivity |].
      intros j Hj. apply Hp. lia. }
    assert (Hfc : has_curly (unit_flags mem tokens ntoken) = 0).
    { apply scan_flags_curly; [reflexivity |].
      intros j Hj. apply Hc. lia. }
    rewrite Hfp, Hfc.
    apply (MATCHING_TOKEN_any mem) in Hword, Hsemi.
    rewrite Hword, Hsemi.
    replace (1 <? ntoken - 1) with true by (symmetry; apply Z.ltb_lt; lia).
    reflexivity.
  - apply Z.ltb_ge in Hlt.
    replace (2 <? ntoken - 1) with false by (symmetry; apply Z.ltb_ge; lia).
    replace (1 <? ntoken - 1) with false by (symmetry; apply Z.ltb_ge; lia).
    reflexivity.
Qed.

(** The first unit of [extern int x;] is such a unit, of 4 tokens. *)
Lemma plain_variable_rule_witness :
  1 < unit_count "extern int x;"
  /\ symbol_from_tokens (unit_mem "extern int x;")
                        (unit_tokens "extern int x;")
                        (unit_count "extern int x;")
     = tk_value (array_get (unit_tokens "extern int x;") (4 - 2)).
Proof.
  split; [vm_compute; reflexivity |].
  change (tk_value (array_get (unit_tokens "extern int x;") (4 - 2)))
    with (if 2 <? unit_count "extern int x;"
          then tk_value (array_get (unit_tokens "extern int x;")
                                   (unit_count "extern int x;" - 2))
          else NULL).
  apply plain_variable_rule.
  - vm_compute; reflexivity.
  - split; [| split]; vm_compute; [reflexivity | discriminate ..].
  - change (unit_count "extern int x;") with 4. intros j Hj [Hb _].
    assert (Hc : j = 0 \/ j = 1 \/ j = 2 \/ j = 3) by lia.
    destruct Hc as [-> | [-> | [-> | ->]]]; vm_compute in Hb; discriminate Hb.
  - change (unit_count "extern int x;") with 4. intros j Hj [Hb _].
    assert (Hc : j = 0 \/ j = 1 \/ j = 2 \/ j = 3) by lia.
    destruct Hc as [-> | [-> | [-> | ->]]]; vm_compute in Hb; discriminate Hb.
  - change (unit_count "extern int x;") with 4.
    intros (j & (Hj & Hb & _) & _).
    assert (Hc : j = 0 \/ j = 1 \/ j = 2 \/ j = 3) by lia.
    destruct Hc as [-> | [-> | [-> | ->]]]; vm_compute in Hb; discriminate Hb.
  - vm_compute; reflexivity.
  - vm_compute; reflexivity.
Defined.

(** The unit [x ;] that [collect_tokens] makes of [x;] has more than 1
    token, a Word other than [typedef]/[static] in front, no block, and ends
    in a Word and a Semicolon; no symbol is found in it.  And in the unit of
    [int a = b;], which ends in the Word [b] and a Semicolon, the assignment
    rule comes first and finds [a]. *)
Lemma two_token_variable_has_no_symbol :
  recognize "x;" = ([(TOKEN_WORD, "x"); (TOKEN_SEMICOLON, ";")], None)
  /\ extract_symbols 100 "x;" symtab_init None "" = Some ([], "")
  /\ 1 < unit_count "x;"
  /\ starts_declaration (unit_mem "x;") (unit_tokens "x;")
  /\ is_type (unit_tokens "x;") (unit_count "x;" - 2) TOKEN_WORD
  /\ is_type (unit_tokens "x;") (unit_count "x;" - 1) TOKEN_SEMICOLON
  /\ symbol_from_tokens (unit_mem "x;") (unit_tokens "x;") (unit_count "x;")
     <> tk_value (array_get (unit_tokens "x;") (unit_count "x;" - 2))
  /\ recognize "int a = b;"
     = ([(TOKEN_WORD, "int"); (TOKEN_WORD, "a"); (TOKEN_ASSIGN, "=");
         (TOKEN_WORD, "b"); (TOKEN_SEMICOLON, ";")], Some "a").
Proof.
  unfold starts_declaration.
  repeat match goal with |- _ /\ _ => split end; by_computation.
Qed.

(** ** The origin of a symbol *)

(** Every result of [symbol_from_tokens] that is not [NULL] is the value
    pointer of a Word token of the unit. *)
Lemma symbol_is_the_value_of_a_word (mem : list ascii)
  (tokens : list token_t) (ntoken : Z) :
  symbol_from_tokens mem tokens ntoken = NULL
  \/ exists j, 0 <= j < ntoken
       /\ is_type tokens j TOKEN_WORD
       /\ symbol_from_tokens mem tokens ntoken = tk_value (array_get tokens j).
Proof.
  rewrite symbol_from_tokens_unfold. cbv zeta.
  destruct (negb _); [left; reflexivity |].
  destruct (_ || _)%bool; [left; reflexivity |].
  match goal with
  | |- context [if ?b then _ else _] => destruct b eqn:Hproto
  end.
  { right. exists (ntoken - 1 - 2).
    apply andb_true_iff in Hproto. destruct Hproto as [Hlt Hm].
    apply Z.ltb_lt in Hlt.
    apply andb_true_iff in Hm. destruct Hm as [_ Hw].
    apply MATCHING_TOKEN_any in Hw.
    split; [lia | split; [exact Hw | reflexivity]]. }
  destruct (has_assign_spec mem tokens ntoken)
    as [[H0 _] | (j & (Hj & _) & Heq)].
  - rewrite H0. cbn [Z.eqb negb]. rewrite !andb_false_r. cbn [andb].
    match goal with
    | |- context [if ?b then _ else _] => destruct b eqn:Hplain
    end; [| left; reflexivity].
    apply plain_test in Hplain. destruct Hplain as (Hlt & Hw & _).
    right. exists (ntoken - 1 - 1).
    replace (ntoken - 1 - 1) with (ntoken - 2) by lia.
    split; [lia | split; [exact Hw | reflexivity]].
  - rewrite Heq. replace (1 + j - 1) with j by lia.
    match goal with
    | |- context [if ?b then _ else _] => destruct b eqn:Hfirst
    end.
    { right. exists (j - 1).
      rewrite !andb_true_iff in Hfirst.
      destruct Hfirst as (_ & Hlt & Hw).
      apply Z.ltb_lt in Hlt. apply MATCHING_TOKEN_any in Hw.
      split; [lia | split; [exact Hw | reflexivity]]. }
    match goal with
    | |- context [if ?b then _ else _] => destruct b eqn:Hsecond
    end.
    { right. exists (j - 2).
      rewrite !andb_true_iff in Hsecond.
      destruct Hsecond as (_ & (Hlt & _) & Hw).
      apply Z.ltb_lt in Hlt. apply MATCHING_TOKEN_any in Hw.
      split; [lia | split; [exact Hw | reflexivity]]. }
    match goal with
    | |- context [if ?b then _ else _] => destruct b eqn:Hplain
    end; [| left; reflexivity].
    apply plain_test in Hplain. destruct Hplain as (Hlt & Hw & _).
    right. exists (ntoken - 1 - 1).
    replace (ntoken - 1 - 1) with (ntoken - 2) by lia.
    split; [lia | split; [exact Hw | reflexivity]].
Qed.

(** C10.  The recognizer returns the value of a Word token, but the text
    behind it need not be that Word's any more.  The tokens of
    [crowded_unit 25] before the [;] fill the ring buffer up to offset
    16382; [ringbuf_save] stores the [;] at offset 0, over the text of the
    first token, the Word [x].  The unit of 36 tokens then reads
    [; = a...a ... b...b ;], its first and its last token have the same
    value, the assignment rule returns that value, and the scan collects
    the symbol [;]: the text of the Semicolon token and of no word of the
    input.  With one [b] less the [;] still fits and the symbol is [x]. *)
Theorem wrapped_unit_yields_a_semicolon :
  (let '(mem, tokens, n) := unit_of_text (crowded_unit 25) in
   (unit_view mem tokens n,
    array_get tokens 0, array_get tokens (n - 1),
    symbol_from_tokens mem tokens n,
    cstr mem (symbol_from_tokens mem tokens n)))
  = (([(TOKEN_WORD, ";"); (TOKEN_ASSIGN, "=")]
      ++ repeat (TOKEN_WORD, long_word "a" 510) 32
      ++ [(TOKEN_WORD, long_word "b" 25); (TOKEN_SEMICOLON, ";")])%list,
     mk_token TOKEN_WORD (Arena 0), mk_token TOKEN_SEMICOLON (Arena 0),
     Arena 0, ";")
  /\ extract_symbols 1000 (crowded_unit 25) symtab_init None ""
     = Some ([";"], "")
  /\ extract_symbols 1000 (crowded_unit 24) symtab_init None ""
     = Some (["x"], "").
Proof.
  split; [vm_compute; reflexivity |].
  split; vm_compute; reflexivity.
Qed.

(** * The symbol table *)

Lemma symtab_has_In (st : symtab_t) (sym : string) :
  symtab_has st sym = true <-> In sym st.
Proof.
  induction st as [| s st IH]; cbn.
  - split; [discriminate | tauto].
  - destruct (String.eqb_spec s sym) as [-> | Hne].
    + tauto.
    + rewrite IH. split; [tauto |]. intros [H | H]; [congruence | exact H].
Qed.

Lemma symtab_has_app (st st' : symtab_t) (sym : string) :
  symtab_has (st ++ st') sym = (symtab_has st sym || symtab_has st' sym)%bool.
Proof.
  induction st as [| s st IH]; cbn; [reflexivity |].
  destruct (String.eqb s sym); [reflexivity | exact IH].
Qed.

Lemma symtab_add_present (st : symtab_t) (sym : string) :
  In sym st -> symtab_add st sym = st.
Proof.
  intros H. unfold symtab_add.
  apply symtab_has_In in H. rewrite H. reflexivity.
Qed.

Lemma symtab_add_absent (st : symtab_t) (sym : string) :
  ~ In sym st -> symtab_add st sym = (st ++ [sym])%list.
Proof.
  intros H. unfold symtab_add.
  destruct (symtab_has st sym) eqn:E; [| reflexivity].
  apply symtab_has_In in E. contradiction.
Qed.

Lemma symtab_add_NoDup (st : symtab_t) (sym : string) :
  NoDup st -> NoDup (symtab_add st sym).
Proof.
  intros H. unfold symtab_add.
  destruct (symtab_has st sym) eqn:E; [exact H |].
  apply NoDup_app; [exact H | repeat constructor; intros [] |].
  intros a Ha [<- | []].
  apply symtab_has_In in Ha. congruence.
Qed.

Lemma symtab_add_all_NoDup (names : list string) : forall st : symtab_t,
  NoDup st -> NoDup (symtab_add_all st names).
Proof.
  induction names as [| s names IH]; intros st H; cbn.
  - exact H.
  - apply IH, symtab_add_NoDup, H.
Qed.

(** A table is a prefix of every table that grows out of it. *)
Lemma symtab_add_prefix (st : symtab_t) (sym : string) :
  exists more, symtab_add st sym = (st ++ more)%list.
Proof.
  unfold symtab_add. destruct (symtab_has st sym).
  - exists []. symmetry. apply app_nil_r.
  - exists [sym]. reflexivity.
Qed.

Lemma filter_absent_twice (st : symtab_t) (s : string) (l : list string) :
  filter (fun x => negb (symtab_has (st ++ [s]) x)) l
  = filter (fun x => negb (symtab_has st x))
           (filter (fun x => negb (String.eqb s x)) l).
Proof.
  induction l as [| x l IH]; cbn; [reflexivity |].
  rewrite symtab_has_app. cbn.
  destruct (String.eqb s x); cbn.
  - rewrite orb_true_r. cbn. exact IH.
  - rewrite orb_false_r.
    destruct (symtab_has st x); cbn; congruence.
Qed.

Lemma filter_present (st : symtab_t) (s : string) (l : list string) :
  symtab_has st s = true ->
  filter (fun x => negb (symtab_has st x))
         (filter (fun x => negb (String.eqb s x)) l)
  = filter (fun x => negb (symtab_has st x)) l.
Proof.
  intros Hs. induction l as [| x l IH]; cbn; [reflexivity |].
  destruct (String.eqb_spec s x) as [<- | Hne]; cbn.
  - rewrite Hs. cbn. exact IH.
  - destruct (symtab_has st x); cbn; congruence.
Qed.

(** The calls append, in the order of their first occurrence, the names
    that the table does not hold. *)
Lemma symtab_add_all_spec (names : list string) : forall st : symtab_t,
  symtab_add_all st names
  = (st ++ filter (fun x => negb (symtab_has st x))
                  (first_occurrences names))%list.
Proof.
  induction names as [| s names IH]; intros st; cbn.
  - symmetry. apply app_nil_r.
  - unfold symtab_add_all in IH. rewrite IH. unfold symtab_add.
    destruct (symtab_has st s) eqn:Hs; cbn.
    + rewrite filter_present by exact Hs. reflexivity.
    + rewrite filter_absent_twice, <- app_assoc. reflexivity.
Qed.

(** C5.  Whatever the sequence of [symtab_add] calls on the empty table, the
    table holds no two equal entries and lists the names in the order of
    their first insertion; adding a name that the table holds leaves it
    unchanged, and adding one that it does not hold appends it. *)
Theorem symtab_add_is_an_ordered_set (names : list string) (sym : string) :
  NoDup (symtab_add_all symtab_init names)
  /\ symtab_add_all symtab_init names = first_occurrences names
  /\ (In sym (symtab_add_all symtab_init names) ->
      symtab_add (symtab_add_all symtab_init names) sym
      = symtab_add_all symtab_init names)
  /\ (~ In sym (symtab_add_all symtab_init names) ->
      symtab_add (symtab_add_all symtab_init names) sym
      = (symtab_add_all symtab_init names ++ [sym])%list).
Proof.
  split; [apply symtab_add_all_NoDup; constructor |].
  split.
  - rewrite symtab_add_all_spec. cbn.
    induction (first_occurrences names) as [| x l IH]; cbn; congruence.
  - split; [apply symtab_add_present | apply symtab_add_absent].
Qed.

(** After [foo], [bar], [foo], [baz], [bar] the table is [foo], [bar],
    [baz], and adding [bar] once more changes nothing. *)
Lemma symtab_add_is_an_ordered_set_witness :
  symtab_add_all symtab_init ["foo"; "bar"; "foo"; "baz"; "bar"]
  = ["foo"; "bar"; "baz"]
  /\ symtab_add (symtab_add_all symtab_init
                                ["foo"; "bar"; "foo"; "baz"; "bar"]) "bar"
     = symtab_add_all symtab_init ["foo"; "bar"; "foo"; "baz"; "bar"].
Proof.
  split.
  - exact (proj1 (proj2 (symtab_add_is_an_ordered_set
                           ["foo"; "bar"; "foo"; "baz"; "bar"] "bar"))).
  - apply (symtab_add_is_an_ordered_set
             ["foo"; "bar"; "foo"; "baz"; "bar"] "bar").
    vm_compute. right. left. reflexivity.
Defined.

(** * The output *)

Lemma append_assoc (a b c : string) :
  ((a ++ b) ++ c)%string = (a ++ (b ++ c))%string.
Proof.
  induction a as [| x a IH]; cbn; [reflexivity | rewrite IH; reflexivity].
Qed.

Lemma append_empty_r (a : string) : (a ++ "")%string = a.
Proof.
  induction a as [| x a IH]; cbn; [reflexivity | rewrite IH; reflexivity].
Qed.

Lemma unlines_app (l l' : list string) :
  unlines (l ++ l') = (unlines l ++ unlines l')%string.
Proof.
  induction l as [| x l IH]; cbn; [reflexivity |].
  rewrite IH, !append_assoc. reflexivity.
Qed.

(** The loop writes one line per symbol, in table order. *)
Lemma dump_syms_lines (pre post : string) (syms : list string) :
  forall out : string,
  dump_syms pre (post ++ nl) syms out
  = (out ++ unlines (map (fun s => pre ++ s ++ post)%string syms))%string.
Proof.
  induction syms as [| s syms IH]; intros out; cbn.
  - symmetry. apply append_empty_r.
  - rewrite IH, !append_assoc. reflexivity.
Qed.

(** C6.  In version-script mode the dump is the line [{], then, only when
    the table is not empty, the line [    global:] and one line
    [        <name>;] per symbol in table order, then the lines
    [    local:], [        *;] and [};]. *)
Theorem version_script_layout (st : symtab_t) (gnuld : Z) (out : string) :
  gnuld <> 0 ->
  symtab_dump st gnuld out
  = (out ++ unlines
       (["{"]
        ++ match st with
           | [] => []
           | _ :: _ =>
               "    global:" :: map (fun s => "        " ++ s ++ ";") st
           end
        ++ ["    local:"; "        *;"; "};"]))%string.
Proof.
  intros Hg. unfold symtab_dump.
  apply Z.eqb_neq in Hg. rewrite Hg.
  destruct st as [| s st].
  - cbn. rewrite !append_assoc. reflexivity.
  - replace (0 <? Z.of_nat (List.length (s :: st))) with true
      by (symmetry; apply Z.ltb_lt; cbn [List.length]; lia).
    rewrite dump_syms_lines.
    rewrite !unlines_app. cbn [unlines map app].
    rewrite !append_assoc, !append_empty_r. reflexivity.
Qed.

(** The dump of the empty table and of the table [a], [b]. *)
Lemma version_script_layout_witness :
  1 <> 0
  /\ symtab_dump [] 1 ""
     = unlines ["{"; "    local:"; "        *;"; "};"]
  /\ symtab_dump ["a"; "b"] 1 ""
     = unlines ["{"; "    global:"; "        a;"; "        b;";
                "    local:"; "        *;"; "};"].
Proof.
  assert (H : 1 <> 0) by discriminate.
  split; [exact H |].
  split.
  - exact (version_script_layout [] 1 "" H).
  - exact (version_script_layout ["a"; "b"] 1 "" H).
Defined.

(** * The input stream *)

Lemma ch_eqb_eq (a b : ascii) : ch_eqb a b = true <-> a = b.
Proof. apply Ascii.eqb_eq. Qed.

Lemma ch_eqb_neq (a b : ascii) : ch_eqb a b = false <-> a <> b.
Proof. apply Ascii.eqb_neq. Qed.

(** A pushed-back character is the next one read, unless it is 0. *)
Lemma pushback_then_read (i : input_t) (ch : ascii) :
  in_nxt i = NUL -> ch <> NUL ->
  input_pushback i ch
  = (0, mk_input (in_fd i) (in_buf i) (in_len i) (in_rd i) ch)
  /\ input_read (snd (input_pushback i ch)) = (ch, i).
Proof.
  intros Hn Hch. unfold input_pushback. rewrite Hn.
  change (ch_eqb NUL NUL) with true. cbn [snd].
  split; [reflexivity |].
  unfold input_read. cbn [in_nxt in_fd in_buf in_len in_rd].
  apply ch_eqb_neq in Hch. rewrite Hch. cbn [negb].
  destruct i as [fd buf len rd nxt]. cbn in Hn |- *. subst nxt. reflexivity.
Qed.

(** Pushing back 0 changes no stream, pending character or not. *)
Lemma pushback_of_zero_keeps_stream (i : input_t) :
  snd (input_pushback i NUL) = i.
Proof.
  unfold input_pushback.
  destruct (ch_eqb (in_nxt i) NUL) eqn:E; [| reflexivity].
  apply ch_eqb_eq in E.
  destruct i as [fd buf len rd nxt]. cbn in E |- *. subst nxt. reflexivity.
Qed.

(** C9.  Pushing back the byte 0 stores nothing: the stream is unchanged,
    so the next [input_read] is the read of the stream as it was and not a 0
    from the pushback slot, and a later pushback fares as it would have
    without it.  On a stream with no pending character, where a pushback can
    succeed at all, the pushback of 0 reports success, the slot stays empty
    and a further pushback of any byte succeeds. *)
Theorem pushback_of_zero_stores_nothing (i : input_t) (ch : ascii) :
  snd (input_pushback i NUL) = i
  /\ input_read (snd (input_pushback i NUL)) = input_read i
  /\ input_pushback (snd (input_pushback i NUL)) ch = input_pushback i ch
  /\ (in_nxt i = NUL ->
      fst (input_pushback i NUL) = 0
      /\ in_nxt (snd (input_pushback i NUL)) = NUL
      /\ fst (input_pushback (snd (input_pushback i NUL)) ch) = 0).
Proof.
  rewrite pushback_of_zero_keeps_stream.
  split; [reflexivity |].
  split; [reflexivity |].
  split; [reflexivity |].
  intros Hn.
  split; [| split; [exact Hn |]];
    unfold input_pushback; rewrite Hn; reflexivity.
Qed.

(** On the fresh stream of [x;]: 0 is pushed back with success, the next
    read is [x], and [;] is pushed back after the 0 with success. *)
Lemma pushback_of_zero_stores_nothing_witness :
  in_nxt (input_init (list_ascii_of_string "x;")) = NUL
  /\ input_pushback (input_init (list_ascii_of_string "x;")) NUL
     = (0, input_init (list_ascii_of_string "x;"))
  /\ fst (input_read
            (snd (input_pushback (input_init (list_ascii_of_string "x;"))
                                 NUL)))
     = "x"%char
  /\ fst (input_pushback
            (snd (input_pushback (input_init (list_ascii_of_string "x;"))
                                 NUL)) ";")
     = 0.
Proof.
  assert (Hn : in_nxt (input_init (list_ascii_of_string "x;")) = NUL)
    by reflexivity.
  destruct (pushback_of_zero_stores_nothing
              (input_init (list_ascii_of_string "x;")) ";")
    as (H1 & H2 & _ & H4).
  destruct (H4 Hn) as (H5 & _ & H6).
  split; [exact Hn |].
  split.
  - rewrite (surjective_pairing (input_pushback _ NUL)), H1, H5.
    reflexivity.
  - split; [rewrite H2; reflexivity | exact H6].
Defined.

(** ** End of stream inside a block *)

Lemma input_read_at_eof (i : input_t) :
  at_eof i -> fst (input_read i) = NUL /\ at_eof (snd (input_read i)).
Proof.
  intros (Hn & Hfd & Hlen & Hrd).
  unfold input_read. rewrite Hn, Hfd.
  change (ch_eqb NUL NUL) with true. cbn [negb].
  apply Z.leb_le in Hlen. rewrite Hlen.
  cbn. split; [reflexivity |].
  unfold at_eof. cbn. auto.
Qed.

(** At the end of the stream the loop of [input_discard_block] goes round
    with its level unchanged, whatever the fuel. *)
Lemma discard_block_loop_at_eof (fuel : nat) :
  forall (i : input_t) (beg end_ : ascii) (level : Z),
  at_eof i -> beg <> NUL -> end_ <> NUL -> 0 < level ->
  discard_block_loop fuel i beg end_ level = None.
Proof.
  induction fuel as [| fuel IH]; intros i beg end_ level Heof Hb He Hl.
  - reflexivity.
  - cbn [discard_block_loop].
    apply Z.ltb_lt in Hl. rewrite Hl. apply Z.ltb_lt in Hl.
    destruct (input_read_at_eof i Heof) as [Hch Heof'].
    destruct (input_read i) as [ch i1]. cbn [fst snd] in Hch, Heof'.
    subst ch.
    change (ch_eqb NUL DQUOTE || ch_eqb NUL SQUOTE)%bool with false.
    cbv iota.
    replace (ch_eqb NUL end_) with false
      by (symmetry; apply ch_eqb_neq; congruence).
    replace (ch_eqb NUL beg) with false
      by (symmetry; apply ch_eqb_neq; congruence).
    apply IH; assumption.
Qed.

Lemma block_end_not_zero (beg end_ : ascii) :
  block_end beg = Some end_ -> beg <> NUL /\ end_ <> NUL.
Proof.
  unfold block_end.
  destruct (ch_eqb beg "{") eqn:E1;
    [| destruct (ch_eqb beg "[") eqn:E2;
       [| destruct (ch_eqb beg "(") eqn:E3; [| discriminate]]];
    intros [= <-];
    match goal with
    | H : ch_eqb beg _ = true |- _ => apply ch_eqb_eq in H; subst beg
    end; split; discriminate.
Qed.

(** C3 (what the code does).  When the end of the stream is reached while
    the nesting level of [input_discard_block] is still positive, no amount
    of fuel lets the loop, or the call, return: it neither fails nor
    succeeds. *)
Theorem discard_block_never_returns_at_eof (fuel : nat) (i : input_t)
  (beg end_ : ascii) (level : Z) :
  at_eof i ->
  block_end beg = Some end_ ->
  0 < level ->
  discard_block_loop fuel i beg end_ level = None
  /\ input_discard_block fuel i beg = None.
Proof.
  intros Heof Hend Hl.
  destruct (block_end_not_zero beg end_ Hend) as [Hb He].
  split.
  - apply discard_block_loop_at_eof; assumption.
  - unfold input_discard_block. rewrite Hend.
    apply discard_block_loop_at_eof; [assumption .. | lia].
Qed.

(** The stream [drained], the bracket [(] and the level 1 are such a case. *)
Lemma discard_block_never_returns_at_eof_witness :
  at_eof drained
  /\ input_discard_block 1000 drained "(" = None.
Proof.
  assert (H : at_eof drained).
  { split; [| split; [| split]]; vm_compute;
      [reflexivity | reflexivity | discriminate | discriminate]. }
  split; [exact H |].
  apply (discard_block_never_returns_at_eof 1000 drained "(" ")" 1 H);
    [reflexivity | lia].
Defined.

(** The same through the tokenizer: a turn of [collect_tokens] that reads an
    opening bracket with nothing after it does not come back. *)
Lemma collect_tokens_body_unclosed (fuel : nat) (s : ct_state)
  (ch : ascii) (i1 : input_t) :
  input_read (ct_in s) = (ch, i1) ->
  is_open ch = true ->
  at_eof i1 ->
  collect_tokens_body fuel s = None.
Proof.
  intros Hread Hopen Heof.
  assert (Hnone : input_discard_block fuel i1 ch = None).
  { unfold is_open in Hopen.
    rewrite !orb_true_iff, !ch_eqb_eq in Hopen.
    destruct Hopen as [[-> | ->] | ->];
      unfold input_discard_block; cbn [block_end ch_eqb Ascii.eqb Bool.eqb];
      cbv iota; apply discard_block_loop_at_eof;
      (assumption || discriminate || lia). }
  unfold collect_tokens_body. rewrite Hread.
  unfold is_open in Hopen.
  rewrite !orb_true_iff, !ch_eqb_eq in Hopen.
  destruct Hopen as [[-> | ->] | ->]; cbn [ch_eqb Ascii.eqb Bool.eqb orb];
    cbv iota; unfold is_open; cbn [ch_eqb Ascii.eqb Bool.eqb orb]; cbv iota;
    rewrite Hnone; reflexivity.
Qed.

Lemma collect_tokens_loop_turn (fuel : nat) (ntoken : Z) (s : ct_state) :
  ct_n s < ntoken ->
  collect_tokens_loop (S fuel) ntoken s
  = match collect_tokens_body fuel s with
    | None => None
    | Some (Return r s') => Some (r, s')
    | Some (Continue s') => collect_tokens_loop fuel ntoken s'
    end.
Proof.
  intros H. cbn [collect_tokens_loop].
  apply Z.ltb_lt in H. rewrite H. reflexivity.
Qed.

(** The scan of a text that ends inside a block never ends, however much
    fuel it is given: here the text [f(]. *)
Lemma unclosed_block_hangs_the_scan (fuel : nat) :
  scan_text fuel "f(" = None
  /\ extract_symbols fuel "f(" symtab_init None "" = None.
Proof.
  assert (H : forall fl, collect_tokens_loop fl MAX_TOKENS (ct_start "f(")
                         = None).
  { intros [| [| fl]]; [reflexivity | reflexivity |].
    rewrite collect_tokens_loop_turn by (vm_compute; reflexivity).
    replace (collect_tokens_body (S fl) (ct_start "f("))
      with (Some (Continue (ct_turns 1 0 (ct_start "f("))))
      by (vm_compute; reflexivity).
    rewrite collect_tokens_loop_turn by (vm_compute; reflexivity).
    rewrite (collect_tokens_body_unclosed fl _ "("
               (snd (input_read (ct_in (ct_turns 1 0 (ct_start "f("))))));
      [reflexivity | vm_compute; reflexivity | reflexivity |].
    split; [| split; [| split]]; vm_compute;
      [reflexivity | reflexivity | discriminate | discriminate]. }
  split; [apply H |].
  unfold extract_symbols.
  destruct fuel as [| fuel]; [reflexivity |].
  cbn [extract_loop sc_in sc_rb sc_tokens sc_stdout].
  unfold collect_tokens.
  change (mk_ct (input_init (list_ascii_of_string "f(")) ringbuf_init
                (repeat no_token (Z.to_nat MAX_TOKENS)) 0 0 "")
    with (ct_start "f(").
  rewrite H. reflexivity.
Qed.

(** * The tokenizer *)

(** No token that [collect_tokens] saves overflows the ring buffer: a token
    of at most [RINGBUF_SIZE - 2] bytes always finds room, at the start of
    the buffer if need be. *)
Lemma ringbuf_save_fits (rb : ringbuf_t) (token : string) (len : Z) :
  0 <= len <= RINGBUF_SIZE - 2 ->
  exists off, fst (ringbuf_save rb token len) = Arena off.
Proof.
  intros Hlen. unfold ringbuf_save.
  replace (len <? 0) with false by (symmetry; apply Z.ltb_ge; lia).
  destruct (RINGBUF_SIZE - 1 - rb_wr rb <? len + 1) eqn:E.
  - replace (len + 1 <=? RINGBUF_SIZE - 1) with true
      by (symmetry; apply Z.leb_le; lia).
    eexists. reflexivity.
  - apply Z.ltb_ge in E. apply Z.leb_le in E. rewrite E.
    eexists. reflexivity.
Qed.

(** C7.  When [collect_tokens] reads a [(] and has discarded its block, and
    the last token of the unit so far is the Word [__attribute__], the turn
    ends with that token taken off the unit ([n - 1]), no token added for
    the block, and [has_paren], the ring buffer and stdout as they were.
    Consequently [int f(void) __attribute__((unused));] is the unit
    [int f ( ;] and yields exactly the symbol [f]. *)
Theorem attribute_block_is_dropped (fuel : nat) (s : ct_state)
  (i1 i2 : input_t) :
  input_read (ct_in s) = ("("%char, i1) ->
  input_discard_block fuel i1 "(" = Some (0, i2) ->
  0 < ct_n s ->
  is_type (ct_tokens s) (ct_n s - 1) TOKEN_WORD ->
  token_text (rb_buf (ct_rb s)) (ct_tokens s) (ct_n s - 1) = "__attribute__" ->
  collect_tokens_body fuel s
  = Some (Continue (mk_ct i2 (ct_rb s) (ct_tokens s) (ct_n s - 1)
                          (ct_has_paren s) (ct_stdout s)))
  /\ recognize attribute_text
     = ([(TOKEN_WORD, "int"); (TOKEN_WORD, "f"); (TOKEN_BLOCK, "(");
         (TOKEN_SEMICOLON, ";")], Some "f")
  /\ extract_symbols 100 attribute_text symtab_init None ""
     = Some (["f"], "").
Proof.
  intros Hread Hblock Hn Hword Htext.
  split; [| split; vm_compute; reflexivity].
  unfold collect_tokens_body. rewrite Hread.
  change (ch_eqb "(" ";") with false.
  change (ch_eqb "(" "#") with false.
  change (ch_eqb "(" " " || ch_eqb "(" TAB)%bool with false.
  change (ch_eqb "(" NEWLINE) with false.
  change (is_open "(") with true.
  cbv iota. rewrite Hblock.
  change (negb (0 =? 0)) with false. cbv iota.
  change (ch_eqb "(" "(") with true.
  apply Z.ltb_lt in Hn. rewrite Hn.
  apply token_type_eqb_true in Hword. rewrite Hword.
  unfold token_text in Htext. rewrite Htext.
  reflexivity.
Qed.

(** The turn of [collect_tokens] that meets the attribute block of
    [attribute_text]: four tokens before, three after and [has_paren]
    untouched.  In [struct s __attribute__((packed)) { int a; } v;] the
    dropped block does not make the "{" block end the unit either. *)
Lemma attribute_block_is_dropped_witness :
  unit_view (rb_buf (ct_rb before_attribute_block))
            (ct_tokens before_attribute_block)
            (ct_n before_attribute_block)
  = [(TOKEN_WORD, "int"); (TOKEN_WORD, "f"); (TOKEN_BLOCK, "(");
     (TOKEN_WORD, "__attribute__")]
  /\ collect_tokens_body 100 before_attribute_block
     = Some (Continue (mk_ct after_attribute_block
                             (ct_rb before_attribute_block)
                             (ct_tokens before_attribute_block)
                             (4 - 1)
                             (ct_has_paren before_attribute_block)
                             (ct_stdout before_attribute_block)))
  /\ recognize "struct s __attribute__((packed)) { int a; } v;"
     = ([(TOKEN_WORD, "struct"); (TOKEN_WORD, "s"); (TOKEN_BLOCK, "{");
         (TOKEN_WORD, "v"); (TOKEN_SEMICOLON, ";")], None).
Proof.
  split; [vm_compute; reflexivity |].
  split; [| vm_compute; reflexivity].
  change (4 - 1) with (ct_n before_attribute_block - 1).
  apply (attribute_block_is_dropped 100 before_attribute_block
           inside_attribute_block after_attribute_block).
  - vm_compute; reflexivity.
  - vm_compute; reflexivity.
  - vm_compute; reflexivity.
  - vm_compute; reflexivity.
  - vm_compute; reflexivity.
Defined.

(** * The scan of a file *)

(** The table handed to the loop is a prefix of the table it returns. *)
Lemma extract_loop_keeps_symbols (fuel : nat) (re : option regex_t) :
  forall (sc sc' : scan_t) (st st' : symtab_t),
  extract_loop fuel re sc st = Some (st', sc') ->
  exists more, st' = (st ++ more)%list.
Proof.
  induction fuel as [| fuel IH]; intros sc sc' st st' H; [discriminate H |].
  cbn [extract_loop] in H.
  destruct (collect_tokens fuel (sc_in sc) (sc_rb sc) (sc_tokens sc)
                           MAX_TOKENS (sc_stdout sc))
    as [[ntoken s] |]; [| discriminate H].
  destruct (0 <? ntoken).
  - apply IH in H. destruct H as [more ->].
    match goal with
    | |- context [(?t ++ more)%list] =>
        assert (Ht : exists more', t = (st ++ more')%list)
    end.
    { destruct (symbol_from_tokens _ _ _);
        [exists []; symmetry; apply app_nil_r |].
      destruct re as [matcher |].
      - destruct (matcher _);
          [apply symtab_add_prefix | exists []; symmetry; apply app_nil_r].
      - apply symtab_add_prefix. }
    destruct Ht as [more' ->].
    exists (more' ++ more)%list. symmetry. apply app_assoc.
  - injection H as <- _. exists []. symmetry. apply app_nil_r.
Qed.

(** Each failure of the tokenizer that an input can cause, after the
    declaration of [a]: a quote left open inside a block, a word of more
    than [MAX_TOKEN - 2] characters, a unit of [MAX_TOKENS] tokens without
    an end.  The scan ends as it does on [int a;] alone. *)
Lemma tokenizer_failures_keep_symbols :
  extract_symbols 1000 "int a;" symtab_init None "" = Some (["a"], "")
  /\ extract_symbols 1000 "int a; int b[ '" symtab_init None ""
     = Some (["a"], "")
  /\ fst (first_call 1000
            (scan_init (string_of_list_ascii (repeat "x"%char 511)))) = -1
  /\ extract_symbols 1000
       ("int a; " ++ string_of_list_ascii (repeat "x"%char 511))
       symtab_init None ""
     = Some (["a"], "")
  /\ fst (first_call 1000
            (scan_init (string_of_list_ascii (repeat "="%char 64)))) = -1
  /\ extract_symbols 1000
       ("int a; " ++ string_of_list_ascii (repeat "="%char 64))
       symtab_init None ""
     = Some (["a"], "").
Proof. repeat split; vm_compute; reflexivity. Qed.

(** * Further properties of the input stream *)

Lemma buffered_empty (i : input_t) :
  in_len i <= in_rd i -> buffered i = [].
Proof.
  intros H. unfold buffered.
  apply skipn_all2. rewrite length_firstn. lia.
Qed.

Lemma buffered_next (i : input_t) :
  wf_input i -> in_rd i < in_len i ->
  buffered i
  = nth (Z.to_nat (in_rd i)) (in_buf i) NUL
    :: skipn (Z.to_nat (in_rd i + 1))
             (firstn (Z.to_nat (in_len i)) (in_buf i)).
Proof.
  intros [Hrd Hlen] Hlt. unfold buffered.
  replace (Z.to_nat (in_rd i + 1)) with (S (Z.to_nat (in_rd i))) by lia.
  remember (Z.to_nat (in_rd i)) as r eqn:Er.
  remember (Z.to_nat (in_len i)) as n eqn:En.
  assert (Hr : (r < n)%nat) by lia.
  assert (Hn : (n <= List.length (in_buf i))%nat) by lia.
  clear - Hr Hn. revert r n Hr Hn.
  induction (in_buf i) as [| x l IH]; intros r n Hr Hn; cbn in Hn.
  - lia.
  - destruct n as [| n]; [lia |]. destruct r as [| r]; cbn.
    + reflexivity.
    + apply IH; lia.
Qed.

Lemma sys_read_spec (fd : list ascii) :
  exists data rest,
    sys_read fd READBUF_SIZE = (Z.of_nat (List.length data), data, rest)
    /\ fd = (data ++ rest)%list
    /\ (data = [] -> fd = []).
Proof.
  exists (firstn (Z.to_nat READBUF_SIZE) fd),
         (skipn (Z.to_nat READBUF_SIZE) fd).
  split; [reflexivity |].
  split; [symmetry; apply firstn_skipn |].
  assert (Hpos : (0 < Z.to_nat READBUF_SIZE)%nat)
    by (unfold READBUF_SIZE; lia).
  destruct (Z.to_nat READBUF_SIZE) as [| n]; [lia |].
  destruct fd; [reflexivity | discriminate].
Qed.

(** What one [input_read] does to the pending bytes. *)
Lemma input_read_pending (i : input_t) :
  wf_input i ->
  fst (input_read i) = hd NUL (pending i)
  /\ pending (snd (input_read i)) = tl (pending i)
  /\ wf_input (snd (input_read i))
  /\ in_nxt (snd (input_read i)) = NUL.
Proof.
  intros Hwf. pose proof Hwf as [Hrd Hlen].
  unfold input_read, pending.
  destruct (ch_eqb (in_nxt i) NUL) eqn:Hn; cbn [negb].
  - apply ch_eqb_eq in Hn.
    destruct (in_len i <=? in_rd i) eqn:Hle.
    + apply Z.leb_le in Hle. rewrite (buffered_empty i Hle).
      destruct (sys_read_spec (in_fd i)) as (data & rest & -> & Hfd & Hnil).
      rewrite Hfd. cbn [app].
      destruct data as [| c data].
      * rewrite (Hnil eq_refl) in Hfd. cbn [app] in Hfd. subst rest.
        change (0 <? Z.of_nat (List.length (@nil ascii))) with false.
        cbn [fst snd hd tl app in_nxt in_fd in_buf in_len in_rd].
        rewrite Hn. change (ch_eqb NUL NUL) with true.
        unfold buffered, wf_input.
        cbn [in_nxt in_fd in_buf in_len in_rd app List.length].
        change (Z.to_nat (Z.of_nat 0)) with 0%nat.
        rewrite firstn_O, skipn_nil.
        repeat split; try reflexivity; try assumption. lia.
      * replace (0 <? Z.of_nat (List.length (c :: data))) with true
          by (symmetry; apply Z.ltb_lt; cbn [List.length]; lia).
        cbn [fst snd nth hd tl app in_nxt in_fd in_buf in_len in_rd].
        rewrite Hn. change (ch_eqb NUL NUL) with true.
        unfold buffered, wf_input.
        cbn [in_nxt in_fd in_buf in_len in_rd app].
        rewrite Nat2Z.id, firstn_all.
        change (Z.to_nat 1) with 1%nat. cbn [skipn].
        repeat split; try reflexivity; lia.
    + apply Z.leb_gt in Hle.
      rewrite (buffered_next i Hwf Hle).
      cbn [fst snd hd tl app in_nxt in_fd in_buf in_len in_rd].
      rewrite Hn. change (ch_eqb NUL NUL) with true.
      unfold buffered, wf_input.
      cbn [in_nxt in_fd in_buf in_len in_rd app].
      repeat split; try reflexivity; try assumption; lia.
  - cbn [fst snd hd tl app in_nxt in_fd in_buf in_len in_rd].
    change (ch_eqb NUL NUL) with true.
    unfold buffered, wf_input.
    cbn [in_nxt in_fd in_buf in_len in_rd app].
    repeat split; try reflexivity; assumption.
Qed.

Lemma input_init_pending (fd : list ascii) :
  wf_input (input_init fd) /\ pending (input_init fd) = fd.
Proof.
  unfold wf_input, pending, buffered, input_init. cbn.
  split; [lia | reflexivity].
Qed.

(** What [input_pushback] does to the pending bytes of a stream with no
    character pending. *)
Lemma input_pushback_pending (i : input_t) (ch : ascii) :
  wf_input i -> in_nxt i = NUL ->
  wf_input (snd (input_pushback i ch))
  /\ pending (snd (input_pushback i ch))
     = ((if ch_eqb ch NUL then [] else [ch]) ++ pending i)%list.
Proof.
  intros Hwf Hn. unfold input_pushback. rewrite Hn.
  change (ch_eqb NUL NUL) with true. cbn [snd].
  unfold wf_input, pending, buffered in *.
  cbn [in_nxt in_fd in_buf in_len in_rd]. rewrite Hn.
  change (ch_eqb NUL NUL) with true.
  split; [exact Hwf | reflexivity].
Qed.

(** One read, in terms of the pending bytes. *)
Lemma input_read_cases (i : input_t) :
  wf_input i ->
  exists i1, wf_input i1 /\ in_nxt i1 = NUL
    /\ ((pending i = [] /\ input_read i = (NUL, i1) /\ pending i1 = [])
        \/ (exists c l, pending i = c :: l /\ input_read i = (c, i1)
                        /\ pending i1 = l)).
Proof.
  intros Hwf.
  destruct (input_read_pending i Hwf) as (Hch & Hp & Hwf1 & Hn1).
  destruct (input_read i) as [ch i1]. cbn [fst snd] in *.
  exists i1. split; [exact Hwf1 |]. split; [exact Hn1 |].
  subst ch. rewrite Hp.
  destruct (pending i) as [| c l].
  - left. auto.
  - right. exists c, l. auto.
Qed.

Lemma input_discard_whitespace_pending (fuel : nat) : forall i : input_t,
  wf_input i -> ~ In NUL (pending i) ->
  (List.length (pending i) < fuel)%nat ->
  exists i', input_discard_whitespace fuel i = Some i'
    /\ wf_input i'
    /\ pending i' = skip_while is_space (pending i).
Proof.
  induction fuel as [| fuel IH]; intros i Hwf Hnul Hlen; [lia |].
  cbn [input_discard_whitespace].
  destruct (input_read_cases i Hwf)
    as (i1 & Hwf1 & Hn1 & [(Hp & -> & Hp1) | (c & l & Hp & -> & Hp1)]).
  - change (is_space NUL) with false. cbv iota.
    destruct (input_pushback_pending i1 NUL Hwf1 Hn1) as [Hwf2 Hp2].
    eexists. split; [reflexivity |]. split; [exact Hwf2 |].
    rewrite Hp2, Hp1, Hp. reflexivity.
  - rewrite Hp in *. cbn [skip_while].
    destruct (is_space c) eqn:Hs.
    + rewrite <- Hp1. apply IH; [exact Hwf1 | |].
      * rewrite Hp1. intro H. apply Hnul. right. exact H.
      * rewrite Hp1. cbn [List.length] in Hlen. lia.
    + destruct (input_pushback_pending i1 c Hwf1 Hn1) as [Hwf2 Hp2].
      eexists. split; [reflexivity |]. split; [exact Hwf2 |].
      rewrite Hp2, Hp1.
      replace (ch_eqb c NUL) with false; [reflexivity |].
      symmetry. apply ch_eqb_neq. intros ->. apply Hnul. left. reflexivity.
Qed.

Lemma input_discard_line_pending (fuel : nat) : forall i : input_t,
  wf_input i -> ~ In NUL (pending i) ->
  (List.length (pending i) < fuel)%nat ->
  exists i', input_discard_line fuel i = Some i'
    /\ wf_input i' /\ in_nxt i' = NUL
    /\ pending i' = after_newline (pending i).
Proof.
  induction fuel as [| fuel IH]; intros i Hwf Hnul Hlen; [lia |].
  cbn [input_discard_line].
  destruct (input_read_cases i Hwf)
    as (i1 & Hwf1 & Hn1 & [(Hp & -> & Hp1) | (c & l & Hp & -> & Hp1)]).
  - change (negb (ch_eqb NUL NEWLINE) && negb (ch_eqb NUL NUL))%bool
      with false. cbv iota.
    exists i1. rewrite Hp, Hp1. auto.
  - rewrite Hp in *. cbn [after_newline].
    assert (Hc : ch_eqb c NUL = false).
    { apply ch_eqb_neq. intros ->. apply Hnul. left. reflexivity. }
    rewrite Hc. cbn [negb]. rewrite andb_true_r.
    destruct (ch_eqb c NEWLINE); cbn [negb].
    + exists i1. auto.
    + rewrite <- Hp1. apply IH; [exact Hwf1 | |].
      * rewrite Hp1. intro H. apply Hnul. right. exact H.
      * rewrite Hp1. cbn [List.length] in Hlen. lia.
Qed.

(** [input_discard_quoted] comes back on every stream: with 0 behind a
    quote character, or with -1 when the stream is used up. *)
Lemma input_discard_quoted_pending (fuel : nat) :
  forall (i : input_t) (quote : ascii),
  wf_input i -> ~ In NUL (pending i) -> quote <> NUL ->
  (List.length (pending i) < fuel)%nat ->
  exists r i', input_discard_quoted fuel i quote = Some (r, i')
    /\ wf_input i' /\ in_nxt i' = NUL
    /\ ((r = 0 /\ exists body, pending i = (body ++ quote :: pending i')%list)
        \/ (r = -1 /\ pending i' = [])).
Proof.
  induction fuel as [| fuel IH]; intros i quote Hwf Hnul Hq Hlen; [lia |].
  cbn [input_discard_quoted].
  assert (HqN : ch_eqb NUL quote = false)
    by (apply ch_eqb_neq; congruence).
  destruct (input_read_cases i Hwf)
    as (i1 & Hwf1 & Hn1 & [(Hp & -> & Hp1) | (c & l & Hp & -> & Hp1)]).
  - rewrite HqN. change (ch_eqb NUL NUL) with true. cbn [negb andb].
    exists (-1), i1. rewrite Hp1.
    (split; [reflexivity |]); (split; [assumption |]); (split; [assumption |]).
    right. auto.
  - rewrite Hp in *.
    assert (Hc : ch_eqb c NUL = false).
    { apply ch_eqb_neq. intros ->. apply Hnul. left. reflexivity. }
    assert (Hl : ~ In NUL l) by (intro H; apply Hnul; right; exact H).
    cbn [List.length] in Hlen.
    rewrite Hc. cbn [negb]. rewrite andb_true_r.
    destruct (ch_eqb c quote) eqn:Hcq; cbn [negb].
    + apply ch_eqb_eq in Hcq. subst c.
      exists 0, i1.
      (split; [reflexivity |]); (split; [assumption |]); (split; [assumption |]).
      left. split; [reflexivity |]. exists []. rewrite Hp1. reflexivity.
    + destruct (ch_eqb c BACKSLASH).
      * destruct (input_read_cases i1 Hwf1)
          as (i2 & Hwf2 & Hn2
              & [(Hq1 & Hr & Hq2) | (c' & l' & Hq1 & Hr & Hq2)]);
          rewrite Hr; cbn [snd].
        -- destruct (IH i2 quote Hwf2) as (r & i' & Hrun & Hw & Hn & Hres);
             [rewrite Hq2; intros [] | exact Hq | rewrite Hq2; cbn; lia |].
           exists r, i'. (split; [assumption |]); (split; [assumption |]); (split; [assumption |]).
           destruct Hres as [[_ [body Hb]] | [-> He]].
           ++ rewrite Hq2 in Hb. destruct body; discriminate Hb.
           ++ right. auto.
        -- rewrite Hp1 in Hq1. rewrite Hq1 in *.
           destruct (IH i2 quote Hwf2) as (r & i' & Hrun & Hw & Hn & Hres);
             [ rewrite Hq2; intro H; apply Hl; right; exact H
             | exact Hq
             | rewrite Hq2; cbn [List.length] in Hlen; lia |].
           exists r, i'. (split; [assumption |]); (split; [assumption |]); (split; [assumption |]).
           destruct Hres as [[-> [body Hb]] | [-> He]].
           ++ left. split; [reflexivity |].
              exists (c :: c' :: body). rewrite Hq2 in Hb. rewrite Hb.
              reflexivity.
           ++ right. auto.
      * destruct (IH i1 quote Hwf1) as (r & i' & Hrun & Hw & Hn & Hres);
          [ rewrite Hp1; exact Hl | exact Hq | rewrite Hp1; lia |].
        exists r, i'. (split; [assumption |]); (split; [assumption |]); (split; [assumption |]).
        destruct Hres as [[-> [body Hb]] | [-> He]].
        -- left. split; [reflexivity |].
           exists (c :: body). rewrite Hp1 in Hb. rewrite Hb. reflexivity.
        -- right. auto.
Qed.

(** A quoted piece without backslash is passed over up to and including
    its closing quote. *)
Lemma input_discard_quoted_plain (quote : ascii) (body : list ascii) :
  forall (fuel : nat) (i : input_t) (rest : list ascii),
  wf_input i -> quote <> NUL ->
  Forall (fun c => c <> quote /\ c <> BACKSLASH /\ c <> NUL) body ->
  pending i = (body ++ quote :: rest)%list ->
  (List.length body < fuel)%nat ->
  exists i', input_discard_quoted fuel i quote = Some (0, i')
    /\ wf_input i' /\ in_nxt i' = NUL /\ pending i' = rest.
Proof.
  induction body as [| c body IH]; intros fuel i rest Hwf Hq Hbody Hp Hlen;
    (destruct fuel as [| fuel]; [cbn in Hlen; lia |]);
    cbn [input_discard_quoted];
    destruct (input_read_cases i Hwf)
      as (i1 & Hwf1 & Hn1 & [(Hp0 & _) | (c0 & l & Hp0 & -> & Hp1)]);
    try (rewrite Hp0 in Hp; discriminate Hp);
    rewrite Hp0 in Hp; injection Hp as -> ->.
  - replace (ch_eqb quote quote) with true by (symmetry; apply ch_eqb_eq;
                                                reflexivity).
    cbn [negb andb]. exists i1. auto.
  - apply Forall_cons_iff in Hbody. destruct Hbody as [(Hc1 & Hc2 & Hc3) Hb].
    apply ch_eqb_neq in Hc1, Hc2, Hc3. rewrite Hc1, Hc2, Hc3.
    cbn [negb andb].
    apply IH; try assumption. cbn [List.length] in Hlen. lia.
Qed.

Lemma discard_block_loop_body (beg end_ : ascii) :
  beg <> end_ ->
  beg <> DQUOTE -> beg <> SQUOTE -> end_ <> DQUOTE -> end_ <> SQUOTE ->
  forall (level : Z) (l : list ascii),
  block_body beg end_ level l ->
  0 < level ->
  forall (fuel : nat) (i : input_t) (rest : list ascii),
  wf_input i -> pending i = (l ++ rest)%list ->
  (List.length l < fuel)%nat ->
  exists i', discard_block_loop fuel i beg end_ level = Some (0, i')
    /\ wf_input i' /\ in_nxt i' = NUL /\ pending i' = rest.
Proof.
  intros Hbe Hb1 Hb2 He1 He2 level l Hbody.
  assert (Hee : ch_eqb end_ end_ = true) by (apply ch_eqb_eq; reflexivity).
  assert (Hbb : ch_eqb beg beg = true) by (apply ch_eqb_eq; reflexivity).
  apply ch_eqb_neq in Hbe, Hb1, Hb2, He1, He2.
  induction Hbody as [| level l Hlv Hbody IH | level l Hbody IH
                      | c level l Hc Hbody IH
                      | q quoted level l Hq Hquoted Hbody IH];
    intros Hpos fuel i rest Hwf Hp Hlen;
    (destruct fuel as [| fuel]; [cbn in Hlen; lia |]);
    cbn [discard_block_loop];
    match goal with
    | |- context [0 <? ?x] =>
        replace (0 <? x) with true by (symmetry; apply Z.ltb_lt; lia)
    end;
    destruct (input_read_cases i Hwf)
      as (i1 & Hwf1 & Hn1 & [(Hp0 & _) | (c0 & l0 & Hp0 & -> & Hp1)]);
    try (rewrite Hp0 in Hp; discriminate Hp);
    rewrite Hp0 in Hp; cbn [app] in Hp; injection Hp as -> ->;
    cbn [List.length] in Hlen.
  - rewrite He1, He2, Hee. cbn [orb].
    destruct fuel as [| fuel]; [lia |].
    cbn. exists i1. auto.
  - rewrite He1, He2, Hee. cbn [orb].
    apply IH; try assumption; lia.
  - rewrite Hb1, Hb2, Hbe, Hbb. cbn [orb].
    apply IH; try assumption; lia.
  - destruct Hc as (Hc1 & Hc2 & Hc3 & Hc4 & _).
    apply ch_eqb_neq in Hc1, Hc2, Hc3, Hc4.
    rewrite Hc1, Hc2, Hc3, Hc4. cbn [orb].
    apply IH; try assumption; lia.
  - replace (ch_eqb q DQUOTE || ch_eqb q SQUOTE)%bool with true
      by (destruct Hq as [-> | ->]; reflexivity).
    rewrite <- app_assoc in Hp1. cbn [app] in Hp1.
    rewrite length_app in Hlen. cbn [List.length] in Hlen.
    destruct (input_discard_quoted_plain q quoted fuel i1 (l ++ rest)%list)
      as (i2 & -> & Hwf2 & Hn2 & Hp2); try assumption; try lia.
    { destruct Hq as [-> | ->]; discriminate. }
    change (negb (0 =? 0)) with false. cbv iota.
    apply IH; try assumption; lia.
Qed.

Lemma firstn_app_repeat (n : nat) : forall (l : list ascii) (m : nat),
  (n <= m)%nat ->
  firstn n (l ++ repeat NUL m) = firstn n (l ++ repeat NUL n).
Proof.
  induction n as [| n IH]; intros l m Hm; [reflexivity |].
  destruct l as [| c l].
  - destruct m as [| m]; [lia |]. cbn. f_equal.
    apply (IH [] m). lia.
  - cbn [app firstn]. f_equal.
    rewrite (IH l m) by lia. rewrite (IH l (S n)) by lia.
    reflexivity.
Qed.

Lemma read_n_pending (n : nat) : forall i : input_t,
  wf_input i ->
  fst (read_n n i) = firstn n (pending i ++ repeat NUL n)
  /\ pending (snd (read_n n i)) = skipn n (pending i)
  /\ wf_input (snd (read_n n i)).
Proof.
  induction n as [| n IH]; intros i Hwf.
  - cbn. auto.
  - cbn [read_n].
    destruct (input_read_cases i Hwf)
      as (i1 & Hwf1 & Hn1 & [(Hp & -> & Hp1) | (c & l & Hp & -> & Hp1)]);
      destruct (IH i1 Hwf1) as (Hf & Hs & Hw);
      destruct (read_n n i1) as [got i2]; cbn [fst snd] in *;
      rewrite Hp; rewrite Hp1 in Hf, Hs.
    + cbn [app repeat firstn skipn]. rewrite Hf, Hs.
      cbn [app]. rewrite skipn_nil. auto.
    + cbn [app firstn skipn]. rewrite Hf, Hs.
      split; [| auto]. f_equal.
      symmetry. apply firstn_app_repeat. lia.
Qed.

(** X1.  The stream of a descriptor delivers the descriptor's bytes in
    order, whatever their number and the size of the read buffer, and the
    sentinel 0 from then on. *)
Theorem stream_delivers_bytes_then_zeros (fd : list ascii) (n : nat) :
  fst (read_n n (input_init fd)) = firstn n (fd ++ repeat NUL n)
  /\ pending (snd (read_n n (input_init fd))) = skipn n fd.
Proof.
  destruct (input_init_pending fd) as [Hwf Hp].
  destruct (read_n_pending n (input_init fd) Hwf) as (Hf & Hs & _).
  rewrite Hp in Hf, Hs. auto.
Qed.

(** X2.  On a stream with no pending character, a pushed-back byte other
    than 0 is accepted, a second pushback before the next read is refused
    with -1 and changes nothing, and the next read delivers the byte and
    leaves the stream as it was before the pushback. *)
Theorem pushback_is_read_back_once (i : input_t) (ch ch' : ascii) :
  in_nxt i = NUL -> ch <> NUL ->
  fst (input_pushback i ch) = 0
  /\ input_pushback (snd (input_pushback i ch)) ch'
     = (-1, snd (input_pushback i ch))
  /\ input_read (snd (input_pushback i ch)) = (ch, i).
Proof.
  intros Hn Hch.
  destruct (pushback_then_read i ch Hn Hch) as [Hpush Hread].
  rewrite Hpush in *. cbn [fst snd] in *.
  split; [reflexivity |]. split; [| exact Hread].
  unfold input_pushback. cbn [in_nxt].
  apply ch_eqb_neq in Hch. rewrite Hch. reflexivity.
Qed.

Lemma pushback_is_read_back_once_witness :
  input_read (snd (input_pushback (input_init (list_ascii_of_string "ab"))
                                  "z"))
  = ("z"%char, input_init (list_ascii_of_string "ab")).
Proof.
  apply (pushback_is_read_back_once _ "z" "y"); [reflexivity | discriminate].
Defined.

(** X3.  On a stream without 0 bytes, [input_discard_whitespace] returns
    (given fuel beyond the number of pending bytes) and leaves the stream
    at its first character that is no space, tab or newline. *)
Theorem discard_whitespace_skips_blanks (fuel : nat) (i : input_t) :
  wf_input i -> ~ In NUL (pending i) ->
  (List.length (pending i) < fuel)%nat ->
  exists i', input_discard_whitespace fuel i = Some i'
    /\ wf_input i'
    /\ pending i' = skip_while is_space (pending i).
Proof. apply input_discard_whitespace_pending. Qed.

Lemma discard_whitespace_skips_blanks_witness :
  exists i',
    input_discard_whitespace
      20 (input_init (" "%char :: TAB :: NEWLINE
                        :: list_ascii_of_string " int x;")) = Some i'
    /\ wf_input i'
    /\ pending i' = list_ascii_of_string "int x;".
Proof.
  apply (discard_whitespace_skips_blanks
           20 (input_init (" "%char :: TAB :: NEWLINE
                             :: list_ascii_of_string " int x;"))).
  - apply input_init_pending.
  - vm_compute. intuition discriminate.
  - vm_compute. lia.
Defined.

(** X4.  On a stream without 0 bytes, [input_discard_line] returns (given
    fuel beyond the number of pending bytes) and leaves the stream right
    after its first newline, or empty when it has none. *)
Theorem discard_line_skips_through_newline (fuel : nat) (i : input_t) :
  wf_input i -> ~ In NUL (pending i) ->
  (List.length (pending i) < fuel)%nat ->
  exists i', input_discard_line fuel i = Some i'
    /\ wf_input i' /\ in_nxt i' = NUL
    /\ pending i' = after_newline (pending i).
Proof. apply input_discard_line_pending. Qed.

Lemma discard_line_skips_through_newline_witness :
  exists i',
    input_discard_line
      20 (input_init (list_ascii_of_string " 1 x.c"
                        ++ NEWLINE :: list_ascii_of_string "int x;"))
    = Some i'
    /\ wf_input i' /\ in_nxt i' = NUL
    /\ pending i' = list_ascii_of_string "int x;".
Proof.
  apply (discard_line_skips_through_newline
           20 (input_init (list_ascii_of_string " 1 x.c"
                             ++ NEWLINE :: list_ascii_of_string "int x;"))).
  - apply input_init_pending.
  - vm_compute. intuition discriminate.
  - vm_compute. lia.
Defined.

(** X5.  On a stream without 0 bytes, [input_discard_quoted] always returns
    (given fuel beyond the number of pending bytes): with 0 and the stream
    right behind an occurrence of the quote character, or with -1 and the
    stream used up. *)
Theorem discard_quoted_returns (fuel : nat) (i : input_t) (quote : ascii) :
  wf_input i -> ~ In NUL (pending i) -> quote <> NUL ->
  (List.length (pending i) < fuel)%nat ->
  exists r i', input_discard_quoted fuel i quote = Some (r, i')
    /\ wf_input i' /\ in_nxt i' = NUL
    /\ ((r = 0 /\ exists body, pending i = (body ++ quote :: pending i')%list)
        \/ (r = -1 /\ pending i' = [])).
Proof. apply input_discard_quoted_pending. Qed.

Lemma discard_quoted_returns_witness :
  exists r i',
    input_discard_quoted 20 (input_init (list_ascii_of_string "a\'b' c"))
                         SQUOTE = Some (r, i')
    /\ wf_input i' /\ in_nxt i' = NUL
    /\ ((r = 0
         /\ exists body,
              pending (input_init (list_ascii_of_string "a\'b' c"))
              = (body ++ SQUOTE :: pending i')%list)
        \/ (r = -1 /\ pending i' = [])).
Proof.
  apply discard_quoted_returns.
  - apply input_init_pending.
  - vm_compute. intuition discriminate.
  - discriminate.
  - vm_compute. lia.
Defined.

Lemma block_end_pairs (beg end_ : ascii) :
  block_end beg = Some end_ ->
  beg <> end_
  /\ beg <> DQUOTE /\ beg <> SQUOTE /\ end_ <> DQUOTE /\ end_ <> SQUOTE.
Proof.
  unfold block_end.
  destruct (ch_eqb beg "{") eqn:E1;
    [| destruct (ch_eqb beg "[") eqn:E2;
       [| destruct (ch_eqb beg "(") eqn:E3; [| discriminate]]];
    intros [= <-];
    match goal with
    | H : ch_eqb beg _ = true |- _ => apply ch_eqb_eq in H; subst beg
    end; repeat split; discriminate.
Qed.

(** X6.  When the stream continues with a text that closes the open
    bracket with its last character (plain characters, nested brackets of
    the same kind, quoted pieces without backslash in which brackets do not
    count), [input_discard_block] returns 0 and leaves the stream right
    after that text. *)
Theorem discard_block_skips_balanced_text (fuel : nat) (i : input_t)
  (beg end_ : ascii) (body rest : list ascii) :
  block_end beg = Some end_ ->
  block_body beg end_ 1 body ->
  wf_input i ->
  pending i = (body ++ rest)%list ->
  (List.length body < fuel)%nat ->
  exists i', input_discard_block fuel i beg = Some (0, i')
    /\ wf_input i' /\ in_nxt i' = NUL /\ pending i' = rest.
Proof.
  intros Hend Hbody Hwf Hp Hlen.
  unfold input_discard_block. rewrite Hend.
  destruct (block_end_pairs beg end_ Hend) as (H1 & H2 & H3 & H4 & H5).
  apply (discard_block_loop_body beg end_) with (l := body);
    try assumption; lia.
Qed.

Lemma discard_block_skips_balanced_text_witness :
  exists i',
    input_discard_block
      30 (input_init (list_ascii_of_string "a, ')', g(b)); int x;")) "("
    = Some (0, i')
    /\ wf_input i' /\ in_nxt i' = NUL
    /\ pending i' = list_ascii_of_string "; int x;".
Proof.
  apply (discard_block_skips_balanced_text
           30 _ "(" ")" (list_ascii_of_string "a, ')', g(b))")).
  - reflexivity.
  - cbn [list_ascii_of_string].
    do 3 (apply bb_plain; [repeat split; discriminate |]).
    apply (bb_quoted _ _ SQUOTE [")"%char]); [right; reflexivity | |].
    { repeat constructor; discriminate. }
    do 3 (apply bb_plain; [repeat split; discriminate |]).
    apply bb_open.
    apply bb_plain; [repeat split; discriminate |].
    apply bb_close; [lia |].
    apply bb_last.
  - apply input_init_pending.
  - reflexivity.
  - vm_compute. lia.
Defined.

(** * Further properties of the ring buffer *)

Lemma read_cstr_app (s : string) (t : list ascii) :
  nul_free s ->
  read_cstr (list_ascii_of_string s ++ NUL :: t) = s.
Proof.
  unfold nul_free.
  induction s as [| c s IH]; intros Hs; cbn.
  - reflexivity.
  - replace (ch_eqb c NUL) with false.
    + f_equal. apply IH. intro H. apply Hs. right. exact H.
    + symmetry. apply ch_eqb_neq. intros ->. apply Hs. left. reflexivity.
Qed.

(** A C string is determined by the bytes up to its terminating 0. *)
Lemma read_cstr_prefix (n : nat) : forall l l' : list ascii,
  firstn n l = firstn n l' ->
  (String.length (read_cstr l) < n)%nat ->
  read_cstr l' = read_cstr l.
Proof.
  induction n as [| n IH]; intros l l' Hf Hlen; [lia |].
  destruct l as [| c l]; destruct l' as [| c' l']; cbn in Hf;
    try discriminate Hf; [reflexivity |].
  injection Hf as <- Hf. cbn in Hlen |- *.
  destruct (ch_eqb c NUL); [reflexivity |].
  cbn in Hlen. f_equal. apply IH; [exact Hf | lia].
Qed.

Lemma store_length (mem : list ascii) (off : Z) (data : list ascii) :
  0 <= off ->
  (Z.to_nat off + List.length data <= List.length mem)%nat ->
  List.length (store mem off data) = List.length mem.
Proof.
  intros Hoff Hfit. unfold store.
  rewrite !length_app, length_firstn, length_skipn. lia.
Qed.

Lemma store_skipn (mem : list ascii) (off : Z) (data : list ascii) :
  (Z.to_nat off <= List.length mem)%nat ->
  skipn (Z.to_nat off) (store mem off data)
  = (data ++ skipn (Z.to_nat off + List.length data) mem)%list.
Proof.
  intros Hoff. unfold store.
  rewrite skipn_app, length_firstn.
  replace (Z.to_nat off - Nat.min (Z.to_nat off) (List.length mem))%nat
    with 0%nat by lia.
  rewrite skipn_all2 by (rewrite length_firstn; lia).
  reflexivity.
Qed.

Lemma store_firstn (mem : list ascii) (off : Z) (data : list ascii) :
  (Z.to_nat off <= List.length mem)%nat ->
  firstn (Z.to_nat off) (store mem off data) = firstn (Z.to_nat off) mem.
Proof.
  intros Hoff. unfold store.
  rewrite firstn_app, length_firstn.
  replace (Z.to_nat off - Nat.min (Z.to_nat off) (List.length mem))%nat
    with 0%nat by lia.
  rewrite firstn_O, app_nil_r.
  apply firstn_all2. rewrite length_firstn. lia.
Qed.

Lemma list_ascii_length (s : string) :
  List.length (list_ascii_of_string s) = String.length s.
Proof. induction s as [| c s IH]; cbn; congruence. Qed.

(** What a [ringbuf_save] call that has room does. *)
Lemma ringbuf_save_spec (rb : ringbuf_t) (token : string) (len : Z) :
  wf_ringbuf rb ->
  len = Z.of_nat (String.length token) \/ len < 0 ->
  Z.of_nat (String.length token) <= RINGBUF_SIZE - 2 ->
  let off :=
    if RINGBUF_SIZE - 1 - rb_wr rb <? Z.of_nat (String.length token) + 1
    then 0 else rb_wr rb in
  ringbuf_save rb token len
  = (Arena off,
     mk_ringbuf (store (rb_buf rb) off (list_ascii_of_string token ++ [NUL]))
                (off + Z.of_nat (String.length token) + 1))
  /\ 0 <= off
  /\ off + Z.of_nat (String.length token) + 1 <= RINGBUF_SIZE - 1.
Proof.
  intros [Hlen [Hwr0 Hwr1]] Hl Hfit off.
  unfold ringbuf_save.
  assert (Hl' : (if len <? 0 then Z.of_nat (String.length token) else len)
                = Z.of_nat (String.length token)).
  { destruct Hl as [-> | Hneg].
    - replace (Z.of_nat (String.length token) <? 0) with false
        by (symmetry; apply Z.ltb_ge; lia). reflexivity.
    - replace (len <? 0) with true by (symmetry; apply Z.ltb_lt; lia).
      reflexivity. }
  rewrite Hl'. subst off.
  rewrite Nat2Z.id.
  assert (Hall : firstn (String.length token) (list_ascii_of_string token)
                 = list_ascii_of_string token)
    by (rewrite <- (list_ascii_length token); apply firstn_all).
  rewrite Hall.
  destruct (RINGBUF_SIZE - 1 - rb_wr rb <? Z.of_nat (String.length token) + 1)
    eqn:E.
  - replace (Z.of_nat (String.length token) + 1 <=? RINGBUF_SIZE - 1)
      with true by (symmetry; apply Z.leb_le; lia).
    split; [reflexivity | lia].
  - apply Z.ltb_ge in E.
    replace (Z.of_nat (String.length token) + 1
             <=? RINGBUF_SIZE - 1 - rb_wr rb)
      with true by (symmetry; apply Z.leb_le; lia).
    split; [reflexivity | lia].
Qed.

Lemma ringbuf_save_round_trip (rb : ringbuf_t) (token : string) (len : Z) :
  wf_ringbuf rb ->
  nul_free token ->
  len = Z.of_nat (String.length token) \/ len < 0 ->
  Z.of_nat (String.length token) <= RINGBUF_SIZE - 2 ->
  exists off rb',
    ringbuf_save rb token len = (Arena off, rb')
    /\ wf_ringbuf rb'
    /\ cstr (rb_buf rb') (Arena off) = token.
Proof.
  intros Hwf Hnul Hl Hfit.
  destruct (ringbuf_save_spec rb token len Hwf Hl Hfit) as (Hsave & H0 & H1).
  destruct Hwf as [Hlen Hwr].
  eexists. eexists. split; [exact Hsave |].
  unfold RINGBUF_SIZE in *.
  split.
  - split; cbn [rb_buf rb_wr].
    + rewrite store_length; [exact Hlen | exact H0 |].
      rewrite length_app, list_ascii_length. cbn [List.length]. lia.
    + unfold RINGBUF_SIZE. lia.
  - cbn [cstr rb_buf].
    rewrite store_skipn by lia.
    rewrite <- app_assoc. cbn [app].
    apply read_cstr_app. exact Hnul.
Qed.

Lemma ringbuf_init_wf : wf_ringbuf ringbuf_init.
Proof.
  unfold wf_ringbuf, ringbuf_init. cbn [rb_buf rb_wr].
  rewrite repeat_length. unfold RINGBUF_SIZE. lia.
Qed.

(** X7.  A token without 0 bytes and of at most [RINGBUF_SIZE - 2] bytes,
    saved with its length (or with a negative length, which stands for
    [strlen]), is read back unchanged through the pointer returned, and the
    ring buffer keeps its size and a write offset inside it. *)
Theorem ringbuf_save_reads_back (rb : ringbuf_t) (token : string) (len : Z) :
  wf_ringbuf rb ->
  nul_free token ->
  len = Z.of_nat (String.length token) \/ len < 0 ->
  Z.of_nat (String.length token) <= RINGBUF_SIZE - 2 ->
  exists off rb',
    ringbuf_save rb token len = (Arena off, rb')
    /\ wf_ringbuf rb'
    /\ cstr (rb_buf rb') (Arena off) = token.
Proof. apply ringbuf_save_round_trip. Qed.

Lemma ringbuf_save_reads_back_witness :
  exists off rb',
    ringbuf_save ringbuf_init "g_counter" (-1) = (Arena off, rb')
    /\ wf_ringbuf rb'
    /\ cstr (rb_buf rb') (Arena off) = "g_counter".
Proof.
  apply ringbuf_save_reads_back.
  - exact ringbuf_init_wf.
  - unfold nul_free. cbn. intuition discriminate.
  - right. lia.
  - cbn. unfold RINGBUF_SIZE. lia.
Defined.

(** X8.  On a buffer whose write offset is not negative, [ringbuf_save]
    with a length that is not negative answers [NULL] exactly when the
    token, with its terminating 0, does not fit into the buffer even from
    its start (more than [RINGBUF_SIZE - 2] bytes), and then it leaves the
    buffer as it was. *)
Theorem ringbuf_save_fails_iff_too_long (rb : ringbuf_t) (token : string)
  (len : Z) :
  0 <= rb_wr rb ->
  0 <= len ->
  (fst (ringbuf_save rb token len) = NULL <-> RINGBUF_SIZE - 2 < len)
  /\ (fst (ringbuf_save rb token len) = NULL ->
      snd (ringbuf_save rb token len) = rb).
Proof.
  intros Hwr Hlen. unfold ringbuf_save.
  replace (len <? 0) with false by (symmetry; apply Z.ltb_ge; lia).
  destruct (RINGBUF_SIZE - 1 - rb_wr rb <? len + 1) eqn:E.
  - destruct (len + 1 <=? RINGBUF_SIZE - 1) eqn:E'; cbn [fst snd].
    + apply Z.leb_le in E'.
      split; [split; [discriminate | lia] | discriminate].
    + apply Z.leb_gt in E'. split; [split; [lia | reflexivity] | reflexivity].
  - apply Z.ltb_ge in E.
    replace (len + 1 <=? RINGBUF_SIZE - 1 - rb_wr rb) with true
      by (symmetry; apply Z.leb_le; lia).
    cbn [fst snd].
    split; [split; [discriminate | lia] | discriminate].
Qed.

Lemma ringbuf_save_fails_iff_too_long_witness :
  fst (ringbuf_save ringbuf_init "x" (RINGBUF_SIZE - 1)) = NULL
  /\ snd (ringbuf_save ringbuf_init "x" (RINGBUF_SIZE - 1)) = ringbuf_init.
Proof.
  assert (Hwr : 0 <= rb_wr ringbuf_init) by (cbn; lia).
  assert (Hlen : 0 <= RINGBUF_SIZE - 1) by (unfold RINGBUF_SIZE; lia).
  destruct (ringbuf_save_fails_iff_too_long
              ringbuf_init "x" (RINGBUF_SIZE - 1) Hwr Hlen) as [Hiff Hsame].
  assert (Hnull : fst (ringbuf_save ringbuf_init "x" (RINGBUF_SIZE - 1))
                  = NULL) by (apply Hiff; lia).
  split; [exact Hnull | exact (Hsame Hnull)].
Defined.

(** X9.  A save that does not start over from the beginning of the buffer
    leaves every C string that ends before the write offset as it is: the
    text of a token saved earlier is still read through its pointer. *)
Theorem ringbuf_save_keeps_earlier_tokens (rb : ringbuf_t) (token : string)
  (len q : Z) :
  wf_ringbuf rb ->
  len = Z.of_nat (String.length token) \/ len < 0 ->
  rb_wr rb + Z.of_nat (String.length token) + 1 <= RINGBUF_SIZE - 1 ->
  0 <= q ->
  q + Z.of_nat (String.length (cstr (rb_buf rb) (Arena q))) < rb_wr rb ->
  fst (ringbuf_save rb token len) = Arena (rb_wr rb)
  /\ cstr (rb_buf (snd (ringbuf_save rb token len))) (Arena q)
     = cstr (rb_buf rb) (Arena q).
Proof.
  intros Hwf Hl Hroom Hq Hend.
  assert (Hfit : Z.of_nat (String.length token) <= RINGBUF_SIZE - 2)
    by (destruct Hwf as [_ Hwr]; lia).
  destruct (ringbuf_save_spec rb token len Hwf Hl Hfit) as (Hsave & _ & _).
  cbv zeta in Hsave.
  replace (RINGBUF_SIZE - 1 - rb_wr rb <? Z.of_nat (String.length token) + 1)
    with false in Hsave by (symmetry; apply Z.ltb_ge; lia).
  rewrite Hsave. cbn [fst snd rb_buf].
  split; [reflexivity |].
  destruct Hwf as [Hlen Hwr]. unfold RINGBUF_SIZE in *.
  cbn [cstr] in *.
  apply read_cstr_prefix with (n := (Z.to_nat (rb_wr rb) - Z.to_nat q)%nat);
    [| lia].
  rewrite !firstn_skipn_comm.
  replace (Z.to_nat q + (Z.to_nat (rb_wr rb) - Z.to_nat q))%nat
    with (Z.to_nat (rb_wr rb)) by lia.
  rewrite store_firstn by lia.
  reflexivity.
Qed.

Lemma ringbuf_save_keeps_earlier_tokens_witness :
  cstr (rb_buf (snd (ringbuf_save (snd (ringbuf_save ringbuf_init "int" 3))
                                  "table" 5)))
       (Arena 0)
  = "int".
Proof.
  change "int" with (cstr (rb_buf (snd (ringbuf_save ringbuf_init "int" 3)))
                          (Arena 0)) at 2.
  apply (ringbuf_save_keeps_earlier_tokens
           (snd (ringbuf_save ringbuf_init "int" 3)) "table" 5 0).
  - destruct (ringbuf_save_round_trip ringbuf_init "int" 3 ringbuf_init_wf)
      as (off & rb' & Hsave & Hwf & _).
    + unfold nul_free. cbn. intuition discriminate.
    + left. reflexivity.
    + cbn. unfold RINGBUF_SIZE. lia.
    + rewrite Hsave. exact Hwf.
  - left. reflexivity.
  - vm_compute. discriminate.
  - lia.
  - vm_compute. reflexivity.
Defined.

(** * Further properties of the tokenizer *)

Lemma WORD_CHAR_not_nul (c : ascii) : WORD_CHAR c = true -> c <> NUL.
Proof. intros H ->. discriminate H. Qed.

Lemma string_of_list_length (w : list ascii) :
  String.length (string_of_list_ascii w) = List.length w.
Proof. induction w as [| c w IH]; cbn; congruence. Qed.

(** The loop of [input_collect_word] on a run of word characters that it
    has room for: the run is appended to the word and saved. *)
Lemma collect_word_loop_run (rb : ringbuf_t) (w : list ascii) :
  forall (k : nat) (i : input_t) (word : string) (n : Z) (rest : list ascii),
  wf_input i ->
  pending i = (w ++ rest)%list ->
  Forall (fun c => WORD_CHAR c = true) w ->
  WORD_CHAR (hd NUL rest) = false ->
  ~ In NUL rest ->
  (List.length w < k)%nat ->
  exists i',
    collect_word_loop k i rb word n
    = (fst (ringbuf_save rb (word ++ string_of_list_ascii w)
                         (n + Z.of_nat (List.length w))),
       i',
       snd (ringbuf_save rb (word ++ string_of_list_ascii w)
                         (n + Z.of_nat (List.length w))))
    /\ wf_input i' /\ pending i' = rest.
Proof.
  induction w as [| c w IH]; intros k i word n rest Hwf Hp Hw Hrest Hnul Hk;
    (destruct k as [| k]; [cbn in Hk; lia |]);
    cbn [collect_word_loop];
    destruct (input_read_cases i Hwf)
      as (i1 & Hwf1 & Hn1 & [(Hp0 & -> & Hp1) | (c0 & l & Hp0 & -> & Hp1)]);
    rewrite Hp0 in Hp; cbn [app] in Hp.
  - subst rest. change (WORD_CHAR NUL) with false. cbv iota.
    destruct (input_pushback_pending i1 NUL Hwf1 Hn1) as [Hwf2 Hp2].
    exists (snd (input_pushback i1 NUL)).
    cbn [string_of_list_ascii List.length].
    rewrite append_empty_r, Z.add_0_r.
    destruct (ringbuf_save rb word n) as [v rb1]. cbn [fst snd].
    split; [reflexivity |]. split; [exact Hwf2 |].
    rewrite Hp2, Hp1. reflexivity.
  - subst rest. cbn [hd] in Hrest. rewrite Hrest.
    destruct (input_pushback_pending i1 c0 Hwf1 Hn1) as [Hwf2 Hp2].
    exists (snd (input_pushback i1 c0)).
    cbn [string_of_list_ascii List.length].
    rewrite append_empty_r, Z.add_0_r.
    destruct (ringbuf_save rb word n) as [v rb1]. cbn [fst snd].
    split; [reflexivity |]. split; [exact Hwf2 |].
    rewrite Hp2, Hp1.
    replace (ch_eqb c0 NUL) with false; [reflexivity |].
    symmetry. apply ch_eqb_neq. intros ->. apply Hnul. left. reflexivity.
  - discriminate Hp.
  - injection Hp as -> ->.
    apply Forall_cons_iff in Hw. destruct Hw as [Hc Hw]. rewrite Hc.
    destruct (IH k i1 (word ++ String c EmptyString)%string (n + 1) rest)
      as (i' & Hrun & Hwf' & Hp'); try assumption.
    { cbn [List.length] in Hk. lia. }
    exists i'. split; [| auto].
    rewrite Hrun. cbn [string_of_list_ascii List.length].
    rewrite append_assoc. cbn [append].
    replace (n + 1 + Z.of_nat (List.length w))
      with (n + Z.of_nat (S (List.length w))) by lia.
    reflexivity.
Qed.

(** The loop on a run of word characters that is too long for it. *)
Lemma collect_word_loop_long (rb : ringbuf_t) (k : nat) :
  forall (i : input_t) (word : string) (n : Z),
  wf_input i ->
  (k <= List.length (pending i))%nat ->
  Forall (fun c => WORD_CHAR c = true) (firstn k (pending i)) ->
  exists i',
    collect_word_loop k i rb word n = (NULL, i', rb)
    /\ wf_input i' /\ pending i' = skipn k (pending i).
Proof.
  induction k as [| k IH]; intros i word n Hwf Hlen Hw.
  - exists i. auto.
  - cbn [collect_word_loop].
    destruct (input_read_cases i Hwf)
      as (i1 & Hwf1 & Hn1 & [(Hp0 & -> & Hp1) | (c0 & l & Hp0 & -> & Hp1)]);
      rewrite Hp0 in *; cbn [List.length firstn skipn] in *; [lia |].
    apply Forall_cons_iff in Hw. destruct Hw as [Hc Hw]. rewrite Hc.
    rewrite <- Hp1 in Hw |- *. apply IH; [exact Hwf1 | | exact Hw].
    rewrite Hp1. lia.
Qed.

(** X10.  When the stream continues with a run of at most [MAX_TOKEN - 2]
    word characters followed by a character that is none (or by the end of
    the stream), [input_collect_word] saves exactly that run, returns a
    pointer through which it is read back, and leaves the stream at the
    character after the run. *)
Theorem collect_word_takes_the_run (i : input_t) (rb : ringbuf_t)
  (w rest : list ascii) :
  wf_input i -> wf_ringbuf rb ->
  pending i = (w ++ rest)%list ->
  Forall (fun c => WORD_CHAR c = true) w ->
  WORD_CHAR (hd NUL rest) = false ->
  ~ In NUL rest ->
  Z.of_nat (List.length w) <= MAX_TOKEN - 2 ->
  exists off i' rb',
    input_collect_word i rb = (Arena off, i', rb')
    /\ cstr (rb_buf rb') (Arena off) = string_of_list_ascii w
    /\ pending i' = rest
    /\ wf_input i' /\ wf_ringbuf rb'.
Proof.
  intros Hwf Hrb Hp Hw Hrest Hnul Hlen.
  unfold input_collect_word.
  destruct (collect_word_loop_run rb w (Z.to_nat (MAX_TOKEN - 1)) i
                                  EmptyString 0 rest)
    as (i' & Hrun & Hwf' & Hp'); try assumption.
  { unfold MAX_TOKEN in *. lia. }
  cbn [append] in Hrun. rewrite Z.add_0_l in Hrun.
  destruct (ringbuf_save_round_trip rb (string_of_list_ascii w)
              (Z.of_nat (List.length w)) Hrb)
    as (off & rb' & Hsave & Hrb' & Hread).
  - unfold nul_free. rewrite list_ascii_of_string_of_list_ascii.
    intro H. rewrite Forall_forall in Hw.
    exact (WORD_CHAR_not_nul NUL (Hw NUL H) eq_refl).
  - left. rewrite string_of_list_length. reflexivity.
  - rewrite string_of_list_length. unfold MAX_TOKEN, RINGBUF_SIZE in *. lia.
  - rewrite Hsave in Hrun. cbn [fst snd] in Hrun.
    exists off, i', rb'. auto 6.
Qed.

Lemma collect_word_takes_the_run_witness :
  exists off i' rb',
    input_collect_word (input_init (list_ascii_of_string "g_counter = 0;"))
                       ringbuf_init
    = (Arena off, i', rb')
    /\ cstr (rb_buf rb') (Arena off) = "g_counter"
    /\ pending i' = list_ascii_of_string " = 0;"
    /\ wf_input i' /\ wf_ringbuf rb'.
Proof.
  apply (collect_word_takes_the_run
           (input_init (list_ascii_of_string "g_counter = 0;")) ringbuf_init
           (list_ascii_of_string "g_counter")
           (list_ascii_of_string " = 0;")).
  - apply input_init_pending.
  - exact ringbuf_init_wf.
  - reflexivity.
  - repeat constructor.
  - reflexivity.
  - cbn. intuition discriminate.
  - cbn. unfold MAX_TOKEN. lia.
Defined.

(** X11.  When the stream continues with [MAX_TOKEN - 1] word characters or
    more, [input_collect_word] fails: it returns [NULL], saves nothing and
    has consumed [MAX_TOKEN - 1] characters. *)
Theorem collect_word_rejects_long_words (i : input_t) (rb : ringbuf_t) :
  wf_input i ->
  (Z.to_nat (MAX_TOKEN - 1) <= List.length (pending i))%nat ->
  Forall (fun c => WORD_CHAR c = true)
         (firstn (Z.to_nat (MAX_TOKEN - 1)) (pending i)) ->
  exists i',
    input_collect_word i rb = (NULL, i', rb)
    /\ wf_input i'
    /\ pending i' = skipn (Z.to_nat (MAX_TOKEN - 1)) (pending i).
Proof.
  intros Hwf Hlen Hw. unfold input_collect_word.
  apply collect_word_loop_long; assumption.
Qed.

Lemma In_firstn (k : nat) : forall (l : list ascii) (c : ascii),
  In c (firstn k l) -> In c l.
Proof.
  induction k as [| k IH]; intros l c H; [destruct H |].
  destruct l as [| x l]; [destruct H |].
  destruct H as [-> | H]; [left; reflexivity | right; apply IH, H].
Qed.

Lemma collect_word_rejects_long_words_witness :
  exists i',
    input_collect_word (input_init (repeat "x"%char (Z.to_nat 600)))
                       ringbuf_init
    = (NULL, i', ringbuf_init)
    /\ wf_input i'
    /\ pending i' = repeat "x"%char (Z.to_nat 89).
Proof.
  destruct (input_init_pending (repeat "x"%char (Z.to_nat 600)))
    as [Hwf0 Hp0].
  destruct (collect_word_rejects_long_words
              (input_init (repeat "x"%char (Z.to_nat 600))) ringbuf_init)
    as (i' & Hrun & Hwf & Hp).
  - exact Hwf0.
  - rewrite Hp0, repeat_length. unfold MAX_TOKEN. lia.
  - rewrite Hp0. apply Forall_forall. intros c Hc.
    apply In_firstn in Hc. apply repeat_spec in Hc. subst c. reflexivity.
  - exists i'. split; [exact Hrun |]. split; [exact Hwf |].
    rewrite Hp, Hp0. vm_compute. reflexivity.
Defined.

Lemma array_set_length (tokens : list token_t) (t : token_t) :
  forall n : nat, List.length (array_set tokens n t) = List.length tokens.
Proof.
  induction tokens as [| x tokens IH]; intros n; [reflexivity |].
  destruct n; cbn; [reflexivity | rewrite IH; reflexivity].
Qed.

Lemma array_set_firstn (tokens : list token_t) (t : token_t) :
  forall n : nat,
  (n < List.length tokens)%nat ->
  firstn (S n) (array_set tokens n t) = (firstn n tokens ++ [t])%list.
Proof.
  induction tokens as [| x tokens IH]; intros n Hn; cbn in Hn; [lia |].
  destruct n; cbn [array_set firstn app]; [reflexivity |].
  f_equal. apply IH. lia.
Qed.

Lemma Forall_firstn_le (P : token_t -> Prop) (l : list token_t) :
  forall n m : nat,
  (m <= n)%nat -> Forall P (firstn n l) -> Forall P (firstn m l).
Proof.
  induction l as [| x l IH]; intros n m Hle H.
  - rewrite firstn_nil. constructor.
  - destruct m; [constructor |]. destruct n; [lia |].
    cbn in H |- *. apply Forall_cons_iff in H. destruct H as [Hx H].
    constructor; [exact Hx | apply (IH n); [lia | exact H]].
Qed.

(** Appending an inner token keeps the invariant. *)
Lemma push_token_inv (size : nat) (s : ct_state) (i : input_t)
  (rb : ringbuf_t) (t : token_t) (hp : Z) :
  ct_inv size s -> ct_n s < Z.of_nat size -> inner_token t ->
  ct_inv size (push_token s i rb t hp).
Proof.
  intros (Hn & Hlen & Hall) Hlt Ht.
  unfold ct_inv, push_token. cbn [ct_n ct_tokens].
  split; [lia |]. split; [rewrite array_set_length; exact Hlen |].
  replace (Z.to_nat (ct_n s + 1)) with (S (Z.to_nat (ct_n s))) by lia.
  rewrite array_set_firstn by lia.
  apply Forall_app. split; [exact Hall | constructor; [exact Ht | constructor]].
Qed.

(** Appending the semicolon gives a unit of the returned shape. *)
Lemma push_semicolon_shape (size : nat) (s : ct_state) (i : input_t)
  (rb : ringbuf_t) (off : Z) (hp : Z) :
  ct_inv size s -> ct_n s < Z.of_nat size ->
  unit_shape (firstn (Z.to_nat (ct_n s + 1))
                     (ct_tokens (push_token s i rb
                                   (mk_token TOKEN_SEMICOLON (Arena off))
                                   hp))).
Proof.
  intros (Hn & Hlen & Hall) Hlt.
  unfold push_token. cbn [ct_tokens].
  replace (Z.to_nat (ct_n s + 1)) with (S (Z.to_nat (ct_n s))) by lia.
  rewrite array_set_firstn by lia.
  eexists. eexists. split; [reflexivity |]. split; [exact Hall |].
  right. exists off. reflexivity.
Qed.

Lemma inv_shape (size : nat) (s : ct_state) :
  ct_inv size s -> unit_shape (firstn (Z.to_nat (ct_n s)) (ct_tokens s)).
Proof.
  intros (_ & _ & Hall).
  exists (firstn (Z.to_nat (ct_n s)) (ct_tokens s)), [].
  rewrite app_nil_r. auto.
Qed.

Lemma with_input_inv (size : nat) (s : ct_state) (i : input_t) :
  ct_inv size s -> ct_inv size (with_input s i).
Proof. intros H. exact H. Qed.

Lemma with_stdout_inv (size : nat) (s : ct_state) (i : input_t)
  (out : string) :
  ct_inv size s ->
  ct_inv size (mk_ct i (ct_rb s) (ct_tokens s) (ct_n s) (ct_has_paren s) out).
Proof. intros H. exact H. Qed.

(** What a turn of the loop of [collect_tokens] keeps and returns. *)
Lemma collect_tokens_body_inv (size : nat) (ntoken : Z) (fuel : nat)
  (s : ct_state) :
  ct_inv size s -> ct_n s < ntoken -> ntoken <= Z.of_nat size ->
  match collect_tokens_body fuel s with
  | None => True
  | Some (Continue s') => ct_inv size s'
  | Some (Return r s') =>
      List.length (ct_tokens s') = size
      /\ (r = -1
          \/ (0 <= r <= ntoken
              /\ unit_shape (firstn (Z.to_nat r) (ct_tokens s'))))
  end.
Proof.
  intros Hinv Hlt Hsize. pose proof Hinv as (Hn & Hlen & Hall).
  unfold collect_tokens_body.
  destruct (input_read (ct_in s)) as [ch i1].
  destruct (ch_eqb ch ";").
  { destruct (ringbuf_save_fits (ct_rb s) ";" 1) as [off Hoff];
      [unfold RINGBUF_SIZE; lia |].
    destruct (ringbuf_save (ct_rb s) ";" 1) as [v rb1].
    cbn [fst] in Hoff. subst v.
    split; [unfold push_token; cbn [ct_tokens];
            rewrite array_set_length; exact Hlen |].
    right. split; [lia |].
    apply (push_semicolon_shape size); [assumption | lia]. }
  destruct (ch_eqb ch "#").
  { destruct (input_discard_line fuel i1); [| exact I].
    exact (with_input_inv size s _ Hinv). }
  destruct (ch_eqb ch " " || ch_eqb ch TAB)%bool.
  { destruct (input_discard_whitespace fuel i1); [| exact I].
    exact (with_input_inv size s _ Hinv). }
  destruct (ch_eqb ch NEWLINE).
  { exact (with_input_inv size s _ Hinv). }
  destruct (is_open ch).
  { destruct (input_discard_block fuel i1 ch) as [[r i2] |]; [| exact I].
    destruct (negb (r =? 0)).
    { split; [exact Hlen | left; reflexivity]. }
    match goal with
    | |- context [if ?b then Some (Continue _) else _] =>
        destruct b eqn:Hattr
    end.
    { rewrite !andb_true_iff in Hattr.
      destruct Hattr as [[[_ Hpos] _] _]. apply Z.ltb_lt in Hpos.
      unfold ct_inv. cbn [ct_n ct_tokens].
      split; [lia |]. split; [exact Hlen |].
      apply (Forall_firstn_le _ _ (Z.to_nat (ct_n s))); [lia | exact Hall]. }
    match goal with
    | |- context [ringbuf_save (ct_rb s) ?v 1] =>
        destruct (ringbuf_save_fits (ct_rb s) v 1) as [off Hoff];
          [unfold RINGBUF_SIZE; lia |];
        destruct (ringbuf_save (ct_rb s) v 1) as [p rb1];
        cbn [fst] in Hoff; subst p;
        assert (Hpush : forall hp,
                  ct_inv size (push_token s i2 rb1
                                 (mk_token TOKEN_BLOCK (Arena off)) hp))
          by (intros hp; apply push_token_inv;
              [exact Hinv | lia |];
              split; [left; reflexivity | discriminate]);
        destruct (String.eqb v "(")
    end.
    { apply Hpush. }
    match goal with
    | |- context [if ?b then _ else _] => destruct b
    end.
    - split; [apply Hpush |].
      right. split; [cbn [push_token ct_n]; lia |].
      apply (inv_shape size), Hpush.
    - apply Hpush. }
  destruct (ch_eqb ch NUL).
  { split; [exact Hlen |].
    right. split; [lia |].
    exact (inv_shape size s Hinv). }
  destruct (WORD_CHAR ch).
  { destruct (input_collect_word _ _) as [[v i3] rb1].
    destruct v as [| off].
    - split; [exact Hlen | left; reflexivity].
    - apply push_token_inv; [exact Hinv | lia |].
      split; [right; left; reflexivity | discriminate]. }
  destruct (ch_eqb ch "=").
  { destruct (ringbuf_save_fits (ct_rb s) "=" 1) as [off Hoff];
      [unfold RINGBUF_SIZE; lia |].
    destruct (ringbuf_save (ct_rb s) "=" 1) as [v rb1].
    cbn [fst] in Hoff. subst v.
    apply push_token_inv; [exact Hinv | lia |].
    split; [right; right; reflexivity | discriminate]. }
  destruct (ch_eqb ch "*").
  { exact (with_input_inv size s _ Hinv). }
  exact (with_stdout_inv size s _ _ Hinv).
Qed.

Lemma collect_tokens_loop_inv (size : nat) (fuel : nat) :
  forall (ntoken : Z) (s s' : ct_state) (r : Z),
  ct_inv size s -> ntoken <= Z.of_nat size ->
  collect_tokens_loop fuel ntoken s = Some (r, s') ->
  List.length (ct_tokens s') = size
  /\ (r = -1
      \/ (0 <= r <= ntoken
          /\ unit_shape (firstn (Z.to_nat r) (ct_tokens s')))).
Proof.
  induction fuel as [| fuel IH]; intros ntoken s s' r Hinv Hsize Hrun;
    [discriminate Hrun |].
  cbn [collect_tokens_loop] in Hrun.
  destruct (ct_n s <? ntoken) eqn:Hlt.
  - apply Z.ltb_lt in Hlt.
    pose proof (collect_tokens_body_inv size ntoken fuel s Hinv Hlt Hsize)
      as Hbody.
    destruct (collect_tokens_body fuel s) as [[r0 s0 | s0] |];
      [| | discriminate Hrun].
    + injection Hrun as <- <-. exact Hbody.
    + exact (IH ntoken s0 s' r Hbody Hsize Hrun).
  - injection Hrun as <- <-.
    destruct Hinv as (_ & Hlen & _). auto.
Qed.

Lemma collect_tokens_inv (fuel : nat) (i : input_t) (rb : ringbuf_t)
  (tokens : list token_t) (ntoken : Z) (out : string) (r : Z)
  (s : ct_state) :
  ntoken <= Z.of_nat (List.length tokens) ->
  collect_tokens fuel i rb tokens ntoken out = Some (r, s) ->
  List.length (ct_tokens s) = List.length tokens
  /\ (r = -1
      \/ (0 <= r <= ntoken
          /\ unit_shape (firstn (Z.to_nat r) (ct_tokens s)))).
Proof.
  intros Hsize Hrun. unfold collect_tokens in Hrun.
  apply (collect_tokens_loop_inv (List.length tokens) fuel ntoken
           (mk_ct i rb tokens 0 0 out)); [| exact Hsize | exact Hrun].
  unfold ct_inv. cbn. split; [lia |]. split; [reflexivity | constructor].
Qed.

Lemma array_set_skipn (tokens : list token_t) (t : token_t) :
  forall n m : nat,
  (n < m)%nat -> skipn m (array_set tokens n t) = skipn m tokens.
Proof.
  induction tokens as [| x tokens IH]; intros n m Hlt; [reflexivity |].
  destruct m as [| m]; [lia |].
  destruct n as [| n]; cbn [array_set skipn]; [reflexivity |].
  apply IH. lia.
Qed.

(** [push_token] stores at index [n], below the capacity as long as the
    loop condition holds. *)
Lemma push_token_frame (s : ct_state) (i : input_t) (rb : ringbuf_t)
  (t : token_t) (hp ntoken : Z) :
  0 <= ct_n s < ntoken ->
  skipn (Z.to_nat ntoken) (ct_tokens (push_token s i rb t hp))
  = skipn (Z.to_nat ntoken) (ct_tokens s)
  /\ ct_n (push_token s i rb t hp) = ct_n s + 1.
Proof.
  intros Hn. unfold push_token. cbn [ct_tokens ct_n].
  split; [apply array_set_skipn; lia | reflexivity].
Qed.

(** A turn of the loop of [collect_tokens], entered with [0 <= n < ntoken],
    leaves the entries from index [ntoken] on alone. *)
Lemma collect_tokens_body_frame (ntoken : Z) (fuel : nat) (s : ct_state) :
  0 <= ct_n s < ntoken ->
  match collect_tokens_body fuel s with
  | None => True
  | Some (Continue s') =>
      0 <= ct_n s'
      /\ skipn (Z.to_nat ntoken) (ct_tokens s')
         = skipn (Z.to_nat ntoken) (ct_tokens s)
  | Some (Return r s') =>
      (r = -1 \/ 0 <= r <= ntoken)
      /\ skipn (Z.to_nat ntoken) (ct_tokens s')
         = skipn (Z.to_nat ntoken) (ct_tokens s)
  end.
Proof.
  intros Hn.
  assert (Hpush : forall i rb t hp,
            skipn (Z.to_nat ntoken) (ct_tokens (push_token s i rb t hp))
            = skipn (Z.to_nat ntoken) (ct_tokens s))
    by (intros; apply push_token_frame; exact Hn).
  unfold collect_tokens_body.
  destruct (input_read (ct_in s)) as [ch i1].
  destruct (ch_eqb ch ";").
  { destruct (ringbuf_save (ct_rb s) ";" 1) as [v rb1].
    split; [right; lia | apply Hpush]. }
  destruct (ch_eqb ch "#").
  { destruct (input_discard_line fuel i1); [| exact I].
    split; [apply Hn | reflexivity]. }
  destruct (ch_eqb ch " " || ch_eqb ch TAB)%bool.
  { destruct (input_discard_whitespace fuel i1); [| exact I].
    split; [apply Hn | reflexivity]. }
  destruct (ch_eqb ch NEWLINE).
  { split; [apply Hn | reflexivity]. }
  destruct (is_open ch).
  { destruct (input_discard_block fuel i1 ch) as [[r i2] |]; [| exact I].
    destruct (negb (r =? 0)).
    { split; [left; reflexivity | reflexivity]. }
    match goal with
    | |- context [if ?b then Some (Continue _) else _] =>
        destruct b eqn:Hattr
    end.
    { rewrite !andb_true_iff in Hattr.
      destruct Hattr as [[[_ Hpos] _] _]. apply Z.ltb_lt in Hpos.
      cbn [ct_n ct_tokens]. split; [lia | reflexivity]. }
    match goal with
    | |- context [ringbuf_save (ct_rb s) ?v 1] =>
        destruct (ringbuf_save (ct_rb s) v 1) as [p rb1];
        destruct (String.eqb v "(")
    end.
    { split; [cbn [push_token ct_n]; lia | apply Hpush]. }
    match goal with
    | |- context [if ?b then _ else _] => destruct b
    end.
    - split; [right; cbn [push_token ct_n]; lia | apply Hpush].
    - split; [cbn [push_token ct_n]; lia | apply Hpush]. }
  destruct (ch_eqb ch NUL).
  { split; [right; cbn [with_input ct_n]; lia | reflexivity]. }
  destruct (WORD_CHAR ch).
  { destruct (input_collect_word _ _) as [[v i3] rb1].
    destruct v as [| off].
    - split; [left; reflexivity | reflexivity].
    - split; [cbn [push_token ct_n]; lia | apply Hpush]. }
  destruct (ch_eqb ch "=").
  { destruct (ringbuf_save (ct_rb s) "=" 1) as [v rb1].
    split; [cbn [push_token ct_n]; lia | apply Hpush]. }
  destruct (ch_eqb ch "*").
  { split; [apply Hn | reflexivity]. }
  split; [apply Hn | reflexivity].
Qed.

Lemma collect_tokens_loop_frame (fuel : nat) :
  forall (ntoken : Z) (s s' : ct_state) (r : Z),
  0 <= ct_n s ->
  collect_tokens_loop fuel ntoken s = Some (r, s') ->
  (r = -1 \/ 0 <= r <= ntoken)
  /\ skipn (Z.to_nat ntoken) (ct_tokens s')
     = skipn (Z.to_nat ntoken) (ct_tokens s).
Proof.
  induction fuel as [| fuel IH]; intros ntoken s s' r Hn Hrun;
    [discriminate Hrun |].
  cbn [collect_tokens_loop] in Hrun.
  destruct (ct_n s <? ntoken) eqn:Hlt.
  - apply Z.ltb_lt in Hlt.
    pose proof (collect_tokens_body_frame ntoken fuel s (conj Hn Hlt))
      as Hbody.
    destruct (collect_tokens_body fuel s) as [[r0 s0 | s0] |];
      [| | discriminate Hrun].
    + injection Hrun as <- <-. exact Hbody.
    + destruct Hbody as [Hn0 Hframe].
      destruct (IH ntoken s0 s' r Hn0 Hrun) as [Hr Hframe'].
      split; [exact Hr | rewrite Hframe'; exact Hframe].
  - injection Hrun as <- <-. split; [left; reflexivity | reflexivity].
Qed.

(** X12.  [collect_tokens] returns -1 or a count between 0 and the capacity
    [ntoken], and it leaves every entry of the caller's array from index
    [ntoken] on as it was, whatever the array holds there: no token is
    written beyond the capacity. *)
Theorem collect_tokens_stays_in_bounds (fuel : nat) (i : input_t)
  (rb : ringbuf_t) (tokens : list token_t) (ntoken : Z) (out : string)
  (r : Z) (s : ct_state) :
  collect_tokens fuel i rb tokens ntoken out = Some (r, s) ->
  (r = -1 \/ 0 <= r <= ntoken)
  /\ skipn (Z.to_nat ntoken) (ct_tokens s) = skipn (Z.to_nat ntoken) tokens.
Proof.
  intros Hrun. unfold collect_tokens in Hrun.
  apply (collect_tokens_loop_frame fuel ntoken (mk_ct i rb tokens 0 0 out));
    [cbn [ct_n]; lia | exact Hrun].
Qed.

(** A call with capacity 3 on an array of 8 entries: the unit [a = b = c;]
    overflows the capacity, the call fails and the five entries behind the
    capacity are as they were. *)
Lemma collect_tokens_stays_in_bounds_witness :
  fst crowded_call = -1
  /\ (-1 = -1 \/ 0 <= -1 <= 3)
  /\ skipn (Z.to_nat 3) (ct_tokens (snd crowded_call))
     = skipn (Z.to_nat 3) (repeat (mk_token TOKEN_OTHER NULL) 8).
Proof.
  split; [vm_compute; reflexivity |].
  apply (collect_tokens_stays_in_bounds
           100 (input_init (list_ascii_of_string "a = b = c;")) ringbuf_init
           (repeat (mk_token TOKEN_OTHER NULL) 8) 3 "").
  vm_compute. reflexivity.
Defined.

(** X13.  A unit that [collect_tokens] returns is made of Block, Word and
    Assign tokens, with a Semicolon token at most at its very end; every
    token has a value that is not [NULL], and no token of another kind
    (Double-Quoted, Single-Quoted, Colon, Other) is ever produced. *)
Theorem collect_tokens_unit_shape (fuel : nat) (i : input_t)
  (rb : ringbuf_t) (tokens : list token_t) (ntoken : Z) (out : string)
  (r : Z) (s : ct_state) :
  ntoken <= Z.of_nat (List.length tokens) ->
  collect_tokens fuel i rb tokens ntoken out = Some (r, s) ->
  0 <= r ->
  unit_shape (firstn (Z.to_nat r) (ct_tokens s))
  /\ Forall (fun t =>
               (tk_type t = TOKEN_BLOCK \/ tk_type t = TOKEN_WORD
                \/ tk_type t = TOKEN_ASSIGN \/ tk_type t = TOKEN_SEMICOLON)
               /\ tk_value t <> NULL)
            (firstn (Z.to_nat r) (ct_tokens s)).
Proof.
  intros Hsize Hrun Hr.
  destruct (collect_tokens_inv fuel i rb tokens ntoken out r s Hsize Hrun)
    as [_ [-> | [_ Hshape]]]; [lia |].
  split; [exact Hshape |].
  destruct Hshape as (body & tail & -> & Hbody & Htail).
  apply Forall_app. split.
  - apply (Forall_impl _ (P := inner_token)); [| exact Hbody].
    intros t [Hk Hv]. split; [tauto | exact Hv].
  - destruct Htail as [-> | [off ->]]; [constructor |].
    constructor; [| constructor].
    cbn. split; [tauto | discriminate].
Qed.

Lemma collect_tokens_unit_shape_witness :
  fst (first_call 100 (scan_init "int a = b;")) = 5
  /\ unit_shape
       (firstn (Z.to_nat 5)
               (ct_tokens (snd (first_call 100 (scan_init "int a = b;"))))).
Proof.
  split; [vm_compute; reflexivity |].
  apply (collect_tokens_unit_shape
           100 (input_init (list_ascii_of_string "int a = b;")) ringbuf_init
           (repeat no_token (Z.to_nat MAX_TOKENS)) MAX_TOKENS "" 5).
  - vm_compute. discriminate.
  - vm_compute. reflexivity.
  - lia.
Defined.

(** * Further properties of the recognizer *)

(** X14.  [symbol_from_tokens] finds a symbol only in a unit of at least 3
    tokens whose first token is a Word other than [typedef] and [static]:
    shorter units, units that start with a block, an assignment or a
    semicolon, type definitions and static declarations yield [NULL]. *)
Theorem symbol_needs_a_declaration (mem : list ascii)
  (tokens : list token_t) (ntoken : Z) :
  symbol_from_tokens mem tokens ntoken <> NULL ->
  2 < ntoken /\ starts_declaration mem tokens.
Proof.
  rewrite symbol_from_tokens_unfold. cbv zeta. intros Hsym.
  destruct (token_type_eqb (tk_type (array_get tokens 0)) TOKEN_WORD)
    eqn:Hword; cbn [negb] in Hsym; [| congruence].
  destruct (MATCHING_TOKEN mem tokens 0 TOKEN_WORD "typedef") eqn:Ht;
    cbn [orb] in Hsym; [congruence |].
  destruct (MATCHING_TOKEN mem tokens 0 TOKEN_WORD "static") eqn:Hs;
    [congruence |].
  split.
  - destruct (Z.ltb_spec 2 ntoken) as [Hlt | Hge]; [exact Hlt | exfalso].
    replace (2 <? ntoken - 1) with false in Hsym
      by (symmetry; apply Z.ltb_ge; lia).
    replace (1 <? ntoken - 1) with false in Hsym
      by (symmetry; apply Z.ltb_ge; lia).
    cbn [andb] in Hsym. congruence.
  - apply token_type_eqb_true in Hword.
    unfold starts_declaration, is_type, token_text.
    split; [exact Hword |].
    unfold MATCHING_TOKEN in Ht, Hs.
    apply token_type_eqb_true in Hword. rewrite Hword in Ht, Hs.
    cbn [andb String.eqb orb] in Ht, Hs.
    split; intros Heq; rewrite Heq in *; discriminate.
Qed.

Lemma symbol_needs_a_declaration_witness :
  symbol_from_tokens (unit_mem "int g_counter = 0;")
                     (unit_tokens "int g_counter = 0;")
                     (unit_count "int g_counter = 0;") <> NULL
  /\ 2 < unit_count "int g_counter = 0;"
  /\ starts_declaration (unit_mem "int g_counter = 0;")
                        (unit_tokens "int g_counter = 0;").
Proof.
  assert (H : symbol_from_tokens (unit_mem "int g_counter = 0;")
                                 (unit_tokens "int g_counter = 0;")
                                 (unit_count "int g_counter = 0;") <> NULL)
    by by_computation.
  exact (conj H (symbol_needs_a_declaration _ _ _ H)).
Defined.

(** X15.  The array form of the assignment rule: in a unit whose first
    token is a Word other than [typedef] and [static] and which the
    prototype rule does not match, when the last Assign token follows a "["
    block that follows a Word, [symbol_from_tokens] returns the value of
    that Word. *)
Theorem array_assignment_rule (mem : list ascii) (tokens : list token_t)
  (ntoken j : Z) :
  starts_declaration mem tokens ->
  ~ prototype_tail mem tokens ntoken ->
  last_assign tokens ntoken j ->
  1 < j ->
  is_block mem tokens (j - 1) "[" ->
  is_type tokens (j - 2) TOKEN_WORD ->
  symbol_from_tokens mem tokens ntoken = tk_value (array_get tokens (j - 2)).
Proof.
  intros Hstart Hproto Hlast Hj Hblock Hword.
  rewrite symbol_from_tokens_unfold. cbv zeta.
  destruct (starts_declaration_passes mem tokens Hstart) as [-> ->].
  rewrite <- prototype_test in Hproto.
  apply not_true_is_false in Hproto. rewrite Hproto.
  destruct (has_assign_spec mem tokens ntoken)
    as [[_ Hnone] | (j' & Hlast' & Heq)].
  - exfalso. destruct Hlast as (Hr & Hty & _). exact (Hnone j Hr Hty).
  - rewrite (last_assign_unique tokens ntoken j' j Hlast' Hlast) in Heq.
    rewrite Heq.
    replace (1 + j - 1) with j by lia.
    destruct Hlast as (Hr & _).
    rewrite (MATCHING_TOKEN_other mem tokens (j - 1) TOKEN_WORD TOKEN_BLOCK)
      by (try discriminate; exact (proj1 Hblock)).
    apply (MATCHING_TOKEN_text mem) in Hblock. rewrite Hblock.
    apply (MATCHING_TOKEN_any mem) in Hword. rewrite Hword.
    replace (1 <? ntoken - 1) with true by (symmetry; apply Z.ltb_lt; lia).
    replace (1 + j =? 0) with false by (symmetry; apply Z.eqb_neq; lia).
    replace (1 <? j) with true by (symmetry; apply Z.ltb_lt; lia).
    rewrite !andb_false_r. reflexivity.
Qed.

Lemma array_assignment_rule_witness :
  last_assign (unit_tokens "int table[10] = {0};")
              (unit_count "int table[10] = {0};") 3
  /\ token_text (unit_mem "int table[10] = {0};")
                (unit_tokens "int table[10] = {0};") (3 - 2) = "table"
  /\ symbol_from_tokens (unit_mem "int table[10] = {0};")
                        (unit_tokens "int table[10] = {0};")
                        (unit_count "int table[10] = {0};")
     = tk_value (array_get (unit_tokens "int table[10] = {0};") (3 - 2)).
Proof.
  assert (Hl : last_assign (unit_tokens "int table[10] = {0};")
                           (unit_count "int table[10] = {0};") 3).
  { split; [vm_compute; split; [discriminate | reflexivity] |].
    split; [vm_compute; reflexivity |].
    change (unit_count "int table[10] = {0};") with 6.
    intros j' Hj'.
    assert (Hc : j' = 4 \/ j' = 5) by lia.
    destruct Hc as [-> | ->]; vm_compute; discriminate. }
  split; [exact Hl |]. split; [vm_compute; reflexivity |].
  apply array_assignment_rule.
  - split; [| split]; by_computation.
  - intros (_ & Hw & _). vm_compute in Hw. discriminate Hw.
  - exact Hl.
  - lia.
  - split; by_computation.
  - by_computation.
Defined.

(** X16.  A unit without Assign token that does not end in a Semicolon
    yields no symbol.  This is the case of every function definition that
    [collect_tokens] cuts off at the body: [int f(void) { ... }] is the unit
    [int f ( {] and its name is not collected. *)
Theorem no_symbol_without_semicolon_or_assign (mem : list ascii)
  (tokens : list token_t) (ntoken : Z) :
  (forall j, 0 <= j < ntoken -> ~ is_type tokens j TOKEN_ASSIGN) ->
  ~ is_type tokens (ntoken - 1) TOKEN_SEMICOLON ->
  symbol_from_tokens mem tokens ntoken = NULL.
Proof.
  intros Hnone Hsemi.
  rewrite symbol_from_tokens_unfold. cbv zeta.
  assert (Hs : MATCHING_TOKEN mem tokens (ntoken - 1) TOKEN_SEMICOLON ""
               = false).
  { apply not_true_is_false. intro H.
    apply MATCHING_TOKEN_any in H. exact (Hsemi H). }
  assert (Ha : has_assign (unit_flags mem tokens ntoken) = 0).
  { destruct (has_assign_spec mem tokens ntoken)
      as [[H0 _] | (j & (Hj & Hty & _) & _)]; [exact H0 |].
    exfalso. exact (Hnone j Hj Hty). }
  rewrite Hs, Ha.
  cbn [Z.eqb negb andb]. rewrite !andb_false_r.
  repeat match goal with
         | |- (if ?b then _ else _) = _ => destruct b; try reflexivity
         end.
Qed.

Lemma no_symbol_without_semicolon_or_assign_witness :
  recognize "int f(void) { return 1; }"
  = ([(TOKEN_WORD, "int"); (TOKEN_WORD, "f"); (TOKEN_BLOCK, "(");
      (TOKEN_BLOCK, "{")], None)
  /\ symbol_from_tokens (unit_mem "int f(void) { return 1; }")
                        (unit_tokens "int f(void) { return 1; }")
                        (unit_count "int f(void) { return 1; }") = NULL.
Proof.
  split; [vm_compute; reflexivity |].
  apply no_symbol_without_semicolon_or_assign.
  - change (unit_count "int f(void) { return 1; }") with 4.
    intros j Hj Hb.
    assert (Hc : j = 0 \/ j = 1 \/ j = 2 \/ j = 3) by lia.
    destruct Hc as [-> | [-> | [-> | ->]]]; vm_compute in Hb; discriminate Hb.
  - intro Hb. vm_compute in Hb. discriminate Hb.
Defined.

(** * Further properties of the symbol table, the scan and the output *)

Lemma symtab_add_In (st : symtab_t) (sym x : string) :
  In x (symtab_add st sym) <-> x = sym \/ In x st.
Proof.
  unfold symtab_add.
  destruct (symtab_has st sym) eqn:E.
  - apply symtab_has_In in E.
    split; [tauto |]. intros [-> | H]; assumption.
  - rewrite in_app_iff. cbn. intuition congruence.
Qed.

(** X17.  After [symtab_add] the table holds the name added and the names
    it held, and nothing else; the search of the name added succeeds, and
    the table has grown by one entry at most. *)
Theorem symtab_add_membership (st : symtab_t) (sym x : string) :
  (In x (symtab_add st sym) <-> x = sym \/ In x st)
  /\ symtab_has (symtab_add st sym) sym = true
  /\ (List.length st <= List.length (symtab_add st sym)
                     <= S (List.length st))%nat.
Proof.
  split; [apply symtab_add_In |].
  unfold symtab_add.
  destruct (symtab_has st sym) eqn:E.
  - split; [exact E | lia].
  - split.
    + rewrite symtab_has_app. cbn. rewrite String.eqb_refl.
      apply orb_true_r.
    + rewrite length_app. cbn. lia.
Qed.

Lemma symtab_add_all_app (a b : list string) (st : symtab_t) :
  symtab_add_all (symtab_add_all st a) b = symtab_add_all st (a ++ b).
Proof. unfold symtab_add_all. symmetry. apply fold_left_app. Qed.

Lemma symtab_add_all_In (names : list string) : forall (st : symtab_t) x,
  In x (symtab_add_all st names) <-> In x st \/ In x names.
Proof.
  induction names as [| s names IH]; intros st x; cbn.
  - tauto.
  - change (fold_left symtab_add names (symtab_add st s))
      with (symtab_add_all (symtab_add st s) names).
    rewrite IH.
    rewrite symtab_add_In.
    intuition congruence.
Qed.

(** The loop of [extract_symbols] does nothing to the table but add, one
    after the other, names that pass the pattern. *)
Lemma extract_loop_adds (fuel : nat) (re : option regex_t) :
  forall (sc sc' : scan_t) (st st' : symtab_t),
  extract_loop fuel re sc st = Some (st', sc') ->
  exists added, st' = symtab_add_all st added /\ all_match re added.
Proof.
  induction fuel as [| fuel IH]; intros sc sc' st st' H; [discriminate H |].
  cbn [extract_loop] in H.
  destruct (collect_tokens fuel (sc_in sc) (sc_rb sc) (sc_tokens sc)
                           MAX_TOKENS (sc_stdout sc))
    as [[ntoken s] |]; [| discriminate H].
  destruct (0 <? ntoken).
  - apply IH in H. destruct H as (added & -> & Hall).
    destruct (symbol_from_tokens _ _ _) eqn:Hsym;
      [exists added; auto |].
    rewrite <- Hsym in *.
    destruct re as [matcher |].
    + destruct (matcher _) eqn:Hm; [| exists added; auto].
      eexists (_ :: added). split; [reflexivity |].
      constructor; [exact Hm | exact Hall].
    + eexists (_ :: added). split; [reflexivity | exact I].
  - injection H as <- _. exists []. split; [reflexivity |].
    destruct re; [constructor | exact I].
Qed.

Lemma extract_symbols_adds (fuel : nat) (text : string) (st st' : symtab_t)
  (re : option regex_t) (out out' : string) :
  extract_symbols fuel text st re out = Some (st', out') ->
  exists added, st' = symtab_add_all st added /\ all_match re added.
Proof.
  unfold extract_symbols. intros H.
  destruct (extract_loop fuel re _ st) as [[st1 sc1] |] eqn:E;
    [| discriminate H].
  injection H as <- _. exact (extract_loop_adds fuel re _ _ _ _ E).
Qed.

Lemma all_match_app (re : option regex_t) (a b : list string) :
  all_match re a -> all_match re b -> all_match re (a ++ b).
Proof.
  destruct re; cbn; [| auto].
  intros Ha Hb. apply Forall_app. auto.
Qed.

Lemma extract_all_adds (fuel : nat) (re : option regex_t)
  (texts : list string) :
  forall (st st' : symtab_t) (out out' : string),
  extract_all fuel texts st re out = Some (st', out') ->
  exists added, st' = symtab_add_all st added /\ all_match re added.
Proof.
  induction texts as [| text texts IH]; intros st st' out out' H;
    cbn [extract_all] in H.
  - injection H as <- _. exists []. split; [reflexivity |].
    destruct re; [constructor | exact I].
  - destruct (extract_symbols fuel text st re out) as [[st1 out1] |] eqn:E;
      [| discriminate H].
    destruct (extract_symbols_adds _ _ _ _ _ _ _ E) as (a & -> & Ha).
    destruct (IH _ _ _ _ H) as (b & -> & Hb).
    exists (a ++ b)%list. split; [apply symtab_add_all_app |].
    apply all_match_app; assumption.
Qed.

(** X18.  The scan of a file keeps the table it is given as a prefix of
    the table it returns, and a table without repetitions stays without
    repetitions. *)
Theorem scan_keeps_the_table (fuel : nat) (text : string)
  (st st' : symtab_t) (re : option regex_t) (out out' : string) :
  extract_symbols fuel text st re out = Some (st', out') ->
  (exists more, st' = (st ++ more)%list)
  /\ (NoDup st -> NoDup st').
Proof.
  intros H.
  destruct (extract_symbols_adds _ _ _ _ _ _ _ H) as (added & -> & _).
  split.
  - rewrite symtab_add_all_spec. eexists. reflexivity.
  - apply symtab_add_all_NoDup.
Qed.

Lemma scan_keeps_the_table_witness :
  (exists more, ["old"; "x"; "f"] = (["old"; "x"] ++ more)%list)
  /\ (NoDup ["old"; "x"] -> NoDup ["old"; "x"; "f"]).
Proof.
  apply (scan_keeps_the_table 100 "extern int x; int f(void);"
           ["old"; "x"] ["old"; "x"; "f"] None "" "").
  vm_compute. reflexivity.
Defined.

(** X19.  With a pattern, the scan of a file adds only names that the
    pattern matches: every name of the table returned was in the table
    given or passes the matcher. *)
Theorem scan_honours_the_pattern (fuel : nat) (text : string)
  (st st' : symtab_t) (matcher : regex_t) (out out' : string) (x : string) :
  extract_symbols fuel text st (Some matcher) out = Some (st', out') ->
  In x st' ->
  In x st \/ matcher x = true.
Proof.
  intros H Hx.
  destruct (extract_symbols_adds _ _ _ _ _ _ _ H) as (added & -> & Hall).
  apply symtab_add_all_In in Hx. destruct Hx as [Hx | Hx]; [left; exact Hx |].
  right. cbn in Hall. rewrite Forall_forall in Hall. exact (Hall x Hx).
Qed.

Lemma scan_honours_the_pattern_witness :
  extract_symbols 100 "int mrp_a; int b; int mrp_c(void);" symtab_init
                  (Some (String.prefix "mrp_")) ""
  = Some (["mrp_a"; "mrp_c"], "")
  /\ (In "mrp_c" symtab_init \/ String.prefix "mrp_" "mrp_c" = true).
Proof.
  assert (H : extract_symbols 100 "int mrp_a; int b; int mrp_c(void);"
                symtab_init (Some (String.prefix "mrp_")) ""
              = Some (["mrp_a"; "mrp_c"], ""))
    by (vm_compute; reflexivity).
  split; [exact H |].
  apply (scan_honours_the_pattern _ _ _ _ _ _ _ "mrp_c" H).
  right. left. reflexivity.
Defined.

Lemma symtab_dump_plain (st : symtab_t) (out : string) :
  symtab_dump st 0 out = (out ++ unlines st)%string.
Proof.
  unfold symtab_dump. cbn [Z.eqb].
  change nl with (EmptyString ++ nl)%string.
  rewrite dump_syms_lines.
  f_equal. f_equal.
  induction st as [| s st IH]; cbn [map]; [reflexivity |].
  rewrite IH. cbn [append]. rewrite append_empty_r. reflexivity.
Qed.

(** X20.  In plain mode [symtab_dump] appends one line per symbol, in table
    order, and nothing else; the dump of the empty table appends nothing,
    and the dump of a table is the dump of its parts one after the other. *)
Theorem plain_dump_lists_the_table (st st' : symtab_t) (out : string) :
  symtab_dump st 0 out = (out ++ unlines st)%string
  /\ symtab_dump [] 0 out = out
  /\ symtab_dump (st ++ st')%list 0 out
     = symtab_dump st' 0 (symtab_dump st 0 out).
Proof.
  rewrite !symtab_dump_plain.
  split; [reflexivity |].
  split; [apply append_empty_r |].
  rewrite unlines_app, append_assoc. reflexivity.
Qed.

(** X21.  A run of [main] that comes back writes to the output file the
    dump of a table without repetitions in which every name passes the
    pattern, if one is given; in plain mode the file is that list of names,
    one per line. *)
Theorem main_writes_unique_matching_names (fuel : nat)
  (texts : list string) (re : option regex_t) (gnuld : Z)
  (stdout file : string) :
  main fuel texts re gnuld true = Some (stdout, Some file) ->
  exists names,
    NoDup names /\ all_match re names
    /\ file = symtab_dump names gnuld ""
    /\ (gnuld = 0 -> file = unlines names).
Proof.
  unfold main. intros H.
  destruct (extract_all fuel texts symtab_init re "") as [[st out] |] eqn:E;
    [| discriminate H].
  injection H as _ <-.
  destruct (extract_all_adds _ _ _ _ _ _ _ E) as (added & -> & Hall).
  exists (symtab_add_all symtab_init added).
  split; [apply symtab_add_all_NoDup; constructor |].
  split.
  - destruct re as [matcher |]; [| exact I]. cbn in Hall |- *.
    apply Forall_forall. intros x Hx.
    apply symtab_add_all_In in Hx. destruct Hx as [[] | Hx].
    rewrite Forall_forall in Hall. exact (Hall x Hx).
  - split; [reflexivity |]. intros ->.
    apply symtab_dump_plain.
Qed.

Lemma main_writes_unique_matching_names_witness :
  main 100 ["int a; int f(void);"; "extern int a; int b = 1;"] None 0 true
  = Some ("", Some (unlines ["a"; "f"; "b"]))
  /\ exists names,
       NoDup names /\ all_match None names
       /\ unlines ["a"; "f"; "b"] = symtab_dump names 0 ""
       /\ (0 = 0 -> unlines ["a"; "f"; "b"] = unlines names).
Proof.
  assert (H : main 100 ["int a; int f(void);"; "extern int a; int b = 1;"]
                   None 0 true
              = Some ("", Some (unlines ["a"; "f"; "b"])))
    by (vm_compute; reflexivity).
  split; [exact H |].
  exact (main_writes_unique_matching_names _ _ _ _ _ _ H).
Defined.

(** * Termination of the scan on text without brackets *)

Lemma take_skip_app (p : ascii -> bool) (l : list ascii) :
  l = (take_while p l ++ skip_while p l)%list.
Proof.
  induction l as [| c l IH]; cbn; [reflexivity |].
  destruct (p c); cbn; congruence.
Qed.

Lemma take_while_all (p : ascii -> bool) (l : list ascii) :
  Forall (fun c => p c = true) (take_while p l).
Proof.
  induction l as [| c l IH]; cbn; [constructor |].
  destruct (p c) eqn:Hc; constructor; assumption.
Qed.

Lemma skip_while_hd (p : ascii -> bool) (l : list ascii) :
  p NUL = false -> p (hd NUL (skip_while p l)) = false.
Proof.
  intros Hn. induction l as [| c l IH]; cbn; [exact Hn |].
  destruct (p c) eqn:Hc; [exact IH | exact Hc].
Qed.

Lemma after_newline_suffix (l : list ascii) :
  exists pre, l = (pre ++ after_newline l)%list.
Proof.
  induction l as [| c l [pre IH]]; cbn.
  - exists []. reflexivity.
  - destruct (ch_eqb c NEWLINE).
    + exists [c]. reflexivity.
    + exists (c :: pre). cbn. congruence.
Qed.

Lemma flat_text_suffix (pre l : list ascii) :
  flat_text (pre ++ l) -> flat_text l.
Proof.
  intros [Hn Ho]. split.
  - intro H. apply Hn. apply in_or_app. right. exact H.
  - apply Forall_app in Ho. tauto.
Qed.

Lemma Forall_firstn_chars (P : ascii -> Prop) (k : nat) :
  forall l : list ascii, Forall P l -> Forall P (firstn k l).
Proof.
  induction k as [| k IH]; intros l H; [constructor |].
  destruct l as [| c l]; [constructor |].
  apply Forall_cons_iff in H. destruct H as [Hc H].
  cbn. constructor; [exact Hc | apply IH, H].
Qed.

(** The word case of a turn of [collect_tokens]: [input_collect_word] comes
    back, with a word or without, behind at least one character. *)
Lemma input_collect_word_progress (i : input_t) (rb : ringbuf_t)
  (c : ascii) (l : list ascii) :
  wf_input i -> pending i = c :: l -> ~ In NUL (c :: l) ->
  WORD_CHAR c = true ->
  exists v i' rb' pre,
    input_collect_word i rb = (v, i', rb')
    /\ wf_input i'
    /\ pre <> [] /\ c :: l = (pre ++ pending i')%list.
Proof.
  intros Hwf Hp Hnul Hc.
  pose (w := take_while WORD_CHAR (c :: l)).
  pose (rest := skip_while WORD_CHAR (c :: l)).
  assert (Hsplit : c :: l = (w ++ rest)%list) by apply take_skip_app.
  assert (Hw : Forall (fun x => WORD_CHAR x = true) w) by apply take_while_all.
  assert (Hne : w <> []).
  { subst w. cbn. rewrite Hc. discriminate. }
  unfold input_collect_word.
  destruct (Nat.ltb_spec (List.length w) (Z.to_nat (MAX_TOKEN - 1)))
    as [Hshort | Hlong].
  - destruct (collect_word_loop_run rb w (Z.to_nat (MAX_TOKEN - 1)) i
                                    EmptyString 0 rest)
      as (i' & Hrun & Hwf' & Hp'); try assumption.
    + rewrite Hp. exact Hsplit.
    + apply skip_while_hd. reflexivity.
    + intro H. apply Hnul. rewrite Hsplit. apply in_or_app. right. exact H.
    + rewrite Hrun. do 3 eexists. exists w.
      split; [reflexivity |]. split; [exact Hwf' |]. split; [exact Hne |].
      rewrite Hp'. exact Hsplit.
  - destruct (collect_word_loop_long rb (Z.to_nat (MAX_TOKEN - 1)) i
                                     EmptyString 0)
      as (i' & Hrun & Hwf' & Hp'); try assumption.
    + rewrite Hp, Hsplit, length_app. lia.
    + rewrite Hp, Hsplit, firstn_app.
      replace (Z.to_nat (MAX_TOKEN - 1) - List.length w)%nat with 0%nat
        by lia.
      rewrite firstn_O, app_nil_r. apply Forall_firstn_chars, Hw.
    + rewrite Hrun. do 3 eexists.
      exists (firstn (Z.to_nat (MAX_TOKEN - 1)) (c :: l)).
      split; [reflexivity |]. split; [exact Hwf' |].
      split.
      * assert (Hk : exists k, Z.to_nat (MAX_TOKEN - 1) = S k)
          by (exists (Z.to_nat (MAX_TOKEN - 2)); unfold MAX_TOKEN; lia).
        destruct Hk as [k ->]. discriminate.
      * rewrite Hp', Hp. symmetry. apply firstn_skipn.
Qed.

Lemma skip_while_suffix (p : ascii -> bool) (l : list ascii) :
  exists pre, l = (pre ++ skip_while p l)%list.
Proof. exists (take_while p l). apply take_skip_app. Qed.

(** A turn of the loop of [collect_tokens] on flat text comes back, given
    fuel beyond the number of pending bytes; when it goes round, at least
    one byte is consumed. *)
Lemma collect_tokens_body_progress (fuel : nat) (s : ct_state) :
  wf_input (ct_in s) -> flat_text (pending (ct_in s)) ->
  (List.length (pending (ct_in s)) < fuel)%nat ->
  exists res, collect_tokens_body fuel s = Some res
    /\ match res with
       | Return r s' =>
           wf_input (ct_in s')
           /\ exists pre,
                pending (ct_in s) = (pre ++ pending (ct_in s'))%list
                /\ (pre = [] -> r = ct_n s)
       | Continue s' =>
           wf_input (ct_in s')
           /\ exists pre,
                pre <> []
                /\ pending (ct_in s) = (pre ++ pending (ct_in s'))%list
       end.
Proof.
  intros Hwf Hflat Hlen. pose proof Hflat as [Hnul Hopen].
  unfold collect_tokens_body.
  destruct (input_read_cases (ct_in s) Hwf)
    as (i1 & Hwf1 & Hn1 & [(Hp & -> & Hp1) | (c & l & Hp & -> & Hp1)]).
  - change (ch_eqb NUL ";") with false. change (ch_eqb NUL "#") with false.
    change (ch_eqb NUL " " || ch_eqb NUL TAB)%bool with false.
    change (ch_eqb NUL NEWLINE) with false.
    change (is_open NUL) with false. change (ch_eqb NUL NUL) with true.
    cbv iota. eexists. split; [reflexivity |].
    cbn [with_input ct_in]. split; [exact Hwf1 |].
    exists []. rewrite Hp, Hp1. auto.
  - rewrite Hp in *. cbn [List.length] in Hlen.
    assert (Hl : flat_text l) by (apply (flat_text_suffix [c]); exact Hflat).
    assert (Hone : forall s', ct_in s' = i1 ->
              wf_input (ct_in s')
              /\ exists pre, pre <> []
                   /\ c :: l = (pre ++ pending (ct_in s'))%list).
    { intros s' ->. split; [exact Hwf1 |].
      exists [c]. rewrite Hp1. split; [discriminate | reflexivity]. }
    destruct (ch_eqb c ";").
    { destruct (ringbuf_save (ct_rb s) ";" 1) as [v rb1].
      eexists. split; [reflexivity |].
      cbn [push_token ct_in]. split; [exact Hwf1 |].
      exists [c]. rewrite Hp1. split; [reflexivity | discriminate]. }
    destruct (ch_eqb c "#").
    { destruct (input_discard_line_pending fuel i1 Hwf1)
        as (i2 & -> & Hwf2 & _ & Hp2);
        [rewrite Hp1; apply Hl | rewrite Hp1; lia |].
      eexists. split; [reflexivity |].
      cbn [with_input ct_in]. split; [exact Hwf2 |].
      destruct (after_newline_suffix l) as [pre Hpre].
      exists (c :: pre). rewrite Hp2, Hp1.
      split; [discriminate | cbn; congruence]. }
    destruct (ch_eqb c " " || ch_eqb c TAB)%bool.
    { destruct (input_discard_whitespace_pending fuel i1 Hwf1)
        as (i2 & -> & Hwf2 & Hp2);
        [rewrite Hp1; apply Hl | rewrite Hp1; lia |].
      eexists. split; [reflexivity |].
      cbn [with_input ct_in]. split; [exact Hwf2 |].
      destruct (skip_while_suffix is_space l) as [pre Hpre].
      exists (c :: pre). rewrite Hp2, Hp1.
      split; [discriminate | cbn; congruence]. }
    destruct (ch_eqb c NEWLINE).
    { eexists. split; [reflexivity |]. apply Hone. reflexivity. }
    replace (is_open c) with false
      by (symmetry; apply Forall_cons_iff in Hopen; apply Hopen).
    replace (ch_eqb c NUL) with false
      by (symmetry; apply ch_eqb_neq; intros ->; apply Hnul; left;
          reflexivity).
    destruct (WORD_CHAR c) eqn:Hc.
    { destruct (input_pushback_pending i1 c Hwf1 Hn1) as [Hwf2 Hp2].
      replace (ch_eqb c NUL) with false in Hp2
        by (symmetry; apply ch_eqb_neq; intros ->; apply Hnul; left;
            reflexivity).
      rewrite Hp1 in Hp2. cbn [app] in Hp2.
      destruct (input_collect_word_progress
                  (snd (input_pushback i1 c)) (ct_rb s) c l Hwf2 Hp2 Hnul Hc)
        as (v & i3 & rb1 & pre & -> & Hwf3 & Hne & Hpre).
      destruct v as [| off]; eexists; (split; [reflexivity |]);
        cbn [push_token ct_in]; (split; [exact Hwf3 |]); exists pre.
      - split; [exact Hpre | intros ->; contradiction].
      - split; [exact Hne | exact Hpre]. }
    destruct (ch_eqb c "=").
    { destruct (ringbuf_save (ct_rb s) "=" 1) as [v rb1].
      eexists. split; [reflexivity |]. apply Hone. reflexivity. }
    destruct (ch_eqb c "*").
    { eexists. split; [reflexivity |]. apply Hone. reflexivity. }
    eexists. split; [reflexivity |]. apply Hone. reflexivity.
Qed.

(** The loop of [collect_tokens] on flat text comes back; unless bytes
    were consumed it returns -1 or no more than the count it started
    with. *)
Lemma collect_tokens_loop_returns (fuel : nat) :
  forall (ntoken : Z) (s : ct_state),
  wf_input (ct_in s) -> flat_text (pending (ct_in s)) ->
  (List.length (pending (ct_in s)) + 1 < fuel)%nat ->
  exists r s',
    collect_tokens_loop fuel ntoken s = Some (r, s')
    /\ wf_input (ct_in s')
    /\ exists pre,
         pending (ct_in s) = (pre ++ pending (ct_in s'))%list
         /\ (pre = [] -> r = -1 \/ r <= ct_n s).
Proof.
  induction fuel as [| fuel IH]; intros ntoken s Hwf Hflat Hlen; [lia |].
  cbn [collect_tokens_loop].
  destruct (ct_n s <? ntoken) eqn:Hlt.
  - destruct (collect_tokens_body_progress fuel s Hwf Hflat)
      as ([r s' | s'] & -> & Hres); [lia | |].
    + destruct Hres as (Hwf' & pre & Hpre & Hr).
      exists r, s'. split; [reflexivity |]. split; [exact Hwf' |].
      exists pre. split; [exact Hpre |]. intros H. rewrite (Hr H). lia.
    + destruct Hres as (Hwf' & pre & Hne & Hpre).
      assert (Hshort : (List.length (pending (ct_in s'))
                        < List.length (pending (ct_in s)))%nat).
      { rewrite Hpre, length_app. destruct pre; [contradiction |].
        cbn [List.length]. lia. }
      destruct (IH ntoken s' Hwf')
        as (r & s'' & Hrun & Hwf'' & pre' & Hpre' & _).
      * rewrite Hpre in Hflat. exact (flat_text_suffix _ _ Hflat).
      * lia.
      * exists r, s''. split; [exact Hrun |]. split; [exact Hwf'' |].
        exists (pre ++ pre')%list.
        split; [rewrite Hpre, Hpre', app_assoc; reflexivity |].
        intros H. apply app_eq_nil in H. destruct H as [H _]. contradiction.
  - exists (-1), s. split; [reflexivity |]. split; [exact Hwf |].
    exists []. split; [reflexivity |]. intros _. left. reflexivity.
Qed.

(** The loop of [extract_symbols] on flat text comes back. *)
Lemma extract_loop_returns (fuel : nat) (re : option regex_t) :
  forall (sc : scan_t) (st : symtab_t),
  wf_input (sc_in sc) -> flat_text (pending (sc_in sc)) ->
  (List.length (pending (sc_in sc)) + 2 < fuel)%nat ->
  exists st' sc', extract_loop fuel re sc st = Some (st', sc').
Proof.
  induction fuel as [| fuel IH]; intros sc st Hwf Hflat Hlen; [lia |].
  cbn [extract_loop]. unfold collect_tokens.
  destruct (collect_tokens_loop_returns
              fuel MAX_TOKENS
              (mk_ct (sc_in sc) (sc_rb sc) (sc_tokens sc) 0 0 (sc_stdout sc)))
    as (r & s' & -> & Hwf' & pre & Hpre & Hr);
    [exact Hwf | exact Hflat | cbn [ct_in]; lia |].
  cbn [ct_in ct_n] in Hpre, Hr.
  destruct (0 <? r) eqn:Hpos; [| eexists; eexists; reflexivity].
  apply Z.ltb_lt in Hpos.
  apply IH; cbn [sc_in].
  - exact Hwf'.
  - rewrite Hpre in Hflat. exact (flat_text_suffix _ _ Hflat).
  - rewrite Hpre, length_app in Hlen.
    destruct pre as [| c pre]; [| cbn [List.length] in Hlen; lia].
    destruct (Hr eq_refl); lia.
Qed.

(** X22.  On a stream without 0 bytes and without opening brackets every
    loop of the tokenizer ends: given fuel beyond the number of pending
    bytes, [collect_tokens] returns, and it returns a positive count only
    after it has consumed at least one byte. *)
Theorem collect_tokens_returns_on_flat_text (fuel : nat) (i : input_t)
  (rb : ringbuf_t) (tokens : list token_t) (ntoken : Z) (out : string) :
  wf_input i -> flat_text (pending i) ->
  (List.length (pending i) + 1 < fuel)%nat ->
  exists r s,
    collect_tokens fuel i rb tokens ntoken out = Some (r, s)
    /\ wf_input (ct_in s)
    /\ exists pre,
         pending i = (pre ++ pending (ct_in s))%list
         /\ (0 < r -> pre <> []).
Proof.
  intros Hwf Hflat Hlen. unfold collect_tokens.
  destruct (collect_tokens_loop_returns
              fuel ntoken (mk_ct i rb tokens 0 0 out) Hwf Hflat Hlen)
    as (r & s & Hrun & Hwf' & pre & Hpre & Hr).
  exists r, s. split; [exact Hrun |]. split; [exact Hwf' |].
  exists pre. split; [exact Hpre |].
  intros Hpos ->. cbn [ct_n] in Hr. destruct (Hr eq_refl); lia.
Qed.

Lemma collect_tokens_returns_on_flat_text_witness :
  exists r s,
    collect_tokens 20 (input_init (list_ascii_of_string "extern int x;"))
                   ringbuf_init (repeat no_token (Z.to_nat MAX_TOKENS))
                   MAX_TOKENS "" = Some (r, s)
    /\ wf_input (ct_in s)
    /\ exists pre,
         pending (input_init (list_ascii_of_string "extern int x;"))
         = (pre ++ pending (ct_in s))%list
         /\ (0 < r -> pre <> []).
Proof.
  apply collect_tokens_returns_on_flat_text.
  - apply input_init_pending.
  - split; [vm_compute; intuition discriminate |].
    vm_compute. repeat constructor.
  - vm_compute. lia.
Defined.

(** X23.  The scan of a text without 0 bytes and without opening brackets
    always ends: given fuel beyond the length of the text,
    [extract_symbols] returns a table. *)
Theorem scan_returns_on_flat_text (fuel : nat) (text : string)
  (st : symtab_t) (re : option regex_t) (out : string) :
  flat_text (list_ascii_of_string text) ->
  (String.length text + 2 < fuel)%nat ->
  exists st' out', extract_symbols fuel text st re out = Some (st', out').
Proof.
  intros Hflat Hlen. unfold extract_symbols.
  destruct (input_init_pending (list_ascii_of_string text)) as [Hwf Hp].
  destruct (extract_loop_returns
              fuel re
              (mk_scan (input_init (list_ascii_of_string text)) ringbuf_init
                       (repeat no_token (Z.to_nat MAX_TOKENS)) out) st)
    as (st' & sc' & ->); cbn [sc_in].
  - exact Hwf.
  - rewrite Hp. exact Hflat.
  - rewrite Hp, list_ascii_length. exact Hlen.
  - eexists. eexists. reflexivity.
Qed.

Lemma scan_returns_on_flat_text_witness :
  exists st' out',
    extract_symbols 40 "extern int x; int y = 3, z;" symtab_init None ""
    = Some (st', out').
Proof.
  apply scan_returns_on_flat_text.
  - split; [vm_compute; intuition discriminate |].
    vm_compute. repeat constructor.
  - vm_compute. lia.
Defined.

(** * The reuse of the ring buffer and of the token array *)

(** X24.  When the room behind the write offset does not suffice, the save
    starts over at offset 0: the pointer returned is the start of the
    buffer, the token is read back there, and so whatever token was saved
    at the start of the buffer before is overwritten. *)
Theorem ringbuf_save_wraps_to_the_start (rb : ringbuf_t) (token : string) :
  wf_ringbuf rb ->
  nul_free token ->
  Z.of_nat (String.length token) <= RINGBUF_SIZE - 2 ->
  RINGBUF_SIZE - 1 - rb_wr rb < Z.of_nat (String.length token) + 1 ->
  fst (ringbuf_save rb token (Z.of_nat (String.length token))) = Arena 0
  /\ cstr (rb_buf (snd (ringbuf_save rb token
                                     (Z.of_nat (String.length token)))))
          (Arena 0) = token
  /\ rb_wr (snd (ringbuf_save rb token (Z.of_nat (String.length token))))
     = Z.of_nat (String.length token) + 1.
Proof.
  intros Hwf Hnul Hfit Hwrap.
  destruct (ringbuf_save_spec rb token (Z.of_nat (String.length token))
              Hwf (or_introl eq_refl) Hfit) as (Hsave & _ & _).
  cbv zeta in Hsave.
  replace (RINGBUF_SIZE - 1 - rb_wr rb <? Z.of_nat (String.length token) + 1)
    with true in Hsave by (symmetry; apply Z.ltb_lt; lia).
  rewrite Hsave. cbn [fst snd rb_buf rb_wr cstr].
  split; [reflexivity |]. split; [| lia].
  destruct Hwf as [Hlen _].
  rewrite store_skipn by (cbn; lia).
  rewrite <- app_assoc. cbn [app].
  apply read_cstr_app. exact Hnul.
Qed.

Lemma ringbuf_save_wraps_to_the_start_witness :
  cstr (rb_buf (snd (ringbuf_save
                       (mk_ringbuf (rb_buf (snd (ringbuf_save ringbuf_init
                                                              "first" 5)))
                                   (RINGBUF_SIZE - 3))
                       "later" (Z.of_nat (String.length "later")))))
       (Arena 0)
  = "later".
Proof.
  apply (ringbuf_save_wraps_to_the_start
           (mk_ringbuf (rb_buf (snd (ringbuf_save ringbuf_init "first" 5)))
                       (RINGBUF_SIZE - 3)) "later").
  - destruct (ringbuf_save_round_trip ringbuf_init "first" 5 ringbuf_init_wf)
      as (off & rb' & Hsave & [Hlen _] & _).
    + unfold nul_free. cbn. intuition discriminate.
    + left. reflexivity.
    + cbn. unfold RINGBUF_SIZE. lia.
    + rewrite Hsave. split; [exact Hlen |].
      cbn [rb_wr]. unfold RINGBUF_SIZE. lia.
  - unfold nul_free. cbn. intuition discriminate.
  - cbn. unfold RINGBUF_SIZE. lia.
  - cbn. unfold RINGBUF_SIZE. lia.
Defined.

Lemma array_get_firstn (tokens tokens' : list token_t) (ntoken j : Z) :
  firstn (Z.to_nat ntoken) tokens = firstn (Z.to_nat ntoken) tokens' ->
  0 <= j < ntoken ->
  array_get tokens j = array_get tokens' j.
Proof.
  intros Heq Hj. unfold array_get.
  assert (Hlt : (Z.to_nat j <? Z.to_nat ntoken)%nat = true)
    by (apply Nat.ltb_lt; lia).
  pose proof (nth_firstn (Z.to_nat ntoken) tokens (Z.to_nat j) no_token)
    as H1.
  pose proof (nth_firstn (Z.to_nat ntoken) tokens' (Z.to_nat j) no_token)
    as H2.
  rewrite Hlt in H1, H2. rewrite <- H1, <- H2, Heq. reflexivity.
Qed.

Lemma MATCHING_TOKEN_firstn (mem : list ascii) (tokens tokens' : list token_t)
  (ntoken j : Z) (type : token_type_t) (val : string) :
  firstn (Z.to_nat ntoken) tokens = firstn (Z.to_nat ntoken) tokens' ->
  0 <= j < ntoken ->
  MATCHING_TOKEN mem tokens j type val = MATCHING_TOKEN mem tokens' j type val.
Proof.
  intros Heq Hj. unfold MATCHING_TOKEN.
  rewrite (array_get_firstn tokens tokens' ntoken j Heq Hj). reflexivity.
Qed.

Lemma scan_flags_firstn (mem : list ascii) (tokens tokens' : list token_t)
  (ntoken : Z) (k : nat) :
  firstn (Z.to_nat ntoken) tokens = firstn (Z.to_nat ntoken) tokens' ->
  forall (i : Z) (f : flags_t),
  0 <= i -> i + Z.of_nat k <= ntoken ->
  scan_flags mem tokens k i f = scan_flags mem tokens' k i f.
Proof.
  intros Heq. induction k as [| k IH]; intros i f Hi Hk; [reflexivity |].
  cbn [scan_flags]. rewrite IH by lia. f_equal.
  unfold scan_token.
  rewrite !(MATCHING_TOKEN_firstn mem tokens tokens' ntoken i) by
    (assumption || lia).
  reflexivity.
Qed.

Lemma andb_guard (g a b : bool) :
  (g = true -> a = b) -> (g && a)%bool = (g && b)%bool.
Proof. destruct g; cbn; auto. Qed.

(** X25.  [symbol_from_tokens] looks at the first [ntoken] entries of the
    array only: what earlier units have left in the entries behind them
    has no influence on the symbol found. *)
Theorem symbol_ignores_stale_entries (mem : list ascii)
  (tokens tokens' : list token_t) (ntoken : Z) :
  0 < ntoken ->
  firstn (Z.to_nat ntoken) tokens = firstn (Z.to_nat ntoken) tokens' ->
  symbol_from_tokens mem tokens ntoken = symbol_from_tokens mem tokens' ntoken.
Proof.
  intros Hn Heq.
  assert (HV : forall j, 0 <= j < ntoken ->
                 array_get tokens j = array_get tokens' j)
    by (intros j Hj; exact (array_get_firstn _ _ _ _ Heq Hj)).
  assert (HM : forall j type val, 0 <= j < ntoken ->
                 MATCHING_TOKEN mem tokens j type val
                 = MATCHING_TOKEN mem tokens' j type val)
    by (intros j type val Hj;
        exact (MATCHING_TOKEN_firstn _ _ _ _ _ _ _ Heq Hj)).
  assert (Hflags : unit_flags mem tokens ntoken
                   = unit_flags mem tokens' ntoken)
    by (apply (scan_flags_firstn mem tokens tokens' ntoken); [exact Heq | |];
        lia).
  assert (Hi : (has_assign (unit_flags mem tokens' ntoken) =? 0) = false ->
               0 <= has_assign (unit_flags mem tokens' ntoken) - 1 < ntoken).
  { intros Hne. apply Z.eqb_neq in Hne.
    destruct (has_assign_spec mem tokens' ntoken)
      as [[H0 _] | (j & (Hj & _) & Hj')]; [contradiction | lia]. }
  rewrite !symbol_from_tokens_unfold. cbv zeta.
  rewrite Hflags, (HV 0), !(HM 0) by lia.
  destruct (negb _); [reflexivity |].
  destruct (_ || _)%bool; [reflexivity |].
  match goal with
  | |- (if ?c then _ else _) = (if ?c' then _ else _) =>
      assert (Hc : c = c');
        [apply andb_guard; intros Hg; apply Z.ltb_lt in Hg;
         rewrite !HM by lia; reflexivity
        | rewrite Hc; destruct c' eqn:Hc']
  end.
  { apply andb_true_iff in Hc'. destruct Hc' as [Hg _].
    apply Z.ltb_lt in Hg. rewrite HV by lia. reflexivity. }
  clear Hc Hc'.
  match goal with
  | |- (if ?c then _ else _) = (if ?c' then _ else _) =>
      assert (Hc : c = c');
        [apply andb_guard; intros Hg;
         apply andb_true_iff in Hg; destruct Hg as [_ Hg];
         apply negb_true_iff in Hg; specialize (Hi Hg);
         apply andb_guard; intros Hp; apply Z.ltb_lt in Hp;
         rewrite !HM by lia; reflexivity
        | rewrite Hc; destruct c' eqn:Hc']
  end.
  { rewrite !andb_true_iff in Hc'. destruct Hc' as [[_ Hg] [Hp _]].
    apply negb_true_iff in Hg. specialize (Hi Hg).
    apply Z.ltb_lt in Hp. rewrite HV by lia. reflexivity. }
  clear Hc Hc'.
  match goal with
  | |- (if ?c then _ else _) = (if ?c' then _ else _) =>
      assert (Hc : c = c');
        [apply andb_guard; intros Hg;
         apply andb_true_iff in Hg; destruct Hg as [_ Hg];
         apply negb_true_iff in Hg; specialize (Hi Hg);
         rewrite <- !andb_assoc;
         apply andb_guard; intros Hp; apply Z.ltb_lt in Hp;
         rewrite !HM by lia; reflexivity
        | rewrite Hc; destruct c' eqn:Hc']
  end.
  { rewrite !andb_true_iff in Hc'. destruct Hc' as [[_ Hg] [[Hp _] _]].
    apply negb_true_iff in Hg. specialize (Hi Hg).
    apply Z.ltb_lt in Hp. rewrite HV by lia. reflexivity. }
  clear Hc Hc'.
  match goal with
  | |- (if ?c then _ else _) = (if ?c' then _ else _) =>
      assert (Hc : c = c');
        [rewrite <- !andb_assoc;
         apply andb_guard; intros Hg; apply Z.ltb_lt in Hg;
         rewrite !HM by lia; reflexivity
        | rewrite Hc; destruct c' eqn:Hc']
  end; [| reflexivity].
  rewrite !andb_true_iff in Hc'. destruct Hc' as [[[Hg _] _] _].
  apply Z.ltb_lt in Hg. rewrite HV by lia. reflexivity.
Qed.

Lemma symbol_ignores_stale_entries_witness :
  symbol_from_tokens (unit_mem "extern int x;")
                     (unit_tokens "extern int x;") 4
  = symbol_from_tokens (unit_mem "extern int x;")
                       (firstn 4 (unit_tokens "extern int x;")
                        ++ repeat (mk_token TOKEN_ASSIGN (Arena 0)) 60) 4.
Proof.
  apply symbol_ignores_stale_entries; [lia |].
  vm_compute. reflexivity.
Defined.

(** * The end of a scan *)

(** ** Fuel

    A loop that comes back with some fuel comes back with the same result
    with more. *)








(** ** The failures that [collect_tokens] reports *)













(** ** A block left open is no failure

    The turns and the units that lead to a call that never returns make the
    scan never return. *)





(** * Units that the ring buffer holds whole *)

(** ** The stream only moves forward *)

Lemma input_read_suffix (i : input_t) :
  wf_input i ->
  wf_input (snd (input_read i)) /\ in_nxt (snd (input_read i)) = NUL
  /\ exists c, pending i = (c ++ pending (snd (input_read i)))%list.
Proof.
  intros Hwf.
  destruct (input_read_pending i Hwf) as (_ & Htl & Hwf1 & Hn1).
  split; [exact Hwf1 |]. split; [exact Hn1 |].
  rewrite Htl. destruct (pending i) as [| x l];
    [exists [] | exists [x]]; reflexivity.
Qed.

(** A character that was read and is pushed back. *)
Lemma read_pushback_suffix (i : input_t) :
  wf_input i ->
  wf_input (snd (input_pushback (snd (input_read i)) (fst (input_read i))))
  /\ (exists c,
        pending i
        = (c ++ pending (snd (input_pushback (snd (input_read i))
                                             (fst (input_read i)))))%list)
  /\ (fst (input_read i) <> NUL ->
      pending (snd (input_pushback (snd (input_read i)) (fst (input_read i))))
      = pending i).
Proof.
  intros Hwf.
  destruct (input_read_cases i Hwf)
    as (i1 & Hwf1 & Hn1 & [(Hp & Hread & Hp1) | (c & l & Hp & Hread & Hp1)]);
    rewrite Hread; cbn [fst snd];
    match goal with
    | |- context [input_pushback i1 ?ch] =>
        destruct (input_pushback_pending i1 ch Hwf1 Hn1) as [Hwf2 Hp2]
    end;
    rewrite Hp2, Hp1, Hp.
  - change (ch_eqb NUL NUL) with true. cbn [app].
    split; [exact Hwf2 |]. split; [exists []; reflexivity | reflexivity].
  - split; [exact Hwf2 |].
    destruct (ch_eqb c NUL) eqn:E; cbn [app].
    + split; [exists [c]; reflexivity |].
      apply ch_eqb_eq in E. intros H. contradiction.
    + split; [exists []; reflexivity | reflexivity].
Qed.

Lemma input_discard_whitespace_suffix (fuel : nat) :
  forall i i' : input_t,
  wf_input i -> input_discard_whitespace fuel i = Some i' ->
  wf_input i' /\ exists c, pending i = (c ++ pending i')%list.
Proof.
  induction fuel as [| fuel IH]; intros i i' Hwf H; [discriminate H |].
  cbn [input_discard_whitespace] in H.
  pose proof (input_read_suffix i Hwf) as (Hwf1 & _ & c1 & Hc1).
  pose proof (read_pushback_suffix i Hwf) as (Hwf2 & Hc2 & _).
  destruct (input_read i) as [ch i1]. cbn [fst snd] in *.
  destruct (is_space ch).
  - destruct (IH i1 i' Hwf1 H) as (Hwf' & c & Hc).
    split; [exact Hwf' |]. exists (c1 ++ c)%list.
    rewrite Hc1, Hc, app_assoc. reflexivity.
  - injection H as <-. auto.
Qed.

Lemma input_discard_line_suffix (fuel : nat) :
  forall i i' : input_t,
  wf_input i -> input_discard_line fuel i = Some i' ->
  wf_input i' /\ exists c, pending i = (c ++ pending i')%list.
Proof.
  induction fuel as [| fuel IH]; intros i i' Hwf H; [discriminate H |].
  cbn [input_discard_line] in H.
  pose proof (input_read_suffix i Hwf) as (Hwf1 & _ & c1 & Hc1).
  destruct (input_read i) as [ch i1]. cbn [fst snd] in *.
  destruct (negb (ch_eqb ch NEWLINE) && negb (ch_eqb ch NUL))%bool.
  - destruct (IH i1 i' Hwf1 H) as (Hwf' & c & Hc).
    split; [exact Hwf' |]. exists (c1 ++ c)%list.
    rewrite Hc1, Hc, app_assoc. reflexivity.
  - injection H as <-. split; [exact Hwf1 |]. exists c1. exact Hc1.
Qed.

Lemma input_discard_quoted_suffix (fuel : nat) :
  forall (i i' : input_t) (quote : ascii) (r : Z),
  wf_input i -> input_discard_quoted fuel i quote = Some (r, i') ->
  wf_input i' /\ exists c, pending i = (c ++ pending i')%list.
Proof.
  induction fuel as [| fuel IH]; intros i i' quote r Hwf H;
    [discriminate H |].
  cbn [input_discard_quoted] in H.
  pose proof (input_read_suffix i Hwf) as (Hwf1 & _ & c1 & Hc1).
  destruct (input_read i) as [ch i1]. cbn [fst snd] in *.
  destruct (negb (ch_eqb ch quote) && negb (ch_eqb ch NUL))%bool.
  - destruct (ch_eqb ch BACKSLASH).
    + pose proof (input_read_suffix i1 Hwf1) as (Hwf2 & _ & c2 & Hc2).
      destruct (IH _ i' quote r Hwf2 H) as (Hwf' & c & Hc).
      split; [exact Hwf' |]. exists (c1 ++ c2 ++ c)%list.
      rewrite Hc1, Hc2, Hc, !app_assoc. reflexivity.
    + destruct (IH i1 i' quote r Hwf1 H) as (Hwf' & c & Hc).
      split; [exact Hwf' |]. exists (c1 ++ c)%list.
      rewrite Hc1, Hc, app_assoc. reflexivity.
  - assert (Hi : i' = i1)
      by (destruct (negb (ch_eqb ch quote)); injection H as _ <-;
          reflexivity).
    subst i'. split; [exact Hwf1 |]. exists c1. exact Hc1.
Qed.

Lemma discard_block_loop_suffix (fuel : nat) :
  forall (i i' : input_t) (beg end_ : ascii) (level r : Z),
  wf_input i -> discard_block_loop fuel i beg end_ level = Some (r, i') ->
  wf_input i' /\ exists c, pending i = (c ++ pending i')%list.
Proof.
  induction fuel as [| fuel IH]; intros i i' beg end_ level r Hwf H;
    [discriminate H |].
  cbn [discard_block_loop] in H.
  destruct (0 <? level).
  - pose proof (input_read_suffix i Hwf) as (Hwf1 & _ & c1 & Hc1).
    destruct (input_read i) as [ch i1]. cbn [fst snd] in *.
    assert (Hrec : forall level',
              discard_block_loop fuel i1 beg end_ level' = Some (r, i') ->
              wf_input i' /\ exists c, pending i = (c ++ pending i')%list).
    { intros level' H'.
      destruct (IH i1 i' beg end_ level' r Hwf1 H') as (Hwf' & c & Hc).
      split; [exact Hwf' |]. exists (c1 ++ c)%list.
      rewrite Hc1, Hc, app_assoc. reflexivity. }
    destruct (ch_eqb ch DQUOTE || ch_eqb ch SQUOTE)%bool.
    + destruct (input_discard_quoted fuel i1 ch) as [[q i2] |] eqn:Hq;
        [| discriminate H].
      destruct (input_discard_quoted_suffix fuel i1 i2 ch q Hwf1 Hq)
        as (Hwf2 & c2 & Hc2).
      destruct (negb (q =? 0)).
      * injection H as _ <-. split; [exact Hwf2 |].
        exists (c1 ++ c2)%list. rewrite Hc1, Hc2, app_assoc. reflexivity.
      * destruct (IH i2 i' beg end_ level r Hwf2 H) as (Hwf' & c & Hc).
        split; [exact Hwf' |]. exists (c1 ++ c2 ++ c)%list.
        rewrite Hc1, Hc2, Hc, !app_assoc. reflexivity.
    + destruct (ch_eqb ch end_); [exact (Hrec _ H) |].
      destruct (ch_eqb ch beg); exact (Hrec _ H).
  - assert (Hi : i' = i)
      by (destruct (level =? 0); injection H as _ <-; reflexivity).
    subst i'. split; [exact Hwf |]. exists []. reflexivity.
Qed.

Lemma input_discard_block_suffix (fuel : nat) (i i' : input_t)
  (beg : ascii) (r : Z) :
  wf_input i -> input_discard_block fuel i beg = Some (r, i') ->
  wf_input i' /\ exists c, pending i = (c ++ pending i')%list.
Proof.
  unfold input_discard_block. intros Hwf H.
  destruct (block_end beg) as [end_ |].
  - exact (discard_block_loop_suffix fuel i i' beg end_ 1 r Hwf H).
  - injection H as _ <-. split; [exact Hwf |]. exists []. reflexivity.
Qed.

(** ** Words *)

Lemma ringbuf_save_null (rb : ringbuf_t) (token : string) (len : Z) :
  fst (ringbuf_save rb token len) = NULL ->
  snd (ringbuf_save rb token len) = rb.
Proof.
  unfold ringbuf_save. cbv zeta.
  destruct (_ <? _ + 1); cbv iota beta;
    destruct (_ <=? _); cbn [fst snd]; (discriminate || reflexivity).
Qed.

(** The loop of [input_collect_word] consumes a run [w] of word characters
    and at most one byte more, and it saves the word it was entered with,
    extended by [w], unless it gives up. *)
Lemma collect_word_loop_effect (rb : ringbuf_t) (k : nat) :
  forall (i i' : input_t) (word : string) (n : Z) (v : ptr)
         (rb' : ringbuf_t),
  wf_input i ->
  collect_word_loop k i rb word n = (v, i', rb') ->
  wf_input i'
  /\ exists w b,
       Forall (fun c => WORD_CHAR c = true) w
       /\ pending i = (w ++ b ++ pending i')%list
       /\ (k <> O -> WORD_CHAR (hd NUL (pending i)) = true -> w <> [])
       /\ ((v = NULL /\ rb' = rb)
           \/ (v, rb')
              = ringbuf_save rb (word ++ string_of_list_ascii w)
                             (n + Z.of_nat (List.length w))).
Proof.
  induction k as [| k IH]; intros i i' word n v rb' Hwf H.
  - cbn in H. injection H as <- <- <-.
    split; [exact Hwf |]. exists [], []. split; [constructor |].
    split; [reflexivity |]. split; [intros H; contradiction |].
    left; auto.
  - cbn [collect_word_loop] in H.
    pose proof (input_read_suffix i Hwf) as (Hwf1 & _ & _).
    pose proof (read_pushback_suffix i Hwf) as (Hwf2 & [c2 Hc2] & _).
    destruct (input_read_cases i Hwf)
      as (i1 & _ & _ & [(Hp & Hread & Hp1) | (c & l & Hp & Hread & Hp1)]);
      rewrite Hread in *; cbn [fst snd] in *.
    + change (WORD_CHAR NUL) with false in H. cbv iota in H.
      destruct (ringbuf_save rb word n) as [v0 rb0] eqn:Hsave.
      injection H as <- <- <-.
      split; [exact Hwf2 |]. exists [], c2.
      split; [constructor |]. split; [exact Hc2 |].
      split; [rewrite Hp; intros _ H; discriminate H |].
      right. cbn [string_of_list_ascii List.length].
      rewrite append_empty_r, Z.add_0_r, Hsave. reflexivity.
    + destruct (WORD_CHAR c) eqn:Hc.
      * destruct (IH i1 i' _ _ v rb' Hwf1 H)
          as (Hwf' & w & b & Hw & Hpw & _ & Hres).
        split; [exact Hwf' |]. exists (c :: w), b.
        split; [constructor; assumption |].
        split; [rewrite Hp, <- Hp1, Hpw; reflexivity |].
        split; [intros _ _; discriminate |].
        destruct Hres as [Hres | Hres]; [left; exact Hres | right].
        rewrite Hres. cbn [string_of_list_ascii List.length].
        rewrite append_assoc. cbn [append].
        f_equal. lia.
      * destruct (ringbuf_save rb word n) as [v0 rb0] eqn:Hsave.
        injection H as <- <- <-.
        split; [exact Hwf2 |]. exists [], c2.
        split; [constructor |]. split; [exact Hc2 |].
        split; [rewrite Hp; cbn [hd]; intros _ H; congruence |].
        right. cbn [string_of_list_ascii List.length].
        rewrite append_empty_r, Z.add_0_r, Hsave. reflexivity.
Qed.

(** ** A turn of the tokenizer *)

Lemma collect_tokens_body_effect (fuel : nat) (s : ct_state)
  (flow : ct_flow) :
  wf_input (ct_in s) ->
  collect_tokens_body fuel s = Some flow ->
  match flow with
  | Continue s' => turn_effect s s'
  | Return r s' => r = -1 \/ (turn_effect s s' /\ r = ct_n s')
  end.
Proof.
  intros Hwf.
  assert (Hnone : forall (s' : ct_state) (c : list ascii),
            wf_input (ct_in s') ->
            pending (ct_in s) = (c ++ pending (ct_in s'))%list ->
            ct_rb s' = ct_rb s -> ct_tokens s' = ct_tokens s ->
            ct_n s' = ct_n s ->
            turn_effect s s').
  { intros s' c H1 H2 H3 H4 H5. split; [exact H1 |].
    exists c. split; [exact H2 |]. left. auto. }
  assert (Htok : forall (i' : input_t) (c : list ascii)
                        (type : token_type_t) (text : string) (hp : Z)
                        (v : ptr) (rb1 : ringbuf_t),
            ringbuf_save (ct_rb s) text (Z.of_nat (String.length text))
            = (v, rb1) ->
            wf_input i' ->
            pending (ct_in s) = (c ++ pending i')%list ->
            token_class type text ->
            (String.length text <= List.length c)%nat ->
            (type = TOKEN_WORD -> occurs_in text c) ->
            turn_effect s (push_token s i' rb1 (mk_token type v) hp)).
  { intros i' c type text hp v rb1 Hsave H1 H2 H3 H4 H5.
    split; [exact H1 |]. exists c. split; [exact H2 |].
    right. exists type, text. rewrite Hsave. cbn [fst snd push_token
      ct_rb ct_tokens ct_n]. auto 10. }
  unfold collect_tokens_body.
  pose proof (read_pushback_suffix (ct_in s) Hwf) as (Hwf2 & _ & Hback).
  destruct (input_read_cases (ct_in s) Hwf)
    as (i1 & Hwf1 & Hn1 & [(Hp & Hread & Hp1) | (c & l & Hp & Hread & Hp1)]);
    rewrite Hread in *; cbn [fst snd] in *.
  - change (ch_eqb NUL ";") with false. change (ch_eqb NUL "#") with false.
    change (ch_eqb NUL " " || ch_eqb NUL TAB)%bool with false.
    change (ch_eqb NUL NEWLINE) with false.
    change (is_open NUL) with false. change (ch_eqb NUL NUL) with true.
    cbv iota. intros [= <-]. right. split; [| reflexivity].
    apply (Hnone _ []); try reflexivity; [exact Hwf1 |].
    cbn [with_input ct_in]. rewrite Hp, Hp1. reflexivity.
  - assert (Hone : pending (ct_in s) = ([c] ++ pending i1)%list)
      by (rewrite Hp, <- Hp1; reflexivity).
    destruct (ch_eqb c ";").
    { destruct (ringbuf_save (ct_rb s) ";" 1) as [v rb1] eqn:Hsave.
      intros [= <-]. right. split; [| reflexivity].
      apply (Htok i1 [c] TOKEN_SEMICOLON ";"); try assumption;
        [reflexivity | cbn; lia | discriminate]. }
    destruct (ch_eqb c "#").
    { destruct (input_discard_line fuel i1) as [i2 |] eqn:E;
        [| discriminate].
      intros [= <-].
      destruct (input_discard_line_suffix fuel i1 i2 Hwf1 E)
        as (Hwf' & c' & Hc').
      apply (Hnone _ (c :: c')); try reflexivity; [exact Hwf' |].
      cbn [with_input ct_in]. rewrite Hp, <- Hp1, Hc'. reflexivity. }
    destruct (ch_eqb c " " || ch_eqb c TAB)%bool.
    { destruct (input_discard_whitespace fuel i1) as [i2 |] eqn:E;
        [| discriminate].
      intros [= <-].
      destruct (input_discard_whitespace_suffix fuel i1 i2 Hwf1 E)
        as (Hwf' & c' & Hc').
      apply (Hnone _ (c :: c')); try reflexivity; [exact Hwf' |].
      cbn [with_input ct_in]. rewrite Hp, <- Hp1, Hc'. reflexivity. }
    destruct (ch_eqb c NEWLINE).
    { intros [= <-]. apply (Hnone _ [c]); try reflexivity; assumption. }
    destruct (is_open c).
    { destruct (input_discard_block fuel i1 c) as [[r i2] |] eqn:E;
        [| discriminate].
      destruct (input_discard_block_suffix fuel i1 i2 c r Hwf1 E)
        as (Hwf' & c' & Hc').
      assert (Hall : pending (ct_in s) = ((c :: c') ++ pending i2)%list)
        by (rewrite Hp, <- Hp1, Hc'; reflexivity).
      destruct (negb (r =? 0)); [intros [= <-]; left; reflexivity |].
      match goal with
      | |- context [if ?b then Some (Continue _) else _] =>
          destruct b eqn:Hattr
      end.
      { intros [= <-].
        rewrite !andb_true_iff in Hattr.
        destruct Hattr as [[[_ Hpos] _] _]. apply Z.ltb_lt in Hpos.
        split; [exact Hwf' |]. exists (c :: c').
        split; [exact Hall |]. left. cbn [ct_rb ct_tokens ct_n]. auto. }
      assert (Hblock : forall (v : string) (hp : Z) (p : ptr)
                              (rb1 : ringbuf_t),
                v = "{" \/ v = "[" \/ v = "(" ->
                ringbuf_save (ct_rb s) v 1 = (p, rb1) ->
                turn_effect s (push_token s i2 rb1 (mk_token TOKEN_BLOCK p)
                                          hp)).
      { intros v hp p rb1 Hv Hsave.
        apply (Htok i2 (c :: c') TOKEN_BLOCK v); try assumption.
        - destruct Hv as [-> | [-> | ->]]; exact Hsave.
        - cbn [token_class]. tauto.
        - destruct Hv as [-> | [-> | ->]]; cbn; lia.
        - discriminate. }
      destruct (ch_eqb c "{").
      { destruct (ringbuf_save (ct_rb s) "{" 1) as [p rb1] eqn:Hsave.
        change (String.eqb "{" "(") with false. cbv iota.
        change (String.eqb "{" "{") with true. cbn [andb].
        destruct (negb (ct_has_paren s =? 0)); intros [= <-].
        - right. split; [| reflexivity]. apply (Hblock "{"); auto.
        - apply (Hblock "{"); auto. }
      destruct (ch_eqb c "[").
      { destruct (ringbuf_save (ct_rb s) "[" 1) as [p rb1] eqn:Hsave.
        change (String.eqb "[" "(") with false. cbv iota.
        change (String.eqb "[" "{") with false. cbn [andb].
        intros [= <-]. apply (Hblock "["); auto. }
      destruct (ringbuf_save (ct_rb s) "(" 1) as [p rb1] eqn:Hsave.
      change (String.eqb "(" "(") with true. cbv iota.
      intros [= <-]. apply (Hblock "("); auto. }
    destruct (ch_eqb c NUL).
    { intros [= <-]. right. split; [| reflexivity].
      apply (Hnone _ [c]); try reflexivity; assumption. }
    destruct (WORD_CHAR c) eqn:Hc.
    { assert (Hnz : c <> NUL) by (apply WORD_CHAR_not_nul; exact Hc).
      specialize (Hback Hnz).
      unfold input_collect_word.
      destruct (collect_word_loop _ _ _ _ _) as [[v i3] rb1] eqn:Hloop.
      destruct (collect_word_loop_effect _ _ _ _ _ _ _ _ Hwf2 Hloop)
        as (Hwf3 & w & b & Hw & Hpw & Hne & Hres).
      destruct v as [| off]; intros [= <-]; [left; reflexivity |].
      destruct Hres as [[Hnull _] | Hres]; [discriminate Hnull |].
      cbn [append] in Hres. rewrite Z.add_0_l in Hres.
      assert (Hw0 : w <> []).
      { apply Hne; [unfold MAX_TOKEN; lia |].
        rewrite Hback, Hp. exact Hc. }
      apply (Htok i3 (w ++ b)%list TOKEN_WORD (string_of_list_ascii w)).
      - rewrite string_of_list_length. symmetry. exact Hres.
      - exact Hwf3.
      - rewrite <- Hback, Hpw, app_assoc. reflexivity.
      - split.
        + destruct w; [contradiction | discriminate].
        + rewrite list_ascii_of_string_of_list_ascii. exact Hw.
      - rewrite string_of_list_length, length_app. lia.
      - intros _. exists [], b.
        rewrite list_ascii_of_string_of_list_ascii. reflexivity. }
    destruct (ch_eqb c "=").
    { destruct (ringbuf_save (ct_rb s) "=" 1) as [v rb1] eqn:Hsave.
      intros [= <-].
      apply (Htok i1 [c] TOKEN_ASSIGN "="); try assumption;
        [reflexivity | cbn; lia | discriminate]. }
    destruct (ch_eqb c "*").
    { intros [= <-]. apply (Hnone _ [c]); try reflexivity; assumption. }
    intros [= <-]. apply (Hnone _ [c]); try reflexivity; assumption.
Qed.

(** ** Saving without starting over *)

Lemma ringbuf_save_in_place (rb : ringbuf_t) (token : string) :
  wf_ringbuf rb -> nul_free token ->
  rb_wr rb + Z.of_nat (String.length token) + 1 <= RINGBUF_SIZE - 1 ->
  fst (ringbuf_save rb token (Z.of_nat (String.length token)))
  = Arena (rb_wr rb)
  /\ wf_ringbuf (snd (ringbuf_save rb token (Z.of_nat (String.length token))))
  /\ rb_wr (snd (ringbuf_save rb token (Z.of_nat (String.length token))))
     = rb_wr rb + Z.of_nat (String.length token) + 1
  /\ cstr (rb_buf (snd (ringbuf_save rb token
                          (Z.of_nat (String.length token)))))
          (Arena (rb_wr rb)) = token
  /\ forall q : Z,
       0 <= q ->
       q + Z.of_nat (String.length (cstr (rb_buf rb) (Arena q))) < rb_wr rb ->
       cstr (rb_buf (snd (ringbuf_save rb token
                            (Z.of_nat (String.length token)))))
            (Arena q)
       = cstr (rb_buf rb) (Arena q).
Proof.
  intros Hwf Hnul Hroom.
  assert (Hfit : Z.of_nat (String.length token) <= RINGBUF_SIZE - 2)
    by (destruct Hwf as [_ Hwr]; lia).
  destruct (ringbuf_save_spec rb token (Z.of_nat (String.length token)) Hwf
              (or_introl eq_refl) Hfit) as (Hsave & _ & _).
  cbv zeta in Hsave.
  replace (RINGBUF_SIZE - 1 - rb_wr rb <? Z.of_nat (String.length token) + 1)
    with false in Hsave by (symmetry; apply Z.ltb_ge; lia).
  rewrite Hsave. cbn [fst snd rb_buf rb_wr].
  destruct Hwf as [Hlen Hwr]. unfold RINGBUF_SIZE in *.
  split; [reflexivity |].
  split.
  { split; cbn [rb_buf rb_wr].
    - rewrite store_length; [exact Hlen | lia |].
      rewrite length_app, list_ascii_length. cbn [List.length]. lia.
    - unfold RINGBUF_SIZE. lia. }
  split; [reflexivity |].
  split.
  { cbn [cstr].
    rewrite store_skipn by lia.
    rewrite <- app_assoc. cbn [app].
    apply read_cstr_app. exact Hnul. }
  intros q Hq Hend. cbn [cstr] in *.
  apply read_cstr_prefix with (n := (Z.to_nat (rb_wr rb) - Z.to_nat q)%nat);
    [| lia].
  rewrite !firstn_skipn_comm.
  replace (Z.to_nat q + (Z.to_nat (rb_wr rb) - Z.to_nat q))%nat
    with (Z.to_nat (rb_wr rb)) by lia.
  rewrite store_firstn by lia.
  reflexivity.
Qed.

Lemma is_name_nul_free (w : string) : is_name w -> nul_free w.
Proof.
  intros [_ Hall] Hin.
  rewrite Forall_forall in Hall. apply Hall in Hin. discriminate Hin.
Qed.

(** The texts of the tokens hold no 0 and at least one character. *)
Lemma token_class_text (type : token_type_t) (text : string) :
  token_class type text -> nul_free text /\ (1 <= String.length text)%nat.
Proof.
  destruct type; cbn [token_class]; try contradiction.
  - intros [-> | [-> | ->]]; (split; [| cbn; lia]);
      intros [H | []]; discriminate H.
  - intros H. split; [apply is_name_nul_free; exact H |].
    destruct H as [H _]. destruct text; [contradiction | cbn; lia].
  - intros ->. split; [| cbn; lia]. intros [H | []]; discriminate H.
  - intros ->. split; [| cbn; lia]. intros [H | []]; discriminate H.
Qed.

Lemma occurs_in_app (w : string) (a c b : list ascii) :
  occurs_in w c -> occurs_in w (a ++ c ++ b)%list.
Proof.
  intros (x & y & ->). exists (a ++ x)%list, (y ++ b)%list.
  rewrite <- !app_assoc. reflexivity.
Qed.

(** A token stays intact when the bytes below the write offset stay, the
    write offset does not go back and more bytes are consumed. *)
Lemma token_intact_kept (mem mem' : list ascii) (wr wr' : Z)
  (consumed c : list ascii) (t : token_t) :
  (forall q : Z, 0 <= q ->
     q + Z.of_nat (String.length (cstr mem (Arena q))) < wr ->
     cstr mem' (Arena q) = cstr mem (Arena q)) ->
  wr <= wr' ->
  token_intact mem wr consumed t ->
  token_intact mem' wr' (consumed ++ c)%list t.
Proof.
  intros Hkeep Hwr (off & Hv & Hoff & Hend & Hclass & Hword).
  exists off. unfold token_reads in *. rewrite Hv in *.
  rewrite (Hkeep off Hoff Hend).
  split; [reflexivity |]. split; [exact Hoff |]. split; [lia |].
  split; [exact Hclass |].
  intros Hty. exact (occurs_in_app _ [] consumed c (Hword Hty)).
Qed.

(** ** The unit stays intact *)

Lemma turn_keeps_unit_intact (size : nat) (wr0 ntoken : Z)
  (consumed : list ascii) (s s' : ct_state) :
  unit_intact size wr0 consumed s ->
  ct_n s < ntoken -> ntoken <= Z.of_nat size ->
  turn_effect s s' ->
  (forall c, pending (ct_in s) = (c ++ pending (ct_in s'))%list ->
     wr0 + 2 * (Z.of_nat (List.length consumed) + Z.of_nat (List.length c))
     <= RINGBUF_SIZE - 1) ->
  exists c,
    pending (ct_in s) = (c ++ pending (ct_in s'))%list
    /\ unit_intact size wr0 (consumed ++ c)%list s'.
Proof.
  intros (Hwf & Hrb & Hn & Hlen & Hwr & Hall) Hlt Hsize
         (Hwf' & c & Hc & Heff) Hroom.
  specialize (Hroom c Hc).
  exists c. split; [exact Hc |].
  unfold unit_intact. rewrite length_app, Nat2Z.inj_add.
  destruct Heff as [(Hrb' & Htok' & Hn') | (type & text & Hclass & Hshort
                                            & Hword & Hrb' & Htok' & Hn')].
  - rewrite Hrb', Htok'.
    split; [exact Hwf' |]. split; [exact Hrb |].
    split; [destruct Hn' as [-> | [-> ?]]; lia |].
    split; [exact Hlen |]. split; [lia |].
    apply (Forall_firstn_le _ _ (Z.to_nat (ct_n s)));
      [destruct Hn' as [-> | [-> ?]]; lia |].
    apply (Forall_impl _ (P := token_intact (rb_buf (ct_rb s))
                                 (rb_wr (ct_rb s)) consumed));
      [| exact Hall].
    intros t Ht.
    apply (token_intact_kept (rb_buf (ct_rb s)) _ (rb_wr (ct_rb s)));
      [auto | lia | exact Ht].
  - destruct (token_class_text type text Hclass) as [Hnul Hone].
    destruct (ringbuf_save_in_place (ct_rb s) text Hrb Hnul)
      as (Hptr & Hrb1 & Hwr1 & Hread & Hkeep); [lia |].
    rewrite Hrb', Htok', Hn', Hptr, Hwr1.
    split; [exact Hwf' |]. split; [exact Hrb1 |]. split; [lia |].
    split; [rewrite array_set_length; exact Hlen |]. split; [lia |].
    replace (Z.to_nat (ct_n s + 1)) with (S (Z.to_nat (ct_n s))) by lia.
    rewrite array_set_firstn by lia.
    apply Forall_app. split.
    + apply (Forall_impl _ (P := token_intact (rb_buf (ct_rb s))
                                   (rb_wr (ct_rb s)) consumed));
        [| exact Hall].
      intros t Ht.
      apply (token_intact_kept (rb_buf (ct_rb s)) _ (rb_wr (ct_rb s)));
        [exact Hkeep | lia | exact Ht].
    + constructor; [| constructor].
      exists (rb_wr (ct_rb s)). cbn [tk_value tk_type].
      unfold token_reads. cbn [tk_value tk_type]. rewrite Hread.
      split; [reflexivity |].
      split; [destruct Hrb as [_ Hr]; lia |]. split; [lia |].
      split; [exact Hclass |].
      intros Hty. rewrite <- (app_nil_r c).
      apply occurs_in_app, Hword, Hty.
Qed.

(** The loop of [collect_tokens] only consumes. *)
Lemma collect_tokens_loop_suffix (fuel : nat) :
  forall (ntoken : Z) (s s' : ct_state) (r : Z),
  wf_input (ct_in s) ->
  collect_tokens_loop fuel ntoken s = Some (r, s') ->
  0 <= r ->
  wf_input (ct_in s')
  /\ exists c, pending (ct_in s) = (c ++ pending (ct_in s'))%list.
Proof.
  induction fuel as [| fuel IH]; intros ntoken s s' r Hwf Hrun Hr;
    [discriminate Hrun |].
  cbn [collect_tokens_loop] in Hrun.
  destruct (ct_n s <? ntoken); [| injection Hrun as <- _; lia].
  destruct (collect_tokens_body fuel s) as [flow |] eqn:Hbody;
    [| discriminate Hrun].
  pose proof (collect_tokens_body_effect fuel s flow Hwf Hbody) as Heff.
  destruct flow as [r0 s0 | s0].
  - injection Hrun as <- <-.
    destruct Heff as [-> | [(Hwf' & c & Hc & _) _]]; [lia |].
    split; [exact Hwf' |]. exists c. exact Hc.
  - destruct Heff as (Hwf0 & c0 & Hc0 & _).
    destruct (IH ntoken s0 s' r Hwf0 Hrun Hr) as (Hwf' & c & Hc).
    split; [exact Hwf' |]. exists (c0 ++ c)%list.
    rewrite Hc0, Hc, app_assoc. reflexivity.
Qed.

Lemma collect_tokens_loop_intact (size : nat) (wr0 : Z) (fuel : nat) :
  forall (ntoken : Z) (s s' : ct_state) (r : Z) (consumed : list ascii),
  unit_intact size wr0 consumed s ->
  ntoken <= Z.of_nat size ->
  collect_tokens_loop fuel ntoken s = Some (r, s') ->
  0 <= r ->
  (forall c, pending (ct_in s) = (c ++ pending (ct_in s'))%list ->
     wr0 + 2 * (Z.of_nat (List.length consumed) + Z.of_nat (List.length c))
     <= RINGBUF_SIZE - 1) ->
  exists c,
    pending (ct_in s) = (c ++ pending (ct_in s'))%list
    /\ unit_intact size wr0 (consumed ++ c)%list s'
    /\ r = ct_n s'.
Proof.
  induction fuel as [| fuel IH];
    intros ntoken s s' r consumed Hinv Hsize Hrun Hr Hroom;
    [discriminate Hrun |].
  cbn [collect_tokens_loop] in Hrun.
  destruct (ct_n s <? ntoken) eqn:Hlt; [| injection Hrun as <- _; lia].
  apply Z.ltb_lt in Hlt.
  destruct (collect_tokens_body fuel s) as [flow |] eqn:Hbody;
    [| discriminate Hrun].
  pose proof Hinv as (Hwf & _).
  pose proof (collect_tokens_body_effect fuel s flow Hwf Hbody) as Heff.
  destruct flow as [r0 s0 | s0].
  - injection Hrun as <- <-.
    destruct Heff as [-> | [Heff ->]]; [lia |].
    destruct (turn_keeps_unit_intact size wr0 ntoken consumed s s0
                Hinv Hlt Hsize Heff Hroom) as (c & Hc & Hinv').
    exists c. auto.
  - pose proof Heff as (Hwf0 & c0 & Hc0 & _).
    destruct (collect_tokens_loop_suffix fuel ntoken s0 s' r Hwf0 Hrun Hr)
      as (_ & c1 & Hc1).
    destruct (turn_keeps_unit_intact size wr0 ntoken consumed s s0
                Hinv Hlt Hsize Heff) as (c & Hc & Hinv0).
    { intros c Hc.
      assert (Hlen : List.length c = List.length c0).
      { apply (f_equal (@List.length ascii)) in Hc, Hc0.
        rewrite length_app in Hc, Hc0. lia. }
      specialize (Hroom (c0 ++ c1)%list).
      rewrite length_app in Hroom. rewrite Hlen.
      assert (Hb := Hroom ltac:(rewrite Hc0, Hc1, app_assoc; reflexivity)).
      lia. }
    destruct (IH ntoken s0 s' r (consumed ++ c)%list Hinv0 Hsize Hrun Hr)
      as (c' & Hc' & Hinv' & Hr').
    { intros c' Hc'.
      specialize (Hroom (c ++ c')%list).
      rewrite !length_app in *.
      assert (Hb := Hroom ltac:(rewrite Hc, Hc', app_assoc; reflexivity)).
      lia. }
    exists (c ++ c')%list. rewrite app_assoc.
    split; [rewrite Hc, Hc', app_assoc; reflexivity | auto].
Qed.

Lemma collect_tokens_intact (fuel : nat) (i : input_t) (rb : ringbuf_t)
  (tokens : list token_t) (ntoken : Z) (out : string) (r : Z)
  (s : ct_state) :
  wf_input i -> wf_ringbuf rb ->
  ntoken <= Z.of_nat (List.length tokens) ->
  collect_tokens fuel i rb tokens ntoken out = Some (r, s) ->
  0 <= r ->
  rb_wr rb + 2 * (Z.of_nat (List.length (pending i))
                  - Z.of_nat (List.length (pending (ct_in s))))
  <= RINGBUF_SIZE - 1 ->
  exists c,
    pending i = (c ++ pending (ct_in s))%list
    /\ unit_intact (List.length tokens) (rb_wr rb) c s
    /\ r = ct_n s.
Proof.
  intros Hwf Hrb Hsize Hrun Hr Hroom. unfold collect_tokens in Hrun.
  apply (collect_tokens_loop_intact (List.length tokens) (rb_wr rb) fuel
           ntoken (mk_ct i rb tokens 0 0 out) s r []);
    try assumption.
  - unfold unit_intact. cbn [ct_in ct_rb ct_n ct_tokens List.length].
    repeat (split; [auto; lia |]). constructor.
  - cbn [ct_in List.length]. intros c Hc.
    rewrite Hc, length_app in Hroom. lia.
Qed.

(** In an intact unit the symbol, if there is one, is a name that occurs in
    the bytes consumed. *)
Lemma intact_unit_symbol (size : nat) (wr0 : Z) (c : list ascii)
  (s : ct_state) :
  unit_intact size wr0 c s ->
  ct_n s <= Z.of_nat size ->
  symbol_from_tokens (rb_buf (ct_rb s)) (ct_tokens s) (ct_n s) = NULL
  \/ (is_name (cstr (rb_buf (ct_rb s))
                    (symbol_from_tokens (rb_buf (ct_rb s)) (ct_tokens s)
                                        (ct_n s)))
      /\ occurs_in (cstr (rb_buf (ct_rb s))
                         (symbol_from_tokens (rb_buf (ct_rb s)) (ct_tokens s)
                                             (ct_n s))) c).
Proof.
  intros (_ & _ & Hn & Hlen & _ & Hall) Hsize.
  destruct (symbol_is_the_value_of_a_word
              (rb_buf (ct_rb s)) (ct_tokens s) (ct_n s))
    as [H | (j & Hj & Hword & Hsym)]; [left; exact H | right].
  rewrite Hsym.
  assert (Ht : token_intact (rb_buf (ct_rb s)) (rb_wr (ct_rb s)) c
                 (array_get (ct_tokens s) j)).
  { unfold array_get.
    rewrite Forall_nth in Hall.
    specialize (Hall (Z.to_nat j) no_token).
    rewrite nth_firstn in Hall.
    replace (Z.to_nat j <? Z.to_nat (ct_n s))%nat with true in Hall
      by (symmetry; apply Nat.ltb_lt; lia).
    apply Hall. rewrite length_firstn. lia. }
  destruct Ht as (off & _ & _ & _ & Hclass & Hocc).
  unfold is_type in Hword. rewrite Hword in Hclass.
  split; [exact Hclass | exact (Hocc Hword)].
Qed.

(** X26.  A unit during whose collection the ring buffer cannot have
    started over (twice the bytes the call consumed fit behind the write
    offset it was entered with) is intact: every token reads as a text of
    its type (a Word as a name that occurs in the bytes consumed, a block
    as its bracket, [=], [;]), and the symbol recognised in it, if any, is
    a name that occurs in the bytes consumed. *)
Theorem unit_without_restart_is_intact (fuel : nat) (i : input_t)
  (rb : ringbuf_t) (tokens : list token_t) (ntoken : Z) (out : string)
  (r : Z) (s : ct_state) :
  wf_input i -> wf_ringbuf rb ->
  ntoken <= Z.of_nat (List.length tokens) ->
  collect_tokens fuel i rb tokens ntoken out = Some (r, s) ->
  0 < r ->
  rb_wr rb + 2 * (Z.of_nat (List.length (pending i))
                  - Z.of_nat (List.length (pending (ct_in s))))
  <= RINGBUF_SIZE - 1 ->
  exists consumed,
    pending i = (consumed ++ pending (ct_in s))%list
    /\ Forall (token_reads (rb_buf (ct_rb s)) consumed)
              (firstn (Z.to_nat r) (ct_tokens s))
    /\ (symbol_from_tokens (rb_buf (ct_rb s)) (ct_tokens s) r = NULL
        \/ (is_name (cstr (rb_buf (ct_rb s))
                          (symbol_from_tokens (rb_buf (ct_rb s))
                                              (ct_tokens s) r))
            /\ occurs_in (cstr (rb_buf (ct_rb s))
                               (symbol_from_tokens (rb_buf (ct_rb s))
                                                   (ct_tokens s) r))
                         consumed)).
Proof.
  intros Hwf Hrb Hsize Hrun Hr Hroom.
  destruct (collect_tokens_intact fuel i rb tokens ntoken out r s Hwf Hrb
              Hsize Hrun ltac:(lia) Hroom) as (c & Hc & Hinv & ->).
  unfold collect_tokens in Hrun.
  destruct (collect_tokens_loop_frame fuel ntoken (mk_ct i rb tokens 0 0 out)
              s (ct_n s) ltac:(cbn [ct_n]; lia) Hrun) as [Hbound _].
  exists c. split; [exact Hc |]. split.
  - destruct Hinv as (_ & _ & _ & _ & _ & Hall).
    apply (Forall_impl _ (P := token_intact (rb_buf (ct_rb s))
                                 (rb_wr (ct_rb s)) c)); [| exact Hall].
    intros t (off & _ & _ & _ & Hreads). exact Hreads.
  - apply (intact_unit_symbol (List.length tokens) (rb_wr rb) c s Hinv).
    lia.
Qed.

(** The unit of [int a = b;], collected from the start of a file: its five
    tokens read as they were written and its symbol [a] is a name of the
    text. *)
Lemma unit_without_restart_is_intact_witness :
  exists consumed,
    pending (input_init (list_ascii_of_string "int a = b;"))
    = (consumed
       ++ pending (ct_in (snd (first_call 100 (scan_init "int a = b;")))))%list
    /\ Forall (token_reads
                 (rb_buf (ct_rb (snd (first_call 100
                                        (scan_init "int a = b;")))))
                 consumed)
              (firstn (Z.to_nat 5)
                 (ct_tokens (snd (first_call 100 (scan_init "int a = b;")))))
    /\ (symbol_from_tokens
          (rb_buf (ct_rb (snd (first_call 100 (scan_init "int a = b;")))))
          (ct_tokens (snd (first_call 100 (scan_init "int a = b;")))) 5
        = NULL
        \/ (is_name
              (cstr (rb_buf (ct_rb (snd (first_call 100
                                           (scan_init "int a = b;")))))
                    (symbol_from_tokens
                       (rb_buf (ct_rb (snd (first_call 100
                                              (scan_init "int a = b;")))))
                       (ct_tokens (snd (first_call 100
                                          (scan_init "int a = b;")))) 5))
            /\ occurs_in
                 (cstr (rb_buf (ct_rb (snd (first_call 100
                                              (scan_init "int a = b;")))))
                       (symbol_from_tokens
                          (rb_buf (ct_rb (snd (first_call 100
                                                 (scan_init "int a = b;")))))
                          (ct_tokens (snd (first_call 100
                                             (scan_init "int a = b;")))) 5))
                 consumed)).
Proof.
  apply (unit_without_restart_is_intact
           100 (input_init (list_ascii_of_string "int a = b;")) ringbuf_init
           (repeat no_token (Z.to_nat MAX_TOKENS)) MAX_TOKENS "" 5).
  - apply input_init_pending.
  - apply ringbuf_init_wf.
  - vm_compute. discriminate.
  - vm_compute. reflexivity.
  - lia.
  - vm_compute. discriminate.
Defined.

(** ** Small files *)

Lemma extract_loop_names (text : list ascii) (re : option regex_t)
  (fuel : nat) :
  forall (sc sc' : scan_t) (st st' : symtab_t) (consumed : list ascii),
  wf_input (sc_in sc) -> wf_ringbuf (sc_rb sc) ->
  MAX_TOKENS <= Z.of_nat (List.length (sc_tokens sc)) ->
  text = (consumed ++ pending (sc_in sc))%list ->
  rb_wr (sc_rb sc) <= 2 * Z.of_nat (List.length consumed) ->
  2 * Z.of_nat (List.length text) <= RINGBUF_SIZE - 1 ->
  extract_loop fuel re sc st = Some (st', sc') ->
  Forall (fun x => In x st \/ (is_name x /\ occurs_in x text)) st'.
Proof.
  induction fuel as [| fuel IH];
    intros sc sc' st st' consumed Hwf Hrb Hsize Htext Hwr Hsmall Hrun;
    [discriminate Hrun |].
  cbn [extract_loop] in Hrun.
  destruct (collect_tokens fuel (sc_in sc) (sc_rb sc) (sc_tokens sc)
                           MAX_TOKENS (sc_stdout sc))
    as [[ntoken s] |] eqn:Hcall; [| discriminate Hrun].
  destruct (0 <? ntoken) eqn:Hpos.
  - apply Z.ltb_lt in Hpos.
    destruct (collect_tokens_intact fuel (sc_in sc) (sc_rb sc) (sc_tokens sc)
                MAX_TOKENS (sc_stdout sc) ntoken s Hwf Hrb Hsize Hcall
                ltac:(lia))
      as (c & Hc & Hinv & Hr).
    { apply (f_equal (@List.length ascii)) in Htext.
      rewrite length_app in Htext. lia. }
    pose proof Hinv as (Hwf' & Hrb' & _ & Hlen' & Hwr' & _).
    assert (Hsym := intact_unit_symbol _ _ c s Hinv).
    rewrite <- Hr in Hsym.
    unfold collect_tokens in Hcall.
    destruct (collect_tokens_loop_frame
                fuel MAX_TOKENS
                (mk_ct (sc_in sc) (sc_rb sc) (sc_tokens sc) 0 0 (sc_stdout sc))
                s ntoken ltac:(cbn [ct_n]; lia) Hcall) as [Hbound _].
    specialize (Hsym ltac:(lia)).
    apply (IH _ _ _ _ (consumed ++ c)%list) in Hrun; cbn [sc_in sc_rb
      sc_tokens]; try assumption.
    + revert Hrun. apply Forall_impl.
      intros x [Hx | Hx]; [| right; exact Hx].
      destruct (symbol_from_tokens (rb_buf (ct_rb s)) (ct_tokens s) ntoken)
        as [| off] eqn:Hres; [left; exact Hx |].
      destruct Hsym as [Hnull | [Hname Hocc]]; [discriminate Hnull |].
      assert (Hadd : In x (symtab_add st (cstr (rb_buf (ct_rb s))
                                               (Arena off))) ->
                     In x st
                     \/ (is_name x /\ occurs_in x text)).
      { intros H. apply symtab_add_In in H. destruct H as [-> | H];
          [right | left; exact H].
        split; [exact Hname |].
        rewrite Htext, Hc.
        apply occurs_in_app. exact Hocc. }
      destruct re as [matcher |]; [| exact (Hadd Hx)].
      destruct (matcher _); [exact (Hadd Hx) | left; exact Hx].
    + rewrite Hlen'. exact Hsize.
    + rewrite Htext, Hc, app_assoc. reflexivity.
    + rewrite length_app. lia.
  - injection Hrun as <- _.
    apply Forall_forall. intros x Hx. left. exact Hx.
Qed.

(** X27.  The scan of a file of at most 8191 bytes, in which the ring
    buffer cannot start over, adds nothing but names that occur in the
    file: every entry of the table it returns was in the table before or is
    a string of word characters, not empty, that the file contains. *)
Theorem small_file_symbols_are_names (fuel : nat) (text : string)
  (st st' : symtab_t) (re : option regex_t) (out out' : string) :
  2 * Z.of_nat (String.length text) <= RINGBUF_SIZE - 1 ->
  extract_symbols fuel text st re out = Some (st', out') ->
  Forall (fun x => In x st
                   \/ (is_name x /\ occurs_in x (list_ascii_of_string text)))
         st'.
Proof.
  intros Hsmall Hrun. unfold extract_symbols in Hrun.
  destruct (extract_loop fuel re _ st) as [[st1 sc1] |] eqn:Hloop;
    [| discriminate Hrun].
  injection Hrun as <- _.
  destruct (input_init_pending (list_ascii_of_string text)) as [Hwf Hp].
  apply (extract_loop_names
           (list_ascii_of_string text) re fuel
           (mk_scan (input_init (list_ascii_of_string text)) ringbuf_init
                    (repeat no_token (Z.to_nat MAX_TOKENS)) out)
           sc1 st st1 []);
    cbn [sc_in sc_rb sc_tokens List.length app].
  - exact Hwf.
  - apply ringbuf_init_wf.
  - rewrite repeat_length. lia.
  - symmetry. exact Hp.
  - cbn. lia.
  - rewrite list_ascii_length. exact Hsmall.
  - exact Hloop.
Qed.

(** The scan of a file with a variable, a prototype and a function
    definition. *)
Lemma small_file_symbols_are_names_witness :
  extract_symbols 100 "int a = b; int f(void); int g(void) { return 0; }"
                  symtab_init None ""
  = Some (["a"; "f"], "")
  /\ Forall (fun x =>
               In x symtab_init
               \/ (is_name x
                   /\ occurs_in x
                        (list_ascii_of_string
                           "int a = b; int f(void); int g(void) { return 0; }")))
            ["a"; "f"].
Proof.
  split; [vm_compute; reflexivity |].
  apply (small_file_symbols_are_names
           100 "int a = b; int f(void); int g(void) { return 0; }"
           symtab_init ["a"; "f"] None "" "").
  - vm_compute. discriminate.
  - vm_compute. reflexivity.
Defined.
